(** * sam-serverless-api: tenant-partitioned note storage, cursors, rate limiting

    A shallow embedding of the storage core of the clinical-notes backend:

    - [src/data/keys.ts]              key scheme ([buildPK], [buildSK]);
    - [src/data/cursor.ts]            opaque pagination cursor
                                      ([encodeCursor], [decodeCursor]);
    - [src/data/notes.repository.ts]  note CRUD, listing, optimistic update,
                                      soft delete;
    - [src/lib/rate-limiter.ts]       fixed-window rate limiter;
    - [src/lib/auth.ts], [src/lib/patient-access.ts]
                                      scopes and the access tests;
    - [src/data/patients.repository.ts]
                                      patient records;
    - [src/services/notes.service.ts], [src/services/attachments.service.ts]
                                      the note service and the presigned
                                      URLs of attachments.

    JavaScript strings are byte strings holding UTF-8 text.  The DynamoDB table
    behind [docClient.send] is a finite map from (PK, SK) to items; commands are
    first-order values interpreted by the store model below.  Exceptions, the
    logger and injected store failures are threaded by a small state monad. *)

From Stdlib Require Import ZArith NArith Ascii String List Lia.
From stdpp Require Import base tactics option list gmap strings sorting pretty.

Local Open Scope Z_scope.

(** ** Bytes *)

Definition code (c : ascii) : N := N_of_ascii c.

Definition byte_in (lo hi : N) (c : ascii) : bool :=
  ((lo <=? code c) && (code c <=? hi))%N.

Definition chr (n : N) : ascii := ascii_of_N n.

(** [String.prototype.startsWith] on byte strings. *)
Definition startsWith (s p : string) : bool := String.prefix p s.

(** JavaScript truthiness of a string value. *)
Definition truthy (s : string) : bool := negb (String.eqb s EmptyString).

(** Truthiness of an optional property: [undefined] is falsy. *)
Definition truthy_opt (o : option string) : bool :=
  match o with Some s => truthy s | None => false end.

(** ** Key scheme: src/data/keys.ts *)

Definition buildPK (clinicId patientId : string) : string :=
  "CLINIC#" +:+ clinicId +:+ "#PATIENT#" +:+ patientId.

Definition buildSK (studyDate noteId : string) : string :=
  "NOTE#" +:+ studyDate +:+ "#" +:+ noteId.

(** ** base64url, as [Buffer] implements it

    Encoding regroups three bytes into four sextets and never pads.  Decoding
    is lenient: characters outside both base64 alphabets are skipped and
    decoding stops at the first padding character. *)

Definition b64url_alphabet : string :=
  "ABCDEFGHIJKLMNOPQRSTUVWXYZabcdefghijklmnopqrstuvwxyz0123456789-_".

Definition b64url_char (sextet : ascii) : ascii :=
  match String.get (nat_of_ascii sextet) b64url_alphabet with
  | Some c => c
  | None => "A"%char
  end.

Definition unbase64 (c : ascii) : option ascii :=
  let n := code c in
  if byte_in 65 90 c then Some (chr (n - 65))
  else if byte_in 97 122 c then Some (chr (n - 71))
  else if byte_in 48 57 c then Some (chr (n + 4))
  else if (n =? 45)%N || (n =? 43)%N then Some (chr 62)
  else if (n =? 95)%N || (n =? 47)%N then Some (chr 63)
  else None.

(** [a >> 2] *)
Definition sextet1 (a : ascii) : ascii :=
  let 'Ascii _ _ a2 a3 a4 a5 a6 a7 := a in
  Ascii a2 a3 a4 a5 a6 a7 false false.

(** [((a & 0x03) << 4) | (b >> 4)] *)
Definition sextet2 (a b : ascii) : ascii :=
  let 'Ascii a0 a1 _ _ _ _ _ _ := a in
  let 'Ascii _ _ _ _ b4 b5 b6 b7 := b in
  Ascii b4 b5 b6 b7 a0 a1 false false.

(** [((b & 0x0f) << 2) | (c >> 6)] *)
Definition sextet3 (b c : ascii) : ascii :=
  let 'Ascii b0 b1 b2 b3 _ _ _ _ := b in
  let 'Ascii _ _ _ _ _ _ c6 c7 := c in
  Ascii c6 c7 b0 b1 b2 b3 false false.

(** [c & 0x3f] *)
Definition sextet4 (c : ascii) : ascii :=
  let 'Ascii c0 c1 c2 c3 c4 c5 _ _ := c in
  Ascii c0 c1 c2 c3 c4 c5 false false.

Fixpoint base64url_encode (bs : string) : string :=
  match bs with
  | EmptyString => EmptyString
  | String a EmptyString =>
      String (b64url_char (sextet1 a))
        (String (b64url_char (sextet2 a zero)) EmptyString)
  | String a (String b EmptyString) =>
      String (b64url_char (sextet1 a))
        (String (b64url_char (sextet2 a b))
           (String (b64url_char (sextet3 b zero)) EmptyString))
  | String a (String b (String c rest)) =>
      String (b64url_char (sextet1 a))
        (String (b64url_char (sextet2 a b))
           (String (b64url_char (sextet3 b c))
              (String (b64url_char (sextet4 c)) (base64url_encode rest))))
  end.

(** The legal sextets of the input, up to the first ['=']. *)
Fixpoint sextets (s : string) : list ascii :=
  match s with
  | EmptyString => []
  | String c rest =>
      match unbase64 c with
      | Some v => v :: sextets rest
      | None => if (code c =? 61)%N then [] else sextets rest
      end
  end.

(** [((hi & 0x3f) << 2) | ((lo & 0x30) >> 4)] *)
Definition octet1 (s1 s2 : ascii) : ascii :=
  let 'Ascii x0 x1 x2 x3 x4 x5 _ _ := s1 in
  let 'Ascii _ _ _ _ y4 y5 _ _ := s2 in
  Ascii y4 y5 x0 x1 x2 x3 x4 x5.

(** [((hi & 0x0f) << 4) | ((lo & 0x3c) >> 2)] *)
Definition octet2 (s2 s3 : ascii) : ascii :=
  let 'Ascii y0 y1 y2 y3 _ _ _ _ := s2 in
  let 'Ascii _ _ z2 z3 z4 z5 _ _ := s3 in
  Ascii z2 z3 z4 z5 y0 y1 y2 y3.

(** [((hi & 0x03) << 6) | (lo & 0x3f)] *)
Definition octet3 (s3 s4 : ascii) : ascii :=
  let 'Ascii z0 z1 _ _ _ _ _ _ := s3 in
  let 'Ascii w0 w1 w2 w3 w4 w5 _ _ := s4 in
  Ascii w0 w1 w2 w3 w4 w5 z0 z1.

Fixpoint octets (l : list ascii) : string :=
  match l with
  | s1 :: s2 :: s3 :: s4 :: rest =>
      String (octet1 s1 s2)
        (String (octet2 s2 s3) (String (octet3 s3 s4) (octets rest)))
  | [s1; s2; s3] => String (octet1 s1 s2) (String (octet2 s2 s3) EmptyString)
  | [s1; s2] => String (octet1 s1 s2) EmptyString
  | _ => EmptyString
  end.

Definition base64url_decode (s : string) : string := octets (sextets s).

(** ** UTF-8, as [Buffer.prototype.toString('utf-8')] decodes it

    Well-formed sequences are kept; every maximal ill-formed part is replaced
    by U+FFFD. *)

Definition REPLACEMENT : string :=
  String (chr 239) (String (chr 191) (String (chr 189) EmptyString)).

Definition is_cont (c : ascii) : bool := byte_in 128 191 c.

(** The range allowed for the byte that follows lead byte [b0]. *)
Definition second_range (b0 : ascii) : N * N :=
  if (code b0 =? 224)%N then (160, 191)%N
  else if (code b0 =? 237)%N then (128, 159)%N
  else if (code b0 =? 240)%N then (144, 191)%N
  else if (code b0 =? 244)%N then (128, 143)%N
  else (128, 191)%N.

Definition is_second (b0 b1 : ascii) : bool :=
  byte_in (second_range b0).1 (second_range b0).2 b1.

Fixpoint utf8_toString (bs : string) : string :=
  match bs with
  | EmptyString => EmptyString
  | String b0 r0 =>
      if (code b0 <? 128)%N then String b0 (utf8_toString r0)
      else if byte_in 194 223 b0 then
        match r0 with
        | String b1 r1 =>
            if is_cont b1 then String b0 (String b1 (utf8_toString r1))
            else REPLACEMENT +:+ utf8_toString r0
        | EmptyString => REPLACEMENT
        end
      else if byte_in 224 239 b0 then
        match r0 with
        | String b1 r1 =>
            if is_second b0 b1 then
              match r1 with
              | String b2 r2 =>
                  if is_cont b2
                  then String b0 (String b1 (String b2 (utf8_toString r2)))
                  else REPLACEMENT +:+ utf8_toString r1
              | EmptyString => REPLACEMENT
              end
            else REPLACEMENT +:+ utf8_toString r0
        | EmptyString => REPLACEMENT
        end
      else if byte_in 240 244 b0 then
        match r0 with
        | String b1 r1 =>
            if is_second b0 b1 then
              match r1 with
              | String b2 r2 =>
                  if is_cont b2 then
                    match r2 with
                    | String b3 r3 =>
                        if is_cont b3
                        then String b0 (String b1 (String b2
                               (String b3 (utf8_toString r3))))
                        else REPLACEMENT +:+ utf8_toString r2
                    | EmptyString => REPLACEMENT
                    end
                  else REPLACEMENT +:+ utf8_toString r1
              | EmptyString => REPLACEMENT
              end
            else REPLACEMENT +:+ utf8_toString r0
        | EmptyString => REPLACEMENT
        end
      else REPLACEMENT +:+ utf8_toString r0
  end.

(** Well-formed UTF-8: the byte strings that stand for JavaScript strings
    without lone surrogates. *)
Inductive utf8_valid : string -> Prop :=
  | utf8_nil : utf8_valid EmptyString
  | utf8_one b0 r :
      (code b0 <? 128)%N = true -> utf8_valid r -> utf8_valid (String b0 r)
  | utf8_two b0 b1 r :
      byte_in 194 223 b0 = true -> is_cont b1 = true -> utf8_valid r ->
      utf8_valid (String b0 (String b1 r))
  | utf8_three b0 b1 b2 r :
      byte_in 224 239 b0 = true -> is_second b0 b1 = true ->
      is_cont b2 = true -> utf8_valid r ->
      utf8_valid (String b0 (String b1 (String b2 r)))
  | utf8_four b0 b1 b2 b3 r :
      byte_in 240 244 b0 = true -> is_second b0 b1 = true ->
      is_cont b2 = true -> is_cont b3 = true -> utf8_valid r ->
      utf8_valid (String b0 (String b1 (String b2 (String b3 r)))).

(** UTF-8 bytes of a UTF-16 code unit or of a code point. *)
Definition utf8_encode (n : N) : string :=
  (if n <? 128 then String (chr n) EmptyString
   else if n <? 2048 then
     String (chr (192 + n / 64)) (String (chr (128 + n mod 64)) EmptyString)
   else if n <? 65536 then
     String (chr (224 + n / 4096))
       (String (chr (128 + (n / 64) mod 64))
          (String (chr (128 + n mod 64)) EmptyString))
   else
     String (chr (240 + n / 262144))
       (String (chr (128 + (n / 4096) mod 64))
          (String (chr (128 + (n / 64) mod 64))
             (String (chr (128 + n mod 64)) EmptyString))))%N.

(** ** JSON, as [JSON.stringify] and [JSON.parse] read and write it *)

Definition dquote : ascii := chr 34.
Definition backslash : ascii := chr 92.

(** A parsed JSON value.  A number keeps its lexeme: the cursor code only
    asks whether a property is a string. *)
#[local] Set Warnings "-register-all".

Inductive JSON :=
  | JNull
  | JBool (b : bool)
  | JNumber (lexeme : string)
  | JString (s : string)
  | JArray (elements : list JSON)
  | JObject (members : list (string * JSON)).

Inductive JsError := SyntaxError | TypeError.

(** *** JSON.stringify *)

Definition hex_digit (n : N) : ascii :=
  if (n <? 10)%N then chr (48 + n) else chr (87 + n).

(** QuoteJSONString on one byte: the short escapes, [\u00xx] for the other
    control characters, every other byte as it is. *)
Definition escape_char (c : ascii) : string :=
  let n := code c in
  if (n =? 8)%N then "\b"
  else if (n =? 9)%N then "\t"
  else if (n =? 10)%N then "\n"
  else if (n =? 12)%N then "\f"
  else if (n =? 13)%N then "\r"
  else if (n =? 34)%N then String backslash (String dquote EmptyString)
  else if (n =? 92)%N then String backslash (String backslash EmptyString)
  else if (n <? 32)%N then
    "\u00" +:+ String (hex_digit (n / 16)) (String (hex_digit (n mod 16)) EmptyString)
  else String c EmptyString.

Fixpoint escape (s : string) : string :=
  match s with
  | EmptyString => EmptyString
  | String c r => escape_char c +:+ escape r
  end.

Definition quoteJSONString (s : string) : string :=
  String dquote (escape s +:+ String dquote EmptyString).

(** *** JSON.parse *)

Definition is_ws (c : ascii) : bool :=
  ((code c =? 32) || (code c =? 9) || (code c =? 10) || (code c =? 13))%N.

Fixpoint skip_ws (s : string) : string :=
  match s with
  | String c r => if is_ws c then skip_ws r else s
  | EmptyString => EmptyString
  end.

Definition hex_value (c : ascii) : option N :=
  if byte_in 48 57 c then Some (code c - 48)%N
  else if byte_in 97 102 c then Some (code c - 87)%N
  else if byte_in 65 70 c then Some (code c - 55)%N
  else None.

Definition hex4 (h1 h2 h3 h4 : ascii) : option N :=
  match hex_value h1, hex_value h2, hex_value h3, hex_value h4 with
  | Some a, Some b, Some c, Some d => Some (a * 4096 + b * 256 + c * 16 + d)%N
  | _, _, _, _ => None
  end.

(** What one short escape letter stands for. *)
Definition unescape (e : ascii) : option ascii :=
  let n := code e in
  if ((n =? 34) || (n =? 92) || (n =? 47))%N then Some e
  else if (n =? 98)%N then Some (chr 8)
  else if (n =? 102)%N then Some (chr 12)
  else if (n =? 110)%N then Some (chr 10)
  else if (n =? 114)%N then Some (chr 13)
  else if (n =? 116)%N then Some (chr 9)
  else None.

(** The inside of a string literal, after its opening quote: raw bytes
    ([inl]) and the UTF-16 code units of [\u] escapes ([inr]), then the text
    after the closing quote. *)
Fixpoint parse_chars (s : string) : option (list (ascii + N) * string) :=
  match s with
  | EmptyString => None
  | String c r =>
      if (code c =? 34)%N then Some ([], r)
      else if (code c =? 92)%N then
        match r with
        | String e r1 =>
            if (code e =? 117)%N then
              match r1 with
              | String h1 (String h2 (String h3 (String h4 r2))) =>
                  match hex4 h1 h2 h3 h4 with
                  | Some u =>
                      match parse_chars r2 with
                      | Some (us, rest) => Some (inr u :: us, rest)
                      | None => None
                      end
                  | None => None
                  end
              | _ => None
              end
            else
              match unescape e with
              | Some b =>
                  match parse_chars r1 with
                  | Some (us, rest) => Some (inl b :: us, rest)
                  | None => None
                  end
              | None => None
              end
        | EmptyString => None
        end
      else if (code c <? 32)%N then None
      else
        match parse_chars r with
        | Some (us, rest) => Some (inl c :: us, rest)
        | None => None
        end
  end.

Definition is_high_surrogate (u : N) : bool := ((55296 <=? u) && (u <=? 56319))%N.
Definition is_low_surrogate (u : N) : bool := ((56320 <=? u) && (u <=? 57343))%N.

(** The string value: an escaped surrogate pair is one code point. *)
Fixpoint units_to_string (l : list (ascii + N)) : string :=
  match l with
  | [] => EmptyString
  | inl b :: r => String b (units_to_string r)
  | inr u :: r =>
      match r with
      | inr v :: r' =>
          if is_high_surrogate u && is_low_surrogate v
          then utf8_encode (65536 + (u - 55296) * 1024 + (v - 56320))%N
                 +:+ units_to_string r'
          else utf8_encode u +:+ units_to_string r
      | _ => utf8_encode u +:+ units_to_string r
      end
  end.

Definition parse_string (s : string) : option (string * string) :=
  match parse_chars s with
  | Some (us, rest) => Some (units_to_string us, rest)
  | None => None
  end.

Definition is_digit (c : ascii) : bool := byte_in 48 57 c.

Fixpoint span_digits (s : string) : string * string :=
  match s with
  | String c r =>
      if is_digit c
      then let '(d, rest) := span_digits r in (String c d, rest)
      else (EmptyString, s)
  | EmptyString => (EmptyString, EmptyString)
  end.

(** One or more digits. *)
Definition digits1 (s : string) : option (string * string) :=
  match span_digits s with
  | (EmptyString, _) => None
  | (d, rest) => Some (d, rest)
  end.

Definition parse_int (s : string) : option (string * string) :=
  match s with
  | String c r =>
      if (code c =? 48)%N then Some (String c EmptyString, r)
      else if byte_in 49 57 c
      then let '(d, rest) := span_digits r in Some (String c d, rest)
      else None
  | EmptyString => None
  end.

Definition parse_frac (s : string) : option (string * string) :=
  match s with
  | String c r =>
      if (code c =? 46)%N then
        match digits1 r with
        | Some (d, rest) => Some (String c d, rest)
        | None => None
        end
      else Some (EmptyString, s)
  | EmptyString => Some (EmptyString, s)
  end.

Definition parse_exp (s : string) : option (string * string) :=
  match s with
  | String c r =>
      if ((code c =? 101) || (code c =? 69))%N then
        match r with
        | String sg r1 =>
            if ((code sg =? 43) || (code sg =? 45))%N then
              match digits1 r1 with
              | Some (d, rest) => Some (String c (String sg d), rest)
              | None => None
              end
            else
              match digits1 r with
              | Some (d, rest) => Some (String c d, rest)
              | None => None
              end
        | EmptyString => None
        end
      else Some (EmptyString, s)
  | EmptyString => Some (EmptyString, s)
  end.

Definition parse_unsigned (s : string) : option (string * string) :=
  match parse_int s with
  | Some (i, s1) =>
      match parse_frac s1 with
      | Some (f, s2) =>
          match parse_exp s2 with
          | Some (e, s3) => Some (i +:+ f +:+ e, s3)
          | None => None
          end
      | None => None
      end
  | None => None
  end.

Definition parse_number (s : string) : option (string * string) :=
  match s with
  | String c r =>
      if (code c =? 45)%N then
        match parse_unsigned r with
        | Some (n, rest) => Some (String c n, rest)
        | None => None
        end
      else parse_unsigned s
  | EmptyString => None
  end.

(** The text after literal [lit], when [s] starts with it. *)
Fixpoint strip_prefix (lit s : string) : option string :=
  match lit, s with
  | EmptyString, _ => Some s
  | String a lit', String b s' =>
      if Ascii.eqb a b then strip_prefix lit' s' else None
  | String _ _, EmptyString => None
  end.

Inductive ParseResult (A : Type) :=
  | POk (a : A) (rest : string)
  | PSyntaxError
  | PFuel.
Arguments POk {A} a rest.
Arguments PSyntaxError {A}.
Arguments PFuel {A}.

(** A member name and the text after its colon. *)
Definition parse_key (s : string) : option (string * string) :=
  match skip_ws s with
  | String c r =>
      if (code c =? 34)%N then
        match parse_string r with
        | Some (k, r1) =>
            match skip_ws r1 with
            | String c1 r2 => if (code c1 =? 58)%N then Some (k, r2) else None
            | EmptyString => None
            end
        | None => None
        end
      else None
  | EmptyString => None
  end.

Definition parse_literal (lit : string) (v : JSON) (s : string) : ParseResult JSON :=
  match strip_prefix lit s with
  | Some rest => POk v rest
  | None => PSyntaxError
  end.

(** Recursive descent.  [fuel] bounds the number of nested calls; every call
    is made after at least one more character has been read, so the length
    of the text is always enough fuel ([parse_value_fuel] below). *)
Fixpoint parse_value (fuel : nat) (s : string) : ParseResult JSON :=
  match fuel with
  | O => PFuel
  | S fuel' =>
      match skip_ws s with
      | EmptyString => PSyntaxError
      | String c r =>
          if (code c =? 123)%N then
            match skip_ws r with
            | EmptyString => PSyntaxError
            | String c1 r1 =>
                if (code c1 =? 125)%N then POk (JObject []) r1
                else
                  match parse_key r with
                  | Some (k, r2) =>
                      match parse_value fuel' r2 with
                      | POk v r3 =>
                          match parse_members fuel' r3 with
                          | POk ms r4 => POk (JObject ((k, v) :: ms)) r4
                          | PSyntaxError => PSyntaxError
                          | PFuel => PFuel
                          end
                      | PSyntaxError => PSyntaxError
                      | PFuel => PFuel
                      end
                  | None => PSyntaxError
                  end
            end
          else if (code c =? 91)%N then
            match skip_ws r with
            | EmptyString => PSyntaxError
            | String c1 r1 =>
                if (code c1 =? 93)%N then POk (JArray []) r1
                else
                  match parse_value fuel' r with
                  | POk v r2 =>
                      match parse_elements fuel' r2 with
                      | POk vs r3 => POk (JArray (v :: vs)) r3
                      | PSyntaxError => PSyntaxError
                      | PFuel => PFuel
                      end
                  | PSyntaxError => PSyntaxError
                  | PFuel => PFuel
                  end
            end
          else if (code c =? 34)%N then
            match parse_string r with
            | Some (v, rest) => POk (JString v) rest
            | None => PSyntaxError
            end
          else if (code c =? 116)%N then parse_literal "rue" (JBool true) r
          else if (code c =? 102)%N then parse_literal "alse" (JBool false) r
          else if (code c =? 110)%N then parse_literal "ull" JNull r
          else
            match parse_number (String c r) with
            | Some (n, rest) => POk (JNumber n) rest
            | None => PSyntaxError
            end
      end
  end

(** After an element: [,] and one more element, or the closing bracket. *)
with parse_elements (fuel : nat) (s : string) : ParseResult (list JSON) :=
  match fuel with
  | O => PFuel
  | S fuel' =>
      match skip_ws s with
      | EmptyString => PSyntaxError
      | String c r =>
          if (code c =? 93)%N then POk [] r
          else if (code c =? 44)%N then
            match parse_value fuel' r with
            | POk v r1 =>
                match parse_elements fuel' r1 with
                | POk vs r2 => POk (v :: vs) r2
                | PSyntaxError => PSyntaxError
                | PFuel => PFuel
                end
            | PSyntaxError => PSyntaxError
            | PFuel => PFuel
            end
          else PSyntaxError
      end
  end

(** After a member: [,] and one more member, or the closing brace. *)
with parse_members (fuel : nat) (s : string) : ParseResult (list (string * JSON)) :=
  match fuel with
  | O => PFuel
  | S fuel' =>
      match skip_ws s with
      | EmptyString => PSyntaxError
      | String c r =>
          if (code c =? 125)%N then POk [] r
          else if (code c =? 44)%N then
            match parse_key r with
            | Some (k, r1) =>
                match parse_value fuel' r1 with
                | POk v r2 =>
                    match parse_members fuel' r2 with
                    | POk ms r3 => POk ((k, v) :: ms) r3
                    | PSyntaxError => PSyntaxError
                    | PFuel => PFuel
                    end
                | PSyntaxError => PSyntaxError
                | PFuel => PFuel
                end
            | None => PSyntaxError
            end
          else PSyntaxError
      end
  end.

(** [JSON.parse]: one value, then only white space. *)
Definition JSON_parse (text : string) : JsError + JSON :=
  match parse_value (S (String.length text)) text with
  | POk v rest =>
      match skip_ws rest with
      | EmptyString => inr v
      | String _ _ => inl SyntaxError
      end
  | PSyntaxError | PFuel => inl SyntaxError
  end.

(** The last member named [k]: a later duplicate overwrites an earlier one. *)
Fixpoint own_property (k : string) (ms : list (string * JSON)) : option JSON :=
  match ms with
  | [] => None
  | (k', v) :: rest =>
      match own_property k rest with
      | Some w => Some w
      | None => if String.eqb k k' then Some v else None
      end
  end.

(** [value.k]: reading a property of [null] throws; a primitive or an array
    has no such property; [None] is [undefined]. *)
Definition get_property (value : JSON) (k : string) : JsError + option JSON :=
  match value with
  | JNull => inl TypeError
  | JObject ms => inr (own_property k ms)
  | JBool _ | JNumber _ | JString _ | JArray _ => inr None
  end.

(** ** Cursor codec: src/data/cursor.ts *)

Record CursorData := { PK : string; SK : string }.

(** [JSON.stringify({ PK, SK })] *)
Definition JSON_stringify (c : CursorData) : string :=
  "{" +:+ quoteJSONString "PK" +:+ ":" +:+ quoteJSONString (PK c) +:+ ","
      +:+ quoteJSONString "SK" +:+ ":" +:+ quoteJSONString (SK c) +:+ "}".

Definition encodeCursor (lastEvaluatedKey : CursorData) : string :=
  let json := JSON_stringify lastEvaluatedKey in
  base64url_encode json.

(** The body of the [try] block of [decodeCursor]. *)
Definition decodeCursor_try (cursor : string) : JsError + option CursorData :=
  let json := utf8_toString (base64url_decode cursor) in
  match JSON_parse json with
  | inl e => inl e
  | inr cursorData =>
      match get_property cursorData "PK", get_property cursorData "SK" with
      | inl e, _ => inl e
      | _, inl e => inl e
      | inr (Some (JString pk)), inr (Some (JString sk)) =>
          if negb (startsWith pk "CLINIC#") || negb (startsWith sk "NOTE#")
          then inr None
          else inr (Some {| PK := pk; SK := sk |})
      | inr _, inr _ => inr None
      end
  end.

(** [try { ... } catch { return undefined; }] *)
Definition decodeCursor (cursor : string) : option CursorData :=
  match decodeCursor_try cursor with
  | inr result => result
  | inl _ => None
  end.


(** ** Domain records: src/types/index.ts *)

Record Attachment := {
  id : string;
  fileName : string;
  contentType : string;
  sizeBytes : Z;
  s3Key : string;
  uploadedAt : string;
}.

Module Note.
Record t := {
  noteId : string;
  clinicId : string;
  patientId : string;
  studyDate : string;
  title : string;
  content : string;
  noteType : option string;
  tags : option (list string);
  attachments : list Attachment;
  createdAt : string;
  updatedAt : string;
  createdBy : string;
  createdByName : string;
  updatedBy : string;
  updatedByName : string;
  version : Z;
  deletedAt : option string;
  deletedBy : option string;
}.
End Note.

Module CreateNoteInput.
Record t := {
  studyDate : string;
  title : string;
  content : string;
  noteType : option string;
  tags : option (list string);
  attachments : option (list Attachment);
}.
End CreateNoteInput.

(** An optional property is [None] when the input leaves it out. *)
Module UpdateNoteInput.
Record t := {
  title : option string;
  content : option string;
  noteType : option string;
  tags : option (list string);
  attachments : option (list Attachment);
  version : Z;
}.
End UpdateNoteInput.

Module PaginatedResponse.
Record t (T : Type) := {
  items : list T;
  nextCursor : option string;
  hasMore : bool;
}.
Arguments items {T}.
Arguments nextCursor {T}.
Arguments hasMore {T}.
End PaginatedResponse.

(** ** Stored items: [DynamoDBNoteItem] of src/data/notes.repository.ts

    The table is schemaless, and [itemToNote] defends against items without
    [tags], [attachments] and the display names: those are optional here. *)
Module Item.
Record t := {
  PK : string;
  SK : string;
  noteId : string;
  clinicId : string;
  patientId : string;
  studyDate : string;
  title : string;
  content : string;
  noteType : option string;
  tags : option (list string);
  attachments : option (list Attachment);
  createdAt : string;
  updatedAt : string;
  createdBy : string;
  createdByName : option string;
  updatedBy : string;
  updatedByName : option string;
  version : Z;
  deletedAt : option string;
  deletedBy : option string;
  entityType : string;
  GSI1PK : option string;
  GSI1SK : option string;
}.
End Item.

(** A rate-limit record: the [count] and [ttl] attributes under a
    [RATELIMIT#...] / [WINDOW#...] key. *)
Module Window.
Record t := { count : Z; ttl : Z }.
End Window.

(** ** The table

    One table holds both key families.  A note key starts with [CLINIC#] and a
    rate-limit key with [RATELIMIT#] ([key_families_disjoint] below), so the
    table is the pair of the two finite maps. *)
Abbreviation Key := (string * string)%type.

Record Table := {
  notes : gmap Key Item.t;
  windows : gmap Key Window.t;
}.

Definition empty_table : Table := {| notes := ∅; windows := ∅ |}.

Definition with_notes (t : Table) (m : gmap Key Item.t) : Table :=
  {| notes := m; windows := windows t |}.

Definition with_windows (t : Table) (m : gmap Key Window.t) : Table :=
  {| notes := notes t; windows := m |}.

(** ** Errors, results and the effect monad *)

Inductive Exn :=
  | NotFoundError (resource identifier : string)
  | ConflictError (message : string)
  | TooManyRequestsError (message : string) (retryAfter : Z)
  (** an error thrown by the SDK client, with its [name] property *)
  | StoreError (name : string).

(** [err.name]: an [AppError] is named after its class. *)
Definition exn_name (e : Exn) : string :=
  match e with
  | NotFoundError _ _ => "NotFoundError"
  | ConflictError _ => "ConflictError"
  | TooManyRequestsError _ _ => "TooManyRequestsError"
  | StoreError name => name
  end.

Inductive Result (A : Type) :=
  | Return (a : A)
  | Throw (e : Exn).
Arguments Return {A} a.
Arguments Throw {A} e.

Module LogLevel.
Inductive t := debug | info | warn | error.
End LogLevel.

(** The state a call runs in: the table, the log written so far, and the
    script of the store's failures.  Each [docClient.send] consumes the head of
    [faults]: [Some name] makes the client throw an error of that name and
    leaves the table alone, [None] (or an exhausted script) lets the command
    reach the table. *)
Record World := {
  table : Table;
  logs : list (LogLevel.t * string);
  faults : list (option string);
}.

Definition M (A : Type) : Type := World -> Result A * World.

Definition ret {A} (a : A) : M A := fun w => (Return a, w).

Definition throw {A} (e : Exn) : M A := fun w => (Throw e, w).

Definition bind {A B} (m : M A) (k : A -> M B) : M B :=
  fun w =>
    match m w with
    | (Return a, w') => k a w'
    | (Throw e, w') => (Throw e, w')
    end.

#[global] Instance M_ret : MRet M := @ret.
#[global] Instance M_bind : MBind M := fun A B k m => bind m k.

(** [try { body } catch (err) { handler }] *)
Definition try_catch {A} (body : M A) (handler : Exn -> M A) : M A :=
  fun w =>
    match body w with
    | (Return a, w') => (Return a, w')
    | (Throw e, w') => handler e w'
    end.

Module logger.
Definition write (level : LogLevel.t) (message : string) : M unit :=
  fun w =>
    (Return tt,
     {| table := table w;
        logs := logs w ++ [(level, message)];
        faults := faults w |}).
Definition debug := write LogLevel.debug.
Definition info := write LogLevel.info.
Definition warn := write LogLevel.warn.
Definition error := write LogLevel.error.
End logger.

(** The numbers the document client writes and reads: it refuses to marshal a
    number above [Number.MAX_SAFE_INTEGER] or below its opposite, and throws a
    plain [Error] before any request is made. *)
Definition MAX_SAFE_INTEGER : Z := 2 ^ 53 - 1.

Definition safe_integer (n : Z) : Prop := - MAX_SAFE_INTEGER <= n <= MAX_SAFE_INTEGER.

Definition marshals (numbers : list Z) : bool :=
  forallb (fun n => (- MAX_SAFE_INTEGER <=? n) && (n <=? MAX_SAFE_INTEGER)) numbers.

(** [docClient.send(command)]: [command] is the command's effect on the
    table.  Marshalling is not part of it: the numbers of a command are taken
    to be safe integers, as the versions the repository issues are;
    [sending], below, puts the client's refusal of other numbers at the head
    of the script. *)
Definition docClient_send {A} (command : Table -> Result A * Table) : M A :=
  fun w =>
    match faults w with
    | Some name :: script =>
        (Throw (StoreError name),
         {| table := table w; logs := logs w; faults := script |})
    | None :: script =>
        let '(r, t) := command (table w) in
        (r, {| table := t; logs := logs w; faults := script |})
    | [] =>
        let '(r, t) := command (table w) in
        (r, {| table := t; logs := logs w; faults := [] |})
    end.

(** The world of a call that hands these numbers to the client in its first
    command: when one of them is not a safe integer, the client throws its
    [Error] at that send. *)
Definition sending (numbers : list Z) (w : World) : World :=
  if marshals numbers then w
  else {| table := table w; logs := logs w; faults := Some "Error" :: faults w |}.

(** The numbers in the command of [update]: the increment, the expected
    version and the sizes of the attachments. *)
Definition update_numbers (input : UpdateNoteInput.t) : list Z :=
  1 :: UpdateNoteInput.version input
    :: match UpdateNoteInput.attachments input with
       | Some attachments => sizeBytes <$> attachments
       | None => []
       end.

(** ** The document client's commands on note items *)

Definition ConditionalCheckFailedException : string :=
  "ConditionalCheckFailedException".
Definition ValidationException : string := "ValidationException".

(** The atoms of the condition and filter expressions the repository sends;
    an expression is their conjunction. *)
Inductive Condition :=
  | attribute_exists_PK
  | attribute_not_exists_PK
  | attribute_not_exists_deletedAt
  | version_equals (expectedVersion : Z)
  | noteId_equals (noteId : string)
  | contains_tags (tag : string).

(** A condition against the item under the key, [None] when there is none. *)
Definition holds (item : option Item.t) (c : Condition) : bool :=
  match c with
  | attribute_exists_PK => bool_decide (is_Some item)
  | attribute_not_exists_PK => bool_decide (item = None)
  | attribute_not_exists_deletedAt =>
      match item with
      | Some it => bool_decide (Item.deletedAt it = None)
      | None => true
      end
  | version_equals v =>
      match item with
      | Some it => Item.version it =? v
      | None => false
      end
  | noteId_equals n =>
      match item with
      | Some it => String.eqb (Item.noteId it) n
      | None => false
      end
  | contains_tags tag =>
      match item with
      | Some it =>
          match Item.tags it with
          | Some tags => bool_decide (tag ∈ tags)
          | None => false
          end
      | None => false
      end
  end.

Definition all_hold (item : option Item.t) (expression : list Condition) : bool :=
  forallb (holds item) expression.

(** The clauses of [SET] update expressions on a note. *)
Inductive Action :=
  | SET_updatedAt (v : string)
  | SET_updatedBy (v : string)
  | SET_updatedByName (v : string)
  (** [version = version + :inc] *)
  | SET_version_plus (inc : Z)
  | SET_title (v : string)
  | SET_content (v : string)
  | SET_attachments (v : list Attachment)
  | SET_deletedAt (v : string)
  | SET_deletedBy (v : string).

(** One clause: its right-hand side reads the item as it was before the
    update ([old]); the clause writes its own attribute of [it] only. *)
Definition apply_action (old it : Item.t) (a : Action) : Item.t :=
  {| Item.PK := Item.PK it;
     Item.SK := Item.SK it;
     Item.noteId := Item.noteId it;
     Item.clinicId := Item.clinicId it;
     Item.patientId := Item.patientId it;
     Item.studyDate := Item.studyDate it;
     Item.title := match a with SET_title v => v | _ => Item.title it end;
     Item.content := match a with SET_content v => v | _ => Item.content it end;
     Item.noteType := Item.noteType it;
     Item.tags := Item.tags it;
     Item.attachments :=
       match a with SET_attachments v => Some v | _ => Item.attachments it end;
     Item.createdAt := Item.createdAt it;
     Item.updatedAt :=
       match a with SET_updatedAt v => v | _ => Item.updatedAt it end;
     Item.createdBy := Item.createdBy it;
     Item.createdByName := Item.createdByName it;
     Item.updatedBy :=
       match a with SET_updatedBy v => v | _ => Item.updatedBy it end;
     Item.updatedByName :=
       match a with SET_updatedByName v => Some v | _ => Item.updatedByName it end;
     Item.version :=
       match a with
       | SET_version_plus inc => Item.version old + inc
       | _ => Item.version it
       end;
     Item.deletedAt :=
       match a with SET_deletedAt v => Some v | _ => Item.deletedAt it end;
     Item.deletedBy :=
       match a with SET_deletedBy v => Some v | _ => Item.deletedBy it end;
     Item.entityType := Item.entityType it;
     Item.GSI1PK := Item.GSI1PK it;
     Item.GSI1SK := Item.GSI1SK it |}.

Definition apply_actions (old : Item.t) (expression : list Action) : Item.t :=
  fold_left (apply_action old) expression old.

Module Put.
Record input := {
  Item : Item.t;
  ConditionExpression : list Condition;
}.
End Put.

Definition PutCommand (input : Put.input) (t : Table) : Result unit * Table :=
  let item := Put.Item input in
  let key := (Item.PK item, Item.SK item) in
  if all_hold (notes t !! key) (Put.ConditionExpression input)
  then (Return tt, with_notes t (<[key := item]> (notes t)))
  else (Throw (StoreError ConditionalCheckFailedException), t).

Module Get.
Record input := { Key : Key }.
Record output := { Item : option Item.t }.
End Get.

Definition GetCommand (input : Get.input) (t : Table) : Result Get.output * Table :=
  (Return {| Get.Item := notes t !! Get.Key input |}, t).

Inductive ReturnValues := NONE | ALL_NEW.

Module Update.
Record input := {
  Key : Key;
  UpdateExpression : list Action;
  ConditionExpression : list Condition;
  ReturnValues : ReturnValues;
}.
Record output := { Attributes : option Item.t }.
End Update.

(** An update of a missing key whose condition holds would create an item of
    the [SET] attributes only; the repository never sends one (every update
    requires [attribute_exists(PK)]), and the store refuses it here. *)
Definition UpdateCommand (input : Update.input) (t : Table)
  : Result Update.output * Table :=
  let key := Update.Key input in
  if all_hold (notes t !! key) (Update.ConditionExpression input) then
    match notes t !! key with
    | Some old =>
        let new := apply_actions old (Update.UpdateExpression input) in
        (Return {| Update.Attributes :=
                     match Update.ReturnValues input with
                     | ALL_NEW => Some new
                     | NONE => None
                     end |},
         with_notes t (<[key := new]> (notes t)))
    | None => (Throw (StoreError ValidationException), t)
    end
  else (Throw (StoreError ConditionalCheckFailedException), t).

Module Delete.
Record input := { Key : Key }.
End Delete.

Definition DeleteCommand (input : Delete.input) (t : Table) : Result unit * Table :=
  (Return tt, with_notes t (delete (Delete.Key input) (notes t))).

(** The sort-key part of a key condition; the partition part is always
    [PK = :pk]. *)
Inductive SortKeyCondition :=
  | begins_with (prefix : string)
  | BETWEEN (lo hi : string)
  | greater_or_equal (lo : string).

Module Query.
Record input := {
  pk : string;
  KeyConditionExpression : SortKeyCondition;
  FilterExpression : list Condition;
  Limit : option Z;
  ExclusiveStartKey : option CursorData;
  ScanIndexForward : bool;
}.
Record output := { Items : list Item.t }.
End Query.

Definition sort_key_matches (c : SortKeyCondition) (sk : string) : bool :=
  match c with
  | begins_with p => String.prefix p sk
  | BETWEEN lo hi => String.leb lo sk && String.leb sk hi
  | greater_or_equal lo => String.leb lo sk
  end.

Definition key_matches (pk : string) (c : SortKeyCondition) (k : Key) : bool :=
  String.eqb k.1 pk && sort_key_matches c k.2.

(** Scan order within a partition: sort keys compared as byte strings. *)
Definition sk_ascending (x y : Key * Item.t) : Prop := String.le x.1.2 y.1.2.
Definition sk_descending (x y : Key * Item.t) : Prop := String.le y.1.2 x.1.2.

#[global] Instance sk_ascending_dec : RelDecision sk_ascending.
Proof. intros x y. unfold sk_ascending. apply _. Defined.
#[global] Instance sk_descending_dec : RelDecision sk_descending.
Proof. intros x y. unfold sk_descending. apply _. Defined.

(** The items of the partition that satisfy the key condition, in scan
    order. *)
Definition scan (input : Query.input) (m : gmap Key Item.t) : list (Key * Item.t) :=
  let selected :=
    filter
      (fun e => key_matches (Query.pk input) (Query.KeyConditionExpression input) e.1
                = true)
      (map_to_list m) in
  if Query.ScanIndexForward input
  then merge_sort sk_ascending selected
  else merge_sort sk_descending selected.

(** Strictly after the start key in scan order. *)
Definition after_start (forward : bool) (start : CursorData) (e : Key * Item.t) : bool :=
  if forward
  then negb (String.leb e.1.2 (SK start))
  else negb (String.leb (SK start) e.1.2).

(** [Limit] bounds the items read, and is applied before the filter
    expression.  The table refuses a limit below one, a start key outside
    the boundaries of the key condition, and a [BETWEEN] whose upper bound is
    below its lower bound.

    The store also ends a page once the items read come to 1 MB, and the
    repository never asks for the rest ([LastEvaluatedKey] is not read).
    [QueryCommand] is the answer to a query whose items read fit that page.
    What it says of the items returned holds of every page; [one_page],
    below, is a bound under which a partition is read whole. *)
Definition QueryCommand (input : Query.input) (t : Table)
  : Result Query.output * Table :=
  let limit_ok :=
    match Query.Limit input with Some n => 1 <=? n | None => true end in
  let start_ok :=
    match Query.ExclusiveStartKey input with
    | Some k =>
        key_matches (Query.pk input) (Query.KeyConditionExpression input) (PK k, SK k)
    | None => true
    end in
  let bounds_ok :=
    match Query.KeyConditionExpression input with
    | BETWEEN lo hi => String.leb lo hi
    | _ => true
    end in
  if limit_ok && start_ok && bounds_ok then
    let ordered := scan input (notes t) in
    let resumed :=
      match Query.ExclusiveStartKey input with
      | Some k =>
          filter (fun e => after_start (Query.ScanIndexForward input) k e = true) ordered
      | None => ordered
      end in
    let read :=
      match Query.Limit input with
      | Some n => take (Z.to_nat n) resumed
      | None => resumed
      end in
    let kept :=
      filter (fun e => all_hold (Some e.2) (Query.FilterExpression input) = true) read in
    (Return {| Query.Items := kept.*2 |}, t)
  else (Throw (StoreError ValidationException), t).

(** *** The page of a query

    The store counts an item as the lengths of its attribute names and of
    their values, and ends the page of a query when the items read come to
    1 MB.  [item_bytes] is an upper bound of that count for a note item: the
    bytes of its strings, with 512 bytes for the attribute names, the version
    number and the structure of the item, 16 for the structure of a tag and
    128 for the names, the size and the structure of an attachment.  A
    partition within [one_page] is read whole by one query. *)
Definition string_bytes (s : string) : Z := Z.of_nat (String.length s).

Definition optional_bytes (o : option string) : Z :=
  match o with Some s => string_bytes s | None => 0 end.

Definition attachment_bytes (a : Attachment) : Z :=
  128 + string_bytes (id a) + string_bytes (fileName a) + string_bytes (contentType a)
  + string_bytes (s3Key a) + string_bytes (uploadedAt a).

Definition item_bytes (it : Item.t) : Z :=
  512
  + string_bytes (Item.PK it) + string_bytes (Item.SK it)
  + string_bytes (Item.noteId it) + string_bytes (Item.clinicId it)
  + string_bytes (Item.patientId it) + string_bytes (Item.studyDate it)
  + string_bytes (Item.title it) + string_bytes (Item.content it)
  + optional_bytes (Item.noteType it)
  + foldr (fun tag n => 16 + string_bytes tag + n) 0
      (match Item.tags it with Some tags => tags | None => [] end)
  + foldr (fun a n => attachment_bytes a + n) 0
      (match Item.attachments it with Some attachments => attachments | None => [] end)
  + string_bytes (Item.createdAt it) + string_bytes (Item.updatedAt it)
  + string_bytes (Item.createdBy it) + optional_bytes (Item.createdByName it)
  + string_bytes (Item.updatedBy it) + optional_bytes (Item.updatedByName it)
  + optional_bytes (Item.deletedAt it) + optional_bytes (Item.deletedBy it)
  + string_bytes (Item.entityType it)
  + optional_bytes (Item.GSI1PK it) + optional_bytes (Item.GSI1SK it).

Definition partition_bytes (t : Table) (pk : string) : Z :=
  foldr (fun e n => item_bytes e.2 + n) 0
    (filter (fun e => e.1.1 = pk) (map_to_list (notes t))).

Definition one_page (t : Table) (pk : string) : Prop :=
  partition_bytes t pk <= 1000000.

(** ** Note repository: src/data/notes.repository.ts *)

Module ListNotesOptions.
Record t := {
  cursor : option string;
  limit : Z;
  studyDateFrom : option string;
  studyDateTo : option string;
  tag : option string;
}.
End ListNotesOptions.

(** [a ?? b] *)
Definition nullish {A} (a : option A) (b : A) : A :=
  match a with Some x => x | None => b end.

Definition itemToNote (item : Item.t) : Note.t :=
  {| Note.noteId := Item.noteId item;
     Note.clinicId := Item.clinicId item;
     Note.patientId := Item.patientId item;
     Note.studyDate := Item.studyDate item;
     Note.title := Item.title item;
     Note.content := Item.content item;
     Note.noteType := Item.noteType item;
     Note.tags := Some (nullish (Item.tags item) []);
     Note.attachments := nullish (Item.attachments item) [];
     Note.createdAt := Item.createdAt item;
     Note.updatedAt := Item.updatedAt item;
     Note.createdBy := Item.createdBy item;
     Note.createdByName := nullish (Item.createdByName item) (Item.createdBy item);
     Note.updatedBy := Item.updatedBy item;
     Note.updatedByName := nullish (Item.updatedByName item) (Item.updatedBy item);
     Note.version := Item.version item;
     Note.deletedAt := Item.deletedAt item;
     Note.deletedBy := Item.deletedBy item |}.

(** [if (input.x !== undefined) updateExpressions.push(...)] *)
Definition push_if_defined {A} (x : option A) (clause : A -> Action)
    (updateExpressions : list Action) : list Action :=
  match x with
  | Some v => updateExpressions ++ [clause v]
  | None => updateExpressions
  end.

Definition version_conflict (expected current : Z) : string :=
  "Version conflict: expected " +:+ pretty expected
    +:+ ", current is " +:+ pretty current.

(** [uuidv4()] and [new Date().toISOString()] are read by the caller and
    passed in as [noteId] and [now]. *)
Module notesRepository.

(** The item [create] writes. *)
Definition create_item (noteId now : string)
    (clinicId patientId userId username : string) (input : CreateNoteInput.t)
  : Item.t :=
  {| Item.PK := buildPK clinicId patientId;
     Item.SK := buildSK (CreateNoteInput.studyDate input) noteId;
     Item.noteId := noteId;
     Item.clinicId := clinicId;
     Item.patientId := patientId;
     Item.studyDate := CreateNoteInput.studyDate input;
     Item.title := CreateNoteInput.title input;
     Item.content := CreateNoteInput.content input;
     Item.noteType := CreateNoteInput.noteType input;
     Item.tags := Some (nullish (CreateNoteInput.tags input) []);
     Item.attachments := Some (nullish (CreateNoteInput.attachments input) []);
     Item.createdAt := now;
     Item.updatedAt := now;
     Item.createdBy := userId;
     Item.createdByName := Some username;
     Item.updatedBy := userId;
     Item.updatedByName := Some username;
     Item.version := 1;
     Item.deletedAt := None;
     Item.deletedBy := None;
     Item.entityType := "NOTE";
     Item.GSI1PK := None;
     Item.GSI1SK := None |}.

Definition create (noteId now : string)
    (clinicId patientId userId username : string) (input : CreateNoteInput.t)
  : M Note.t :=
  let item := create_item noteId now clinicId patientId userId username input in
  docClient_send
    (PutCommand
       {| Put.Item := item;
          Put.ConditionExpression := [attribute_not_exists_PK] |});;
  logger.info "Note created";;
  mret (itemToNote item).

Definition findById (clinicId patientId noteId studyDate : string)
  : M (option Note.t) :=
  let pk := buildPK clinicId patientId in
  let sk := buildSK studyDate noteId in
  result ← docClient_send (GetCommand {| Get.Key := (pk, sk) |});
  match Get.Item result with
  | None => mret None
  | Some item =>
      if truthy_opt (Item.deletedAt item) then mret None
      else mret (Some (itemToNote item))
  end.

Definition findByIdWithoutStudyDate (clinicId patientId noteId : string)
  : M (option Note.t) :=
  let pk := buildPK clinicId patientId in
  result ← docClient_send
    (QueryCommand
       {| Query.pk := pk;
          Query.KeyConditionExpression := begins_with "NOTE#";
          Query.FilterExpression :=
            [noteId_equals noteId; attribute_not_exists_deletedAt];
          Query.Limit := None;
          Query.ExclusiveStartKey := None;
          Query.ScanIndexForward := true |});
  match Query.Items result with
  | [] => mret None
  | item :: _ => mret (Some (itemToNote item))
  end.

Definition update (now : string)
    (clinicId patientId noteId studyDate userId username : string)
    (input : UpdateNoteInput.t)
  : M Note.t :=
  let pk := buildPK clinicId patientId in
  let sk := buildSK studyDate noteId in
  let updateExpressions :=
    [SET_updatedAt now; SET_updatedBy userId; SET_updatedByName username;
     SET_version_plus 1] in
  let updateExpressions :=
    push_if_defined (UpdateNoteInput.title input) SET_title updateExpressions in
  let updateExpressions :=
    push_if_defined (UpdateNoteInput.content input) SET_content updateExpressions in
  let updateExpressions :=
    push_if_defined (UpdateNoteInput.attachments input) SET_attachments
      updateExpressions in
  try_catch
    (result ← docClient_send
       (UpdateCommand
          {| Update.Key := (pk, sk);
             Update.UpdateExpression := updateExpressions;
             Update.ConditionExpression :=
               [attribute_exists_PK; attribute_not_exists_deletedAt;
                version_equals (UpdateNoteInput.version input)];
             Update.ReturnValues := ALL_NEW |});
     match Update.Attributes result with
     | None => throw (NotFoundError "Note" noteId)
     | Some attributes =>
         logger.info "Note updated";;
         mret (itemToNote attributes)
     end)
    (fun err =>
       if String.eqb (exn_name err) ConditionalCheckFailedException then
         existing ← findById clinicId patientId noteId studyDate;
         match existing with
         | None => throw (NotFoundError "Note" noteId)
         | Some existing =>
             throw (ConflictError
                      (version_conflict (UpdateNoteInput.version input)
                         (Note.version existing)))
         end
       else throw err).

Definition softDelete (now : string)
    (clinicId patientId noteId studyDate userId : string)
  : M unit :=
  let pk := buildPK clinicId patientId in
  let sk := buildSK studyDate noteId in
  try_catch
    (docClient_send
       (UpdateCommand
          {| Update.Key := (pk, sk);
             Update.UpdateExpression := [SET_deletedAt now; SET_deletedBy userId];
             Update.ConditionExpression :=
               [attribute_exists_PK; attribute_not_exists_deletedAt];
             Update.ReturnValues := NONE |});;
     logger.info "Note soft deleted")
    (fun err =>
       if String.eqb (exn_name err) ConditionalCheckFailedException
       then throw (NotFoundError "Note" noteId)
       else throw err).

Definition hardDelete (clinicId patientId noteId studyDate : string) : M unit :=
  let pk := buildPK clinicId patientId in
  let sk := buildSK studyDate noteId in
  docClient_send (DeleteCommand {| Delete.Key := (pk, sk) |});;
  logger.info "Note hard deleted".

(** The key condition [list] builds from the study-date bounds; an empty
    string is falsy, like a missing bound. *)
Definition keyCondition (studyDateFrom studyDateTo : option string)
  : SortKeyCondition :=
  match truthy_opt studyDateFrom, truthy_opt studyDateTo with
  | true, true =>
      BETWEEN ("NOTE#" +:+ nullish studyDateFrom EmptyString)
              ("NOTE#" +:+ nullish studyDateTo EmptyString +:+ "~")
  | true, false => greater_or_equal ("NOTE#" +:+ nullish studyDateFrom EmptyString)
  | false, true => BETWEEN "NOTE#" ("NOTE#" +:+ nullish studyDateTo EmptyString +:+ "~")
  | false, false => begins_with "NOTE#"
  end.

(** The query [list] sends. *)
Definition listQuery (clinicId patientId : string) (options : ListNotesOptions.t)
  : Query.input :=
  let pk := buildPK clinicId patientId in
  let filterConditions := [attribute_not_exists_deletedAt] in
  let filterConditions :=
    match ListNotesOptions.tag options with
    | Some tag =>
        if truthy tag then filterConditions ++ [contains_tags tag]
        else filterConditions
    | None => filterConditions
    end in
  let exclusiveStartKey :=
    match ListNotesOptions.cursor options with
    | Some cursor => if truthy cursor then decodeCursor cursor else None
    | None => None
    end in
  {| Query.pk := pk;
     Query.KeyConditionExpression :=
       keyCondition (ListNotesOptions.studyDateFrom options)
         (ListNotesOptions.studyDateTo options);
     Query.FilterExpression := filterConditions;
     Query.Limit := Some (ListNotesOptions.limit options + 1);
     Query.ExclusiveStartKey := exclusiveStartKey;
     Query.ScanIndexForward := false |}.

(** What [list] makes of the items the query returned. *)
Definition page (limit : Z) (items : Datatypes.list Item.t)
  : PaginatedResponse.t Note.t :=
  let hasMore := limit <? Z.of_nat (length items) in
  let items := if hasMore then removelast items else items in
  let nextCursor :=
    if hasMore && (0 <? Z.of_nat (length items)) then
      match last items with
      | Some lastItem =>
          Some (encodeCursor {| PK := Item.PK lastItem; SK := Item.SK lastItem |})
      | None => None
      end
    else None in
  {| PaginatedResponse.items := itemToNote <$> items;
     PaginatedResponse.nextCursor := nextCursor;
     PaginatedResponse.hasMore := hasMore |}.

Definition list (clinicId patientId : string) (options : ListNotesOptions.t)
  : M (PaginatedResponse.t Note.t) :=
  result ← docClient_send (QueryCommand (listQuery clinicId patientId options));
  mret (page (ListNotesOptions.limit options) (Query.Items result)).

End notesRepository.

(** ** Rate limiter: src/lib/rate-limit-config.ts, src/lib/rate-limiter.ts *)

Module RateLimitConfig.
Record t := {
  maxRequests : Z;
  windowSeconds : Z;
  name : string;
}.
End RateLimitConfig.

Module RATE_LIMITS.
Definition login : RateLimitConfig.t :=
  {| RateLimitConfig.maxRequests := 10;
     RateLimitConfig.windowSeconds := 60;
     RateLimitConfig.name := "login" |}.
Definition createNote : RateLimitConfig.t :=
  {| RateLimitConfig.maxRequests := 60;
     RateLimitConfig.windowSeconds := 60;
     RateLimitConfig.name := "createNote" |}.
End RATE_LIMITS.

Module RateLimitResult.
Record t := {
  allowed : bool;
  current : Z;
  limit : Z;
  retryAfter : Z;
}.
End RateLimitResult.

(** The rate limiter's update: [SET #count = if_not_exists(#count, :zero) +
    :inc, #ttl = :ttl] with [ReturnValues: 'UPDATED_NEW'].  It has no
    condition and creates the record when there is none. *)
Module Increment.
Record input := {
  Key : Key;
  zero : Z;
  inc : Z;
  ttl : Z;
}.
Record output := { Attributes : option Window.t }.
End Increment.

Definition IncrementCommand (input : Increment.input) (t : Table)
  : Result Increment.output * Table :=
  let key := Increment.Key input in
  let before :=
    match windows t !! key with
    | Some w => Window.count w
    | None => Increment.zero input
    end in
  let new :=
    {| Window.count := before + Increment.inc input;
       Window.ttl := Increment.ttl input |} in
  (Return {| Increment.Attributes := Some new |},
   with_windows t (<[key := new]> (windows t))).

(** The rate limiter's read, with [ProjectionExpression: '#count']. *)
Module GetCount.
Record input := { Key : Key }.
Record output := { Item : option Window.t }.
End GetCount.

Definition GetCountCommand (input : GetCount.input) (t : Table)
  : Result GetCount.output * Table :=
  (Return {| GetCount.Item := windows t !! GetCount.Key input |}, t).

(** [Date.now()] is in milliseconds.  Each function below takes the clock
    readings it makes, in the order it makes them.  [Math.floor] of the
    quotients is integer division: the readings and the window are whole and
    positive. *)
Module rateLimiter.

Definition buildRateLimitPK (identifier configName : string) : string :=
  "RATELIMIT#" +:+ configName +:+ "#" +:+ identifier.

(** [Math.floor(Date.now() / 1000 / windowSeconds) * windowSeconds] for a
    positive window, where flooring the seconds first gives the same; with a
    window of 0 the code computes [NaN], and with a negative one another
    floor: both are outside this model. *)
Definition floorWindow (now windowSeconds : Z) : Z :=
  now / 1000 / windowSeconds * windowSeconds.

Definition buildRateLimitSK (now : Z) (windowSeconds : Z) : string :=
  let windowStart := floorWindow now windowSeconds in
  "WINDOW#" +:+ pretty windowStart.

Definition checkRateLimit (now1 now2 now3 : Z)
    (identifier : string) (config : RateLimitConfig.t)
  : M RateLimitResult.t :=
  let pk := buildRateLimitPK identifier (RateLimitConfig.name config) in
  let sk := buildRateLimitSK now1 (RateLimitConfig.windowSeconds config) in
  try_catch
    (result ← docClient_send (GetCountCommand {| GetCount.Key := (pk, sk) |});
     let current := nullish (Window.count <$> GetCount.Item result) 0 in
     let windowStart := floorWindow now2 (RateLimitConfig.windowSeconds config) in
     let windowEnd := windowStart + RateLimitConfig.windowSeconds config in
     let retryAfter := Z.max 1 (windowEnd - now3 / 1000) in
     mret {| RateLimitResult.allowed := current <? RateLimitConfig.maxRequests config;
             RateLimitResult.current := current;
             RateLimitResult.limit := RateLimitConfig.maxRequests config;
             RateLimitResult.retryAfter := retryAfter |})
    (fun error =>
       logger.warn "Rate limit check failed, allowing request (fail-open)";;
       mret {| RateLimitResult.allowed := true;
               RateLimitResult.current := 0;
               RateLimitResult.limit := RateLimitConfig.maxRequests config;
               RateLimitResult.retryAfter := RateLimitConfig.windowSeconds config |}).

Definition incrementRateLimit (now1 now2 now3 : Z)
    (identifier : string) (config : RateLimitConfig.t)
  : M RateLimitResult.t :=
  let pk := buildRateLimitPK identifier (RateLimitConfig.name config) in
  let sk := buildRateLimitSK now1 (RateLimitConfig.windowSeconds config) in
  let windowStart := floorWindow now2 (RateLimitConfig.windowSeconds config) in
  let ttl := windowStart + RateLimitConfig.windowSeconds config + 60 in
  try_catch
    (result ← docClient_send
       (IncrementCommand
          {| Increment.Key := (pk, sk);
             Increment.zero := 0;
             Increment.inc := 1;
             Increment.ttl := ttl |});
     let current := nullish (Window.count <$> Increment.Attributes result) 1 in
     let windowEnd := windowStart + RateLimitConfig.windowSeconds config in
     let retryAfter := Z.max 1 (windowEnd - now3 / 1000) in
     mret {| RateLimitResult.allowed := current <=? RateLimitConfig.maxRequests config;
             RateLimitResult.current := current;
             RateLimitResult.limit := RateLimitConfig.maxRequests config;
             RateLimitResult.retryAfter := retryAfter |})
    (fun error =>
       logger.warn "Rate limit increment failed, allowing request (fail-open)";;
       mret {| RateLimitResult.allowed := true;
               RateLimitResult.current := 0;
               RateLimitResult.limit := RateLimitConfig.maxRequests config;
               RateLimitResult.retryAfter := RateLimitConfig.windowSeconds config |}).

Definition enforceRateLimit (now1 now2 now3 : Z)
    (identifier : string) (config : RateLimitConfig.t)
  : M unit :=
  result ← incrementRateLimit now1 now2 now3 identifier config;
  if negb (RateLimitResult.allowed result) then
    logger.warn "Rate limit exceeded";;
    throw (TooManyRequestsError
             ("Rate limit exceeded for " +:+ RateLimitConfig.name config
                +:+ ". Please try again later.")
             (RateLimitResult.retryAfter result))
  else logger.debug "Rate limit check passed".

End rateLimiter.

(** Running a call in a world. *)
Definition run {A} (m : M A) (w : World) : Result A * World := m w.

Definition world (t : Table) (script : list (option string)) : World :=
  {| table := t; logs := []; faults := script |}.

(** The store answers the next call. *)
Definition store_up (w : World) : Prop :=
  match faults w with
  | Some _ :: _ => False
  | _ => True
  end.

(** The world after an answered call that left table [t]. *)
Definition answered (w : World) (t : Table) : World :=
  {| table := t; logs := logs w; faults := tail (faults w) |}.

(** The world after a call the client failed. *)
Definition failed (w : World) : World :=
  {| table := table w; logs := logs w; faults := tail (faults w) |}.

Definition logged (w : World) (level : LogLevel.t) (message : string) : World :=
  {| table := table w; logs := logs w ++ [(level, message)]; faults := faults w |}.

(** What [softDelete] makes of an item. *)
Definition tombstone (it : Item.t) (now userId : string) : Item.t :=
  {| Item.PK := Item.PK it;
     Item.SK := Item.SK it;
     Item.noteId := Item.noteId it;
     Item.clinicId := Item.clinicId it;
     Item.patientId := Item.patientId it;
     Item.studyDate := Item.studyDate it;
     Item.title := Item.title it;
     Item.content := Item.content it;
     Item.noteType := Item.noteType it;
     Item.tags := Item.tags it;
     Item.attachments := Item.attachments it;
     Item.createdAt := Item.createdAt it;
     Item.updatedAt := Item.updatedAt it;
     Item.createdBy := Item.createdBy it;
     Item.createdByName := Item.createdByName it;
     Item.updatedBy := Item.updatedBy it;
     Item.updatedByName := Item.updatedByName it;
     Item.version := Item.version it;
     Item.deletedAt := Some now;
     Item.deletedBy := Some userId;
     Item.entityType := Item.entityType it;
     Item.GSI1PK := Item.GSI1PK it;
     Item.GSI1SK := Item.GSI1SK it |}.

(** What a successful [update] makes of an item. *)
Definition revised (it : Item.t) (now userId username : string)
    (input : UpdateNoteInput.t) : Item.t :=
  {| Item.PK := Item.PK it;
     Item.SK := Item.SK it;
     Item.noteId := Item.noteId it;
     Item.clinicId := Item.clinicId it;
     Item.patientId := Item.patientId it;
     Item.studyDate := Item.studyDate it;
     Item.title := nullish (UpdateNoteInput.title input) (Item.title it);
     Item.content := nullish (UpdateNoteInput.content input) (Item.content it);
     Item.noteType := Item.noteType it;
     Item.tags := Item.tags it;
     Item.attachments :=
       match UpdateNoteInput.attachments input with
       | Some a => Some a
       | None => Item.attachments it
       end;
     Item.createdAt := Item.createdAt it;
     Item.updatedAt := now;
     Item.createdBy := Item.createdBy it;
     Item.createdByName := Item.createdByName it;
     Item.updatedBy := userId;
     Item.updatedByName := Some username;
     Item.version := Item.version it + 1;
     Item.deletedAt := Item.deletedAt it;
     Item.deletedBy := Item.deletedBy it;
     Item.entityType := Item.entityType it;
     Item.GSI1PK := Item.GSI1PK it;
     Item.GSI1SK := Item.GSI1SK it |}.

(** The tables the repository writes: every note item sits under the key
    built from its own identifiers, and a deletion stamp is a time stamp, never
    the empty string. *)
Definition consistent (t : Table) : Prop :=
  forall key it,
    notes t !! key = Some it ->
    key = (Item.PK it, Item.SK it)
    /\ Item.PK it = buildPK (Item.clinicId it) (Item.patientId it)
    /\ Item.SK it = buildSK (Item.studyDate it) (Item.noteId it)
    /\ Item.deletedAt it <> Some EmptyString.

(** The condition of [update] against the item under the key. *)
Definition update_condition (o : option Item.t) (expectedVersion : Z) : bool :=
  all_hold o
    [attribute_exists_PK; attribute_not_exists_deletedAt; version_equals expectedVersion].

(** One call of [update] on a given note. *)
Module Attempt.
Record t := {
  now : string;
  userId : string;
  username : string;
  input : UpdateNoteInput.t;
}.
End Attempt.

(** A series of calls of [update] on one note, successful or not: how many
    succeeded, and the world they leave. *)
Fixpoint update_series (clinicId patientId noteId studyDate : string)
    (attempts : list Attempt.t) (w : World) : nat * World :=
  match attempts with
  | [] => (O, w)
  | a :: rest =>
      match
        run (notesRepository.update (Attempt.now a) clinicId patientId noteId
               studyDate (Attempt.userId a) (Attempt.username a) (Attempt.input a)) w
      with
      | (Return _, w') =>
          let '(n, w'') := update_series clinicId patientId noteId studyDate rest w' in
          (S n, w'')
      | (Throw _, w') => update_series clinicId patientId noteId studyDate rest w'
      end
  end.

(** ** Sample data, after the repository's tests *)

Definition sample_input : CreateNoteInput.t :=
  {| CreateNoteInput.studyDate := "2024-01-15";
     CreateNoteInput.title := "Original Title";
     CreateNoteInput.content := "Original content";
     CreateNoteInput.noteType := Some "clinical";
     CreateNoteInput.tags := Some ["sleep"; "apnea"];
     CreateNoteInput.attachments := None |}.

Definition sample_item : Item.t :=
  notesRepository.create_item "note-id" "2024-01-15T10:00:00.000Z"
    "clinic-abc" "patient-123" "user-123" "dr-smith" sample_input.

(** The world after the sample note was created in an empty table. *)
Definition sample_world : World :=
  (run (notesRepository.create "note-id" "2024-01-15T10:00:00.000Z"
          "clinic-abc" "patient-123" "user-123" "dr-smith" sample_input)
       (world empty_table [])).2.

Definition sample_key : Key :=
  (buildPK "clinic-abc" "patient-123", buildSK "2024-01-15" "note-id").

Definition only_title (title : string) (version : Z) : UpdateNoteInput.t :=
  {| UpdateNoteInput.title := Some title;
     UpdateNoteInput.content := None;
     UpdateNoteInput.noteType := None;
     UpdateNoteInput.tags := None;
     UpdateNoteInput.attachments := None;
     UpdateNoteInput.version := version |}.

(** An update that sends tags and a note type, and nothing else. *)
Definition retag_input : UpdateNoteInput.t :=
  {| UpdateNoteInput.title := None;
     UpdateNoteInput.content := None;
     UpdateNoteInput.noteType := Some "follow-up";
     UpdateNoteInput.tags := Some ["urgent"];
     UpdateNoteInput.attachments := None;
     UpdateNoteInput.version := 1 |}.

(** The identifier holds no [#], the separator of the key scheme. *)
Fixpoint hash_free (s : string) : bool :=
  match s with
  | EmptyString => true
  | String c r => negb (code c =? 35)%N && hash_free r
  end.

(** The entries a query kept, before their keys are dropped. *)
Definition items_descending (items : list Item.t) : Prop :=
  StronglySorted (fun a b => String.le (Item.SK b) (Item.SK a)) items.

Definition list_options (cursor : option string) (limit : Z) : ListNotesOptions.t :=
  {| ListNotesOptions.cursor := cursor;
     ListNotesOptions.limit := limit;
     ListNotesOptions.studyDateFrom := None;
     ListNotesOptions.studyDateTo := None;
     ListNotesOptions.tag := None |}.

(** The sample note, soft-deleted. *)
Definition deleted_world : World :=
  (run (notesRepository.softDelete "2024-01-17T09:00:00.000Z" "clinic-abc"
          "patient-123" "note-id" "2024-01-15" "user-456") sample_world).2.

(** A clinic [clinic-1] with a patient whose identifier holds the separator
    of the key scheme, and one note of that patient. *)
Definition colliding_world : World :=
  (run (notesRepository.create "note-id" "2024-01-15T10:00:00.000Z"
          "clinic-1" "p#PATIENT#x" "user-123" "dr-smith" sample_input)
       (world empty_table [])).2.

(** Calls of [incrementRateLimit] one after the other, one per clock reading
    of [times]: their results and the world they leave. *)
Fixpoint increment_series (identifier : string) (config : RateLimitConfig.t)
    (times : list Z) (w : World) : list (Result RateLimitResult.t) * World :=
  match times with
  | [] => ([], w)
  | now :: rest =>
      let '(r, w') :=
        run (rateLimiter.incrementRateLimit now now now identifier config) w in
      let '(rs, w'') := increment_series identifier config rest w' in
      (r :: rs, w'')
  end.

(** The key of the counter of the window that holds [now]. *)
Definition window_key (identifier : string) (config : RateLimitConfig.t) (now : Z) : Key :=
  (rateLimiter.buildRateLimitPK identifier (RateLimitConfig.name config),
   rateLimiter.buildRateLimitSK now (RateLimitConfig.windowSeconds config)).

(** The counter under a key, 0 when there is none. *)
Definition counter (t : Table) (key : Key) : Z :=
  match windows t !! key with
  | Some record => Window.count record
  | None => 0
  end.

(** Eleven clock readings, one second apart, in the window that starts at
    1699999980, and one reading in the window after it. *)
Definition eleven_readings : list Z :=
  (fun k => 1700000000000 + 1000 * k) <$> seqZ 0 11.

Definition next_window_reading : Z := 1700000040000.

(** A world whose store fails the next call. *)
Definition failing_world : World :=
  {| table := table sample_world;
     logs := [];
     faults := [Some "ProvisionedThroughputExceededException"] |}.

(** Five notes of one patient, one per day, as the repository's pagination
    test creates them. *)
Definition note_input (studyDate title : string) : CreateNoteInput.t :=
  {| CreateNoteInput.studyDate := studyDate;
     CreateNoteInput.title := title;
     CreateNoteInput.content := "Content";
     CreateNoteInput.noteType := None;
     CreateNoteInput.tags := None;
     CreateNoteInput.attachments := None |}.

Definition day_note (noteId studyDate title : string) : Item.t :=
  notesRepository.create_item noteId "2024-02-01T08:00:00.000Z"
    "clinic-abc" "patient-123" "user-123" "dr-smith" (note_input studyDate title).

Definition add_day_note (noteId studyDate title : string) (w : World) : World :=
  (run (notesRepository.create noteId "2024-02-01T08:00:00.000Z"
          "clinic-abc" "patient-123" "user-123" "dr-smith"
          (note_input studyDate title)) w).2.

Definition five_notes_world : World :=
  add_day_note "n5" "2024-01-05" "Note 5"
    (add_day_note "n4" "2024-01-04" "Note 4"
       (add_day_note "n3" "2024-01-03" "Note 3"
          (add_day_note "n2" "2024-01-02" "Note 2"
             (add_day_note "n1" "2024-01-01" "Note 1" (world empty_table []))))).

Definition cursor_of (it : Item.t) : string :=
  encodeCursor {| PK := Item.PK it; SK := Item.SK it |}.

(** The entries [list] pages through when no date bound is given: the items of
    the patient's partition whose sort key starts with [NOTE#], by descending
    sort key. *)
Definition patient_entries (clinicId patientId : string) (t : Table)
  : list (Key * Item.t) :=
  scan (notesRepository.listQuery clinicId patientId (list_options None 1)) (notes t).

(** What the filter of [list] keeps of the entries read, when no tag is
    given. *)
Definition live_items (entries : list (Key * Item.t)) : list Item.t :=
  (filter (fun e => all_hold (Some e.2) [attribute_not_exists_deletedAt] = true)
     entries).*2.

(** A live note with well-formed keys. *)
Definition live_entry (e : Key * Item.t) : Prop :=
  Item.deletedAt e.2 = None /\ utf8_valid (Item.PK e.2) /\ utf8_valid (Item.SK e.2).

Definition day_entry (noteId studyDate title : string) : Key * Item.t :=
  let it := day_note noteId studyDate title in
  ((Item.PK it, Item.SK it), it).

(** A sextet: a byte below 64. *)
Definition is_sextet (s : ascii) : Prop :=
  match s with Ascii _ _ _ _ _ _ b6 b7 => b6 = false /\ b7 = false end.

(** What [parse_chars] reads a byte back as, after [escape_char] wrote it: a
    control character without a short escape comes back as the code unit of
    its [\u] escape, every other byte as itself. *)
Definition unit_of (c : ascii) : ascii + N :=
  let n := code c in
  if ((n =? 8) || (n =? 9) || (n =? 10) || (n =? 12) || (n =? 13))%N then inl c
  else if (n <? 32)%N then inr n
  else inl c.

Fixpoint units_of (s : string) : list (ascii + N) :=
  match s with
  | EmptyString => []
  | String c r => unit_of c :: units_of r
  end.

(** The key pair of the cursor tests. *)
Definition sample_cursor_key : CursorData :=
  {| PK := "CLINIC#clinic-abc#PATIENT#patient-123";
     SK := "NOTE#2024-01-15#note-id-123" |}.

(** The cursor of [sample_cursor_key] with one character changed: the [M] of
    its last group is an [N]. *)
Definition tampered_cursor : string :=
  "eyJQSyI6IkNMSU5JQyNjbGluaWMtYWJjI1BBVElFTlQjcGF0aWVudC0xMjMiLCJTSyI6Ik5PVEUjMjAyNC0wMS0xNSNub3RlLWlkLTEyNyJ9".

(** * Further code of the repository and its callers *)

(** ** Histories of repository calls *)

(** A call of the note repository, with the identifier and the clock reading
    it draws. *)
Inductive Call :=
  | CallCreate (noteId now clinicId patientId userId username : string)
      (input : CreateNoteInput.t)
  | CallFindById (clinicId patientId noteId studyDate : string)
  | CallFindByIdWithoutStudyDate (clinicId patientId noteId : string)
  | CallList (clinicId patientId : string) (options : ListNotesOptions.t)
  | CallUpdate (now clinicId patientId noteId studyDate userId username : string)
      (input : UpdateNoteInput.t)
  | CallSoftDelete (now clinicId patientId noteId studyDate userId : string)
  | CallHardDelete (clinicId patientId noteId studyDate : string).

(** The world a call leaves, whether it returns or throws. *)
Definition after_call (c : Call) (w : World) : World :=
  match c with
  | CallCreate noteId now clinicId patientId userId username input =>
      (run (notesRepository.create noteId now clinicId patientId userId username input) w).2
  | CallFindById clinicId patientId noteId studyDate =>
      (run (notesRepository.findById clinicId patientId noteId studyDate) w).2
  | CallFindByIdWithoutStudyDate clinicId patientId noteId =>
      (run (notesRepository.findByIdWithoutStudyDate clinicId patientId noteId) w).2
  | CallList clinicId patientId options =>
      (run (notesRepository.list clinicId patientId options) w).2
  | CallUpdate now clinicId patientId noteId studyDate userId username input =>
      (run (notesRepository.update now clinicId patientId noteId studyDate
              userId username input) w).2
  | CallSoftDelete now clinicId patientId noteId studyDate userId =>
      (run (notesRepository.softDelete now clinicId patientId noteId studyDate userId) w).2
  | CallHardDelete clinicId patientId noteId studyDate =>
      (run (notesRepository.hardDelete clinicId patientId noteId studyDate) w).2
  end.

Definition after_calls (calls : list Call) (w : World) : World :=
  fold_left (fun w c => after_call c w) calls w.

(** [new Date().toISOString()] is never the empty string. *)
Definition clock_read (c : Call) : Prop :=
  match c with
  | CallSoftDelete now _ _ _ _ _ => now <> EmptyString
  | _ => True
  end.

(** What holds of every note item the repository has written. *)
Definition well_kept (it : Item.t) : Prop :=
  Item.PK it = buildPK (Item.clinicId it) (Item.patientId it)
  /\ Item.SK it = buildSK (Item.studyDate it) (Item.noteId it)
  /\ 1 <= Item.version it
  /\ Item.entityType it = "NOTE"
  /\ is_Some (Item.tags it)
  /\ is_Some (Item.attachments it)
  /\ Item.deletedAt it <> Some EmptyString
  /\ (Item.deletedAt it = None <-> Item.deletedBy it = None).

Definition all_well_kept (t : Table) : Prop :=
  forall key it,
    notes t !! key = Some it -> key = (Item.PK it, Item.SK it) /\ well_kept it.

Definition sample_calls : list Call :=
  [CallCreate "note-id" "2024-01-15T10:00:00.000Z" "clinic-abc" "patient-123"
     "user-123" "dr-smith" sample_input;
   CallUpdate "2024-01-16T10:00:00.000Z" "clinic-abc" "patient-123" "note-id"
     "2024-01-15" "user-456" "Dr. Test" (only_title "Updated" 1);
   CallSoftDelete "2024-01-17T09:00:00.000Z" "clinic-abc" "patient-123" "note-id"
     "2024-01-15" "user-456"].

(** ** Paging *)

(** The page [list] returns when [rest] are the entries still to be listed,
    all of them live: the first [limit] of them, with the cursor of the last
    one when more remain. *)
Definition page_of (limit : Z) (rest : list (Key * Item.t))
  : PaginatedResponse.t Note.t :=
  let shown := (take (Z.to_nat limit) rest).*2 in
  let more := limit <? Z.of_nat (length rest) in
  {| PaginatedResponse.items := itemToNote <$> shown;
     PaginatedResponse.nextCursor := if more then cursor_of <$> last shown else None;
     PaginatedResponse.hasMore := more |}.

(** A caller that follows the cursors from a given one on, as the clients of
    the listing do: the pages it is given, in order; [None] when a call throws
    or [fuel] calls were not enough. *)
Fixpoint follow_cursors (fuel : nat) (clinicId patientId : string) (limit : Z)
    (cursor : option string) (w : World) : option (list (list Note.t)) :=
  match fuel with
  | O => None
  | S fuel =>
      match run (notesRepository.list clinicId patientId (list_options cursor limit)) w with
      | (Return page, w') =>
          match PaginatedResponse.nextCursor page with
          | Some next =>
              cons (PaginatedResponse.items page)
                <$> follow_cursors fuel clinicId patientId limit (Some next) w'
          | None => Some [PaginatedResponse.items page]
          end
      | (Throw _, _) => None
      end
  end.

(** The five notes, the second most recent of them soft-deleted. *)
Definition five_notes_one_deleted : World :=
  (run (notesRepository.softDelete "2024-02-02T08:00:00.000Z" "clinic-abc"
          "patient-123" "n4" "2024-01-04" "user-123") five_notes_world).2.

(** ** Rate limiter, continued: src/lib/rate-limiter.ts *)

Definition enforceRateLimitByIp (now1 now2 now3 : Z)
    (sourceIp : option string) (config : RateLimitConfig.t) : M unit :=
  let identifier := nullish sourceIp "unknown" in
  rateLimiter.enforceRateLimit now1 now2 now3 ("IP#" +:+ identifier) config.

(** A world in which the login counter of one address stands at ten. *)
Definition ten_logins : World :=
  (increment_series "IP#203.0.113.7" RATE_LIMITS.login (take 10 eleven_readings)
     (world empty_table [])).2.

(** ** Key scheme, continued: src/data/keys.ts *)

(** [s.split(sep)] for a separator of one ASCII character: the pieces between
    the separators, empty ones included; one piece, the string itself, when
    the separator does not occur. *)
Fixpoint split (sep : ascii) (s : string) : list string :=
  match s with
  | EmptyString => [EmptyString]
  | String c r =>
      if Ascii.eqb c sep then EmptyString :: split sep r
      else
        match split sep r with
        | part :: parts => String c part :: parts
        | [] => [String c EmptyString]
        end
  end.

(** [new Error(message)] *)
Inductive PlainError := Error (message : string).

Module ParsedSK.
Record t := { studyDate : string; noteId : string }.
End ParsedSK.

Definition parseSK (sk : string) : PlainError + ParsedSK.t :=
  let parts := split "#"%char sk in
  if negb (length parts =? 3)%nat || negb (bool_decide (parts !! 0%nat = Some "NOTE"))
  then inl (Error ("Invalid SK format: " +:+ sk))
  else inr {| ParsedSK.studyDate := nullish (parts !! 1%nat) EmptyString;
              ParsedSK.noteId := nullish (parts !! 2%nat) EmptyString |}.

Module ParsedPK.
Record t := { clinicId : string; patientId : string }.
End ParsedPK.

Definition parsePK (pk : string) : PlainError + ParsedPK.t :=
  let parts := split "#"%char pk in
  if negb (length parts =? 4)%nat
     || negb (bool_decide (parts !! 0%nat = Some "CLINIC"))
     || negb (bool_decide (parts !! 2%nat = Some "PATIENT"))
  then inl (Error ("Invalid PK format: " +:+ pk))
  else inr {| ParsedPK.clinicId := nullish (parts !! 1%nat) EmptyString;
              ParsedPK.patientId := nullish (parts !! 3%nat) EmptyString |}.

(** The character class [[a-zA-Z0-9._-]]. *)
Definition is_safe (c : ascii) : bool :=
  let n := code c in
  ((97 <=? n) && (n <=? 122) || (65 <=? n) && (n <=? 90) || (48 <=? n) && (n <=? 57)
   || (n =? 46) || (n =? 95) || (n =? 45))%N.

(** [fileName.replace(/[^a-zA-Z0-9._-]/g, '_')] replaces each UTF-16 code unit
    outside the class.  On the UTF-8 bytes of the name: an ASCII byte is one
    code unit; a character of two or three bytes is one code unit, written
    for its lead byte; a character of four bytes is a surrogate pair, two code
    units; continuation bytes belong to a character already written. *)
Definition sanitize_byte (c : ascii) : string :=
  let n := code c in
  if (n <? 128)%N then (if is_safe c then String c EmptyString else "_")
  else if (n <? 192)%N then EmptyString
  else if (n <? 240)%N then "_"
  else "__".

Fixpoint sanitize (fileName : string) : string :=
  match fileName with
  | EmptyString => EmptyString
  | String c r => sanitize_byte c +:+ sanitize r
  end.

Definition buildS3Key (clinicId patientId noteId attachmentId fileName : string)
  : string :=
  let sanitizedFileName := sanitize fileName in
  "clinic/" +:+ clinicId +:+ "/patient/" +:+ patientId +:+ "/note/" +:+ noteId
    +:+ "/" +:+ attachmentId +:+ "/" +:+ sanitizedFileName.

Definition buildClinicPK (clinicId : string) : string := "CLINIC#" +:+ clinicId.
Definition buildClinicSK : string := "METADATA".
Definition buildPatientPK (clinicId patientId : string) : string :=
  "CLINIC#" +:+ clinicId +:+ "#PATIENT#" +:+ patientId.
Definition buildPatientSK : string := "METADATA".
Definition buildUserPK (clinicId userId : string) : string :=
  "CLINIC#" +:+ clinicId +:+ "#USER#" +:+ userId.
Definition buildUserSK : string := "METADATA".

(** The pieces joined with [#] again. *)
Fixpoint join_hash (parts : list string) : string :=
  match parts with
  | [] => EmptyString
  | [part] => part
  | part :: rest => part +:+ "#" +:+ join_hash rest
  end.

(** ** Scopes and claims: src/types/auth.ts *)

Module Scope.
Inductive t := NOTES_READ | NOTES_WRITE | NOTES_DELETE | ATTACHMENTS_WRITE.

(** The string of an enum member. *)
Definition value (s : t) : string :=
  match s with
  | NOTES_READ => "notes:read"
  | NOTES_WRITE => "notes:write"
  | NOTES_DELETE => "notes:delete"
  | ATTACHMENTS_WRITE => "attachments:write"
  end.

(** [Object.values(Scope)] *)
Definition values : list t := [NOTES_READ; NOTES_WRITE; NOTES_DELETE; ATTACHMENTS_WRITE].
End Scope.

#[global] Instance Scope_eq_dec : EqDecision Scope.t.
Proof. solve_decision. Defined.

Module JWTClaims.
Record t := {
  sub : string;
  cognito_username : option string;
  cognito_groups : option (list string);
  custom_clinicId : option string;
  scope : option string;
  iss : string;
  aud : string;
  exp : Z;
  iat : Z;
}.
End JWTClaims.

Module AuthContext.
Record t := {
  userId : string;
  username : string;
  clinicId : string;
  scopes : list Scope.t;
  rawClaims : JWTClaims.t;
}.
End AuthContext.

(** ** Errors of the callers: src/lib/errors.ts

    The errors the layers above the repository throw, beside those that come
    up from below. *)
Inductive AppError :=
  | Below (e : Exn)
  | ValidationError (message : string)
  | ForbiddenError (message : string)
  | UnauthorizedError (message : string).

Inductive Outcome (A : Type) :=
  | Done (a : A)
  | Fail (e : AppError).
Arguments Done {A} a.
Arguments Fail {A} e.

(** ** Patients: src/data/patients.repository.ts *)

Module Patient.
Record t := {
  patientId : string;
  clinicId : string;
  firstName : option string;
  lastName : option string;
  dateOfBirth : option string;
  gender : option string;
  email : option string;
  phone : option string;
  address : option string;
  insuranceProvider : option string;
  insuranceId : option string;
  createdAt : string;
  updatedAt : string;
  status : string;
}.
End Patient.

(** The argument of [create]: a patient without its time stamps. *)
Module NewPatient.
Record t := {
  patientId : string;
  clinicId : string;
  firstName : option string;
  lastName : option string;
  dateOfBirth : option string;
  gender : option string;
  email : option string;
  phone : option string;
  address : option string;
  insuranceProvider : option string;
  insuranceId : option string;
  status : string;
}.
End NewPatient.

Module PatientItem.
Record t := {
  PK : string;
  SK : string;
  patientId : string;
  clinicId : string;
  firstName : option string;
  lastName : option string;
  dateOfBirth : option string;
  gender : option string;
  email : option string;
  phone : option string;
  address : option string;
  insuranceProvider : option string;
  insuranceId : option string;
  createdAt : string;
  updatedAt : string;
  status : string;
  entityType : string;
  GSI1PK : option string;
  GSI1SK : option string;
}.
End PatientItem.

(** The state the callers run in: the world of the note repository, and the
    patient records of the same table.  A patient record has the sort key
    [METADATA] and a note a sort key that starts with [NOTE#], so the two
    families of items never share a key. *)
Record Store := {
  below : World;
  patients : gmap Key PatientItem.t;
}.

Definition App (A : Type) : Type := Store -> Outcome A * Store.

Definition app_ret {A} (a : A) : App A := fun s => (Done a, s).

Definition fail {A} (e : AppError) : App A := fun s => (Fail e, s).

Definition app_bind {A B} (m : App A) (k : A -> App B) : App B :=
  fun s =>
    match m s with
    | (Done a, s') => k a s'
    | (Fail e, s') => (Fail e, s')
    end.

#[global] Instance App_ret : MRet App := @app_ret.
#[global] Instance App_bind : MBind App := fun A B k m => app_bind m k.

(** A call into the layers below: its effect is on their world, and what it
    throws comes up. *)
Definition lift {A} (m : M A) : App A :=
  fun s =>
    match m (below s) with
    | (Return a, w) => (Done a, {| below := w; patients := patients s |})
    | (Throw e, w) => (Fail (Below e), {| below := w; patients := patients s |})
    end.

(** [docClient.send(command)] for a command on patient records: it consumes
    the head of the same script of failures. *)
Definition docClient_send_patients {A}
    (command : gmap Key PatientItem.t -> Result A * gmap Key PatientItem.t) : App A :=
  fun s =>
    let w := below s in
    match faults w with
    | Some name :: script =>
        (Fail (Below (StoreError name)),
         {| below := {| table := table w; logs := logs w; faults := script |};
            patients := patients s |})
    | _ =>
        let '(r, m) := command (patients s) in
        (match r with Return a => Done a | Throw e => Fail (Below e) end,
         {| below := {| table := table w; logs := logs w; faults := tail (faults w) |};
            patients := m |})
    end.

Module patientsRepository.

Definition toPatient (item : PatientItem.t) : Patient.t :=
  {| Patient.patientId := PatientItem.patientId item;
     Patient.clinicId := PatientItem.clinicId item;
     Patient.firstName := PatientItem.firstName item;
     Patient.lastName := PatientItem.lastName item;
     Patient.dateOfBirth := PatientItem.dateOfBirth item;
     Patient.gender := PatientItem.gender item;
     Patient.email := PatientItem.email item;
     Patient.phone := PatientItem.phone item;
     Patient.address := PatientItem.address item;
     Patient.insuranceProvider := PatientItem.insuranceProvider item;
     Patient.insuranceId := PatientItem.insuranceId item;
     Patient.createdAt := PatientItem.createdAt item;
     Patient.updatedAt := PatientItem.updatedAt item;
     Patient.status := PatientItem.status item |}.

Definition create_item (now : string) (patient : NewPatient.t) : PatientItem.t :=
  {| PatientItem.PK :=
       buildPatientPK (NewPatient.clinicId patient) (NewPatient.patientId patient);
     PatientItem.SK := buildPatientSK;
     PatientItem.patientId := NewPatient.patientId patient;
     PatientItem.clinicId := NewPatient.clinicId patient;
     PatientItem.firstName := NewPatient.firstName patient;
     PatientItem.lastName := NewPatient.lastName patient;
     PatientItem.dateOfBirth := NewPatient.dateOfBirth patient;
     PatientItem.gender := NewPatient.gender patient;
     PatientItem.email := NewPatient.email patient;
     PatientItem.phone := NewPatient.phone patient;
     PatientItem.address := NewPatient.address patient;
     PatientItem.insuranceProvider := NewPatient.insuranceProvider patient;
     PatientItem.insuranceId := NewPatient.insuranceId patient;
     PatientItem.createdAt := now;
     PatientItem.updatedAt := now;
     PatientItem.status :=
       if truthy (NewPatient.status patient) then NewPatient.status patient
       else "active";
     PatientItem.entityType := "PATIENT";
     PatientItem.GSI1PK := Some ("CLINIC#" +:+ NewPatient.clinicId patient +:+ "#PATIENTS");
     PatientItem.GSI1SK := Some ("PATIENT#" +:+ NewPatient.patientId patient) |}.

(** [PutCommand] with [ConditionExpression: 'attribute_not_exists(PK)']. *)
Definition create (now : string) (patient : NewPatient.t) : App Patient.t :=
  let item := create_item now patient in
  docClient_send_patients
    (fun m =>
       let key := (PatientItem.PK item, PatientItem.SK item) in
       match m !! key with
       | None => (Return tt, <[key := item]> m)
       | Some _ => (Throw (StoreError ConditionalCheckFailedException), m)
       end);;
  mret (toPatient item).

Definition findById (clinicId patientId : string) : App (option Patient.t) :=
  let pk := buildPatientPK clinicId patientId in
  let sk := buildPatientSK in
  item ← docClient_send_patients (fun m => (Return (m !! (pk, sk)), m));
  match item with
  | None => mret None
  | Some item => mret (Some (toPatient item))
  end.

End patientsRepository.

(** ** Authorisation: src/lib/auth.ts *)

(** [array.includes(x)] *)
Definition includes {A} `{EqDecision A} (array : list A) (x : A) : bool :=
  bool_decide (x ∈ array).

(** The member of [Scope] a string is, when [Object.values(Scope)] includes
    it. *)
Definition scope_of (s : string) : option Scope.t :=
  List.find (fun v => String.eqb (Scope.value v) s) Scope.values.

(** [if (!scopes.includes(scope)) scopes.push(scope)] *)
Definition push_unless_included (scope : Scope.t) (scopes : list Scope.t)
  : list Scope.t :=
  if includes scopes scope then scopes else scopes ++ [scope].

Definition parseScopes (claims : JWTClaims.t) : list Scope.t :=
  let groups := nullish (JWTClaims.cognito_groups claims) [] in
  let scopeString := nullish (JWTClaims.scope claims) EmptyString in
  let scopeValues := List.filter truthy (split " "%char scopeString) in
  let allScopeStrings := groups ++ scopeValues in
  let scopes := omap scope_of allScopeStrings in
  let hasClinicalAccess :=
    includes groups "admin" || includes groups "clinician"
    || includes groups "doctor" || includes groups "nurse" in
  let scopes :=
    if hasClinicalAccess then
      push_unless_included Scope.ATTACHMENTS_WRITE
        (push_unless_included Scope.NOTES_WRITE
           (push_unless_included Scope.NOTES_READ scopes))
    else scopes in
  let scopes :=
    if includes groups "admin" then push_unless_included Scope.NOTES_DELETE scopes
    else scopes in
  let scopes :=
    if includes groups "receptionist" then push_unless_included Scope.NOTES_READ scopes
    else scopes in
  scopes.

Fixpoint requireScopes (auth : AuthContext.t) (requiredScopes : list Scope.t)
  : App unit :=
  match requiredScopes with
  | [] => mret tt
  | scope :: rest =>
      if negb (includes (AuthContext.scopes auth) scope) then
        lift (logger.warn "Missing required scope");;
        fail (ForbiddenError ("Missing required permission: " +:+ Scope.value scope))
      else requireScopes auth rest
  end.

Definition assertClinicAccess (auth : AuthContext.t) (resourceClinicId : string)
  : App unit :=
  if negb (String.eqb (AuthContext.clinicId auth) resourceClinicId) then
    lift (logger.warn "Clinic access violation attempt");;
    fail (ForbiddenError "Access denied: resource belongs to different clinic")
  else mret tt.

Definition hasScope (auth : AuthContext.t) (scope : Scope.t) : bool :=
  includes (AuthContext.scopes auth) scope.

(** ** Patient access: src/lib/patient-access.ts *)

Definition assertPatientAccess (auth : AuthContext.t) (patientId : string) : App unit :=
  patient ← patientsRepository.findById (AuthContext.clinicId auth) patientId;
  match patient with
  | None =>
      lift (logger.warn "Patient access denied");;
      fail (ForbiddenError "Patient not found or access denied")
  | Some _ => mret tt
  end.

(** ** Note service: src/types/index.ts, src/services/notes.service.ts *)

Module NoteDTO.
Record t := {
  noteId : string;
  patientId : string;
  studyDate : string;
  title : string;
  content : string;
  noteType : option string;
  tags : option (list string);
  attachments : list Attachment;
  createdAt : string;
  updatedAt : string;
  createdBy : string;
  createdByName : string;
  version : Z;
}.
End NoteDTO.

Definition toNoteDTO (note : Note.t) : NoteDTO.t :=
  {| NoteDTO.noteId := Note.noteId note;
     NoteDTO.patientId := Note.patientId note;
     NoteDTO.studyDate := Note.studyDate note;
     NoteDTO.title := Note.title note;
     NoteDTO.content := Note.content note;
     NoteDTO.noteType := Note.noteType note;
     NoteDTO.tags := Note.tags note;
     NoteDTO.attachments := Note.attachments note;
     NoteDTO.createdAt := Note.createdAt note;
     NoteDTO.updatedAt := Note.updatedAt note;
     NoteDTO.createdBy := Note.createdBy note;
     NoteDTO.createdByName := Note.createdByName note;
     NoteDTO.version := Note.version note |}.

Module notesService.

(** [noteId] and [now] are the identifier and the clock reading the
    repository draws. *)
Definition createNote (noteId now : string) (auth : AuthContext.t) (patientId : string)
    (input : CreateNoteInput.t) : App NoteDTO.t :=
  requireScopes auth [Scope.NOTES_WRITE];;
  assertPatientAccess auth patientId;;
  lift (logger.info "Creating note");;
  note ← lift (notesRepository.create noteId now (AuthContext.clinicId auth) patientId
                 (AuthContext.userId auth) (AuthContext.username auth) input);
  mret (toNoteDTO note).

Definition getNote (auth : AuthContext.t) (patientId noteId : string) : App NoteDTO.t :=
  requireScopes auth [Scope.NOTES_READ];;
  assertPatientAccess auth patientId;;
  lift (logger.info "Getting note");;
  note ← lift (notesRepository.findByIdWithoutStudyDate
                 (AuthContext.clinicId auth) patientId noteId);
  match note with
  | None => fail (Below (NotFoundError "Note" noteId))
  | Some note => mret (toNoteDTO note)
  end.

Definition updateNote (now : string) (auth : AuthContext.t) (patientId noteId : string)
    (input : UpdateNoteInput.t) : App NoteDTO.t :=
  requireScopes auth [Scope.NOTES_WRITE];;
  assertPatientAccess auth patientId;;
  lift (logger.info "Updating note");;
  existing ← lift (notesRepository.findByIdWithoutStudyDate
                     (AuthContext.clinicId auth) patientId noteId);
  match existing with
  | None => fail (Below (NotFoundError "Note" noteId))
  | Some existing =>
      updated ← lift (notesRepository.update now (AuthContext.clinicId auth) patientId
                        noteId (Note.studyDate existing) (AuthContext.userId auth)
                        (AuthContext.username auth) input);
      mret (toNoteDTO updated)
  end.

Definition deleteNote (now : string) (auth : AuthContext.t) (patientId noteId : string)
  : App unit :=
  requireScopes auth [Scope.NOTES_DELETE];;
  assertPatientAccess auth patientId;;
  lift (logger.info "Deleting note");;
  existing ← lift (notesRepository.findByIdWithoutStudyDate
                     (AuthContext.clinicId auth) patientId noteId);
  match existing with
  | None => fail (Below (NotFoundError "Note" noteId))
  | Some existing =>
      lift (notesRepository.softDelete now (AuthContext.clinicId auth) patientId noteId
              (Note.studyDate existing) (AuthContext.userId auth))
  end.

End notesService.

(** Running a call of the upper layers in a store. *)
Definition run_app {A} (m : App A) (s : Store) : Outcome A * Store := m s.

(** The claims of a member of the given groups, with the given scope string. *)
Definition claims_of (groups : list string) (scope : option string) : JWTClaims.t :=
  {| JWTClaims.sub := "user-123";
     JWTClaims.cognito_username := Some "dr-smith";
     JWTClaims.cognito_groups := Some groups;
     JWTClaims.custom_clinicId := Some "clinic-abc";
     JWTClaims.scope := scope;
     JWTClaims.iss := "https://cognito-idp.us-east-1.amazonaws.com/pool";
     JWTClaims.aud := "client";
     JWTClaims.exp := 1700003600;
     JWTClaims.iat := 1700000000 |}.

(** The context of a user of the sample clinic with the scopes of the
    claims. *)
Definition auth_of (claims : JWTClaims.t) : AuthContext.t :=
  {| AuthContext.userId := JWTClaims.sub claims;
     AuthContext.username := "dr-smith";
     AuthContext.clinicId := "clinic-abc";
     AuthContext.scopes := parseScopes claims;
     AuthContext.rawClaims := claims |}.

(** The store after one more log entry. *)
Definition store_logged (s : Store) (level : LogLevel.t) (message : string) : Store :=
  {| below := logged (below s) level message; patients := patients s |}.

(** The store after a call to the table that left the items as they were. *)
Definition store_read (s : Store) : Store :=
  {| below := failed (below s); patients := patients s |}.

(** A live note with the identifier, stored in the partition of the clinic
    and the patient under a [NOTE#] sort key. *)
Definition live_note_with_id (t : Table) (clinicId patientId noteId : string)
    (sk : string) (it : Item.t) : Prop :=
  notes t !! (buildPK clinicId patientId, sk) = Some it
  /\ startsWith sk "NOTE#" = true
  /\ Item.noteId it = noteId
  /\ Item.deletedAt it = None.

Definition sample_patient : NewPatient.t :=
  {| NewPatient.patientId := "patient-123";
     NewPatient.clinicId := "clinic-abc";
     NewPatient.firstName := Some "Ada";
     NewPatient.lastName := Some "Moreau";
     NewPatient.dateOfBirth := None;
     NewPatient.gender := None;
     NewPatient.email := None;
     NewPatient.phone := None;
     NewPatient.address := None;
     NewPatient.insuranceProvider := None;
     NewPatient.insuranceId := None;
     NewPatient.status := EmptyString |}.

(** The sample world with the record of the sample patient. *)
Definition sample_store : Store :=
  (run_app (patientsRepository.create "2024-01-10T09:00:00.000Z" sample_patient)
     {| below := sample_world; patients := ∅ |}).2.

Definition admin : AuthContext.t := auth_of (claims_of ["admin"] None).
Definition clinician : AuthContext.t := auth_of (claims_of ["clinician"] None).
Definition receptionist : AuthContext.t := auth_of (claims_of ["receptionist"] None).

(** ** Attachments: src/services/attachments.service.ts

    [getSignedUrl] of the S3 presigner and the bucket named by the
    environment are arguments of the two calls; the signer is any computation
    of the layer, so it may fail.  [attachmentId] is the identifier [uuidv4]
    draws. *)

Module PresignUploadInput.
Record t := {
  fileName : string;
  contentType : string;
  sizeBytes : Z;
}.
End PresignUploadInput.

Module PresignUploadResponse.
Record t := {
  uploadUrl : string;
  s3Key : string;
  attachmentId : string;
  expiresIn : Z;
}.
End PresignUploadResponse.

Module PresignDownloadResponse.
Record t := {
  downloadUrl : string;
  fileName : string;
  contentType : string;
  expiresIn : Z;
}.
End PresignDownloadResponse.

(** The commands handed to the signer. *)
Inductive S3Command :=
  | PutObjectCommand (Bucket Key ContentType : string) (ContentLength : Z)
      (Metadata : list (string * string))
  | GetObjectCommand (Bucket Key ResponseContentDisposition ResponseContentType : string).

Module SignOptions.
Record t := {
  expiresIn : Z;
  signableHeaders : option (list string);
}.
End SignOptions.

Definition Signer : Type := S3Command -> SignOptions.t -> App string.

Definition BUCKET_NAME (ATTACHMENTS_BUCKET : option string) : string :=
  nullish ATTACHMENTS_BUCKET "snoremd-attachments".
Definition PRESIGN_EXPIRY_SECONDS : Z := 15 * 60.
Definition MAX_FILE_SIZE : Z := 100 * 1024 * 1024.

Definition ALLOWED_CONTENT_TYPES : list string :=
  [ "application/pdf";
    "image/jpeg";
    "image/png";
    "image/gif";
    "image/webp";
    "application/msword";
    "application/vnd.openxmlformats-officedocument.wordprocessingml.document";
    "text/plain";
    "application/dicom" ].

(** [array.join(separator)] *)
Fixpoint join_with (separator : string) (array : list string) : string :=
  match array with
  | [] => EmptyString
  | [x] => x
  | x :: rest => x +:+ separator +:+ join_with separator rest
  end.

(** [encodeURIComponent]: the bytes of the UTF-8 form of the string, each kept
    when it is one of [A-Z a-z 0-9 - _ . ! ~ * ' ( )] and written [%XX] in
    upper-case hexadecimal otherwise. *)
Definition is_unreserved (c : ascii) : bool :=
  let n := code c in
  ((97 <=? n) && (n <=? 122) || (65 <=? n) && (n <=? 90) || (48 <=? n) && (n <=? 57)
   || (n =? 45) || (n =? 95) || (n =? 46) || (n =? 33) || (n =? 126) || (n =? 42)
   || (n =? 39) || (n =? 40) || (n =? 41))%N.

Definition upper_hex_digit (n : N) : ascii :=
  if (n <? 10)%N then chr (48 + n) else chr (55 + n).

Definition percent_encode (c : ascii) : string :=
  String "%"
    (String (upper_hex_digit (code c / 16))
       (String (upper_hex_digit (code c mod 16)) EmptyString)).

Fixpoint encodeURIComponent (s : string) : string :=
  match s with
  | EmptyString => EmptyString
  | String c r =>
      (if is_unreserved c then String c EmptyString else percent_encode c)
        +:+ encodeURIComponent r
  end.

(** The double quote. *)
Definition quote : string := String (chr 34) EmptyString.

Definition generatePresignedUploadUrl (getSignedUrl : Signer)
    (ATTACHMENTS_BUCKET : option string) (attachmentId : string)
    (auth : AuthContext.t) (patientId noteId : string) (input : PresignUploadInput.t)
  : App PresignUploadResponse.t :=
  requireScopes auth [Scope.ATTACHMENTS_WRITE];;
  assertPatientAccess auth patientId;;
  if (MAX_FILE_SIZE <? PresignUploadInput.sizeBytes input)%Z then
    fail (ValidationError
            ("File size exceeds maximum allowed (" +:+ pretty MAX_FILE_SIZE +:+ " bytes)"))
  else if negb (includes ALLOWED_CONTENT_TYPES (PresignUploadInput.contentType input)) then
    fail (ValidationError
            ("Content type not allowed: " +:+ PresignUploadInput.contentType input
             +:+ ". Allowed types: " +:+ join_with ", " ALLOWED_CONTENT_TYPES))
  else
    let s3Key :=
      buildS3Key (AuthContext.clinicId auth) patientId noteId attachmentId
        (PresignUploadInput.fileName input) in
    lift (logger.info "Generating presigned upload URL");;
    let command :=
      PutObjectCommand (BUCKET_NAME ATTACHMENTS_BUCKET) s3Key
        (PresignUploadInput.contentType input) (PresignUploadInput.sizeBytes input)
        [ ("clinic-id", AuthContext.clinicId auth);
          ("patient-id", patientId);
          ("note-id", noteId);
          ("attachment-id", attachmentId);
          ("uploaded-by", AuthContext.userId auth) ] in
    uploadUrl ← getSignedUrl command
                  {| SignOptions.expiresIn := PRESIGN_EXPIRY_SECONDS;
                     SignOptions.signableHeaders :=
                       Some ["host"; "content-type"; "content-length"] |};
    mret {| PresignUploadResponse.uploadUrl := uploadUrl;
            PresignUploadResponse.s3Key := s3Key;
            PresignUploadResponse.attachmentId := attachmentId;
            PresignUploadResponse.expiresIn := PRESIGN_EXPIRY_SECONDS |}.

Definition generatePresignedDownloadUrl (getSignedUrl : Signer)
    (ATTACHMENTS_BUCKET : option string)
    (auth : AuthContext.t) (patientId noteId attachmentId : string)
  : App PresignDownloadResponse.t :=
  requireScopes auth [Scope.NOTES_READ];;
  assertPatientAccess auth patientId;;
  note ← lift (notesRepository.findByIdWithoutStudyDate
                 (AuthContext.clinicId auth) patientId noteId);
  match note with
  | None => fail (Below (NotFoundError "Note" noteId))
  | Some note =>
      match List.find (fun a => String.eqb (id a) attachmentId) (Note.attachments note) with
      | None => fail (Below (NotFoundError "Attachment" attachmentId))
      | Some attachment =>
          lift (logger.info "Generating presigned download URL");;
          let command :=
            GetObjectCommand (BUCKET_NAME ATTACHMENTS_BUCKET) (s3Key attachment)
              ("attachment; filename=" +:+ quote
               +:+ encodeURIComponent (fileName attachment) +:+ quote)
              (contentType attachment) in
          downloadUrl ← getSignedUrl command
                          {| SignOptions.expiresIn := PRESIGN_EXPIRY_SECONDS;
                             SignOptions.signableHeaders := None |};
          mret {| PresignDownloadResponse.downloadUrl := downloadUrl;
                  PresignDownloadResponse.fileName := fileName attachment;
                  PresignDownloadResponse.contentType := contentType attachment;
                  PresignDownloadResponse.expiresIn := PRESIGN_EXPIRY_SECONDS |}
      end
  end.

(** A signer that answers with the address of the object. *)
Definition sample_signer : Signer :=
  fun command _ =>
    mret match command with
         | PutObjectCommand bucket key _ _ _ => "https://" +:+ bucket +:+ "/" +:+ key
         | GetObjectCommand bucket key _ _ => "https://" +:+ bucket +:+ "/" +:+ key
         end.

Definition sample_upload : PresignUploadInput.t :=
  {| PresignUploadInput.fileName := "sleep study.pdf";
     PresignUploadInput.contentType := "application/pdf";
     PresignUploadInput.sizeBytes := 1024 |}.

(** An attachment whose key lies under another clinic, and a note that
    carries it. *)
Definition sample_attachment : Attachment :=
  {| id := "attachment-9";
     fileName := "report " +:+ quote +:+ "final" +:+ quote +:+ ".pdf";
     contentType := "application/pdf";
     sizeBytes := 2048;
     s3Key := "clinic/clinic-xyz/patient/patient-777/note/note-1/attachment-1/scan.pdf";
     uploadedAt := "2024-01-20T09:59:00.000Z" |}.

Definition sample_input_with_attachment : CreateNoteInput.t :=
  {| CreateNoteInput.studyDate := "2024-01-20";
     CreateNoteInput.title := "Follow-up";
     CreateNoteInput.content := "See attachment";
     CreateNoteInput.noteType := None;
     CreateNoteInput.tags := None;
     CreateNoteInput.attachments := Some [sample_attachment] |}.

(** * Properties *)

(** ** The effect monad and the client *)

Lemma docClient_send_up {A} (command : Table -> Result A * Table) w :
  store_up w ->
  docClient_send command w = ((command (table w)).1, answered w (command (table w)).2).
Proof.
  unfold store_up, docClient_send, answered.
  destruct (faults w) as [|[name|] script]; intros Hup; try done;
    by destruct (command (table w)).
Qed.

Lemma docClient_send_fault {A} (command : Table -> Result A * Table) w name script :
  faults w = Some name :: script ->
  docClient_send command w = (Throw (StoreError name), failed w).
Proof. unfold docClient_send, failed. by intros ->. Qed.

Lemma store_up_logged w level message : store_up w -> store_up (logged w level message).
Proof. done. Qed.

Ltac unfold_M :=
  unfold run, mbind, M_bind, bind, mret, M_ret, ret, throw, try_catch,
    logger.info, logger.warn, logger.debug, logger.error, logger.write.

(** ** Soft delete *)

(** C10. For every active note, a successful soft delete writes the
    [deletedAt] and [deletedBy] attributes only: the stored item becomes its
    tombstone, in which the version, title, content, attachments, study date
    and update stamps are the ones it had; the version is not incremented. *)
Theorem softDelete_writes_only_deletion_marks
    now clinicId patientId noteId studyDate userId w it :
  let key := (buildPK clinicId patientId, buildSK studyDate noteId) in
  notes (table w) !! key = Some it ->
  Item.deletedAt it = None ->
  store_up w ->
  run (notesRepository.softDelete now clinicId patientId noteId studyDate userId) w
    = (Return tt,
       logged
         (answered w
            (with_notes (table w) (<[key := tombstone it now userId]> (notes (table w)))))
         LogLevel.info "Note soft deleted")
  /\ Item.version (tombstone it now userId) = Item.version it
  /\ Item.title (tombstone it now userId) = Item.title it
  /\ Item.content (tombstone it now userId) = Item.content it
  /\ Item.attachments (tombstone it now userId) = Item.attachments it
  /\ Item.studyDate (tombstone it now userId) = Item.studyDate it
  /\ Item.updatedAt (tombstone it now userId) = Item.updatedAt it
  /\ Item.updatedBy (tombstone it now userId) = Item.updatedBy it
  /\ Item.deletedAt (tombstone it now userId) = Some now
  /\ Item.deletedBy (tombstone it now userId) = Some userId.
Proof.
  intros key Hit Hlive Hup. split; [|done].
  unfold notesRepository.softDelete. unfold_M.
  rewrite docClient_send_up by done.
  unfold UpdateCommand; simpl. fold key. rewrite Hit. simpl.
  rewrite Hlive. simpl. done.
Qed.

(** ** Update *)

Lemma apply_update_actions it now userId username input :
  apply_actions it
    (push_if_defined (UpdateNoteInput.attachments input) SET_attachments
       (push_if_defined (UpdateNoteInput.content input) SET_content
          (push_if_defined (UpdateNoteInput.title input) SET_title
             [SET_updatedAt now; SET_updatedBy userId; SET_updatedByName username;
              SET_version_plus 1])))
  = revised it now userId username input.
Proof.
  destruct input as [[?|] [?|] ? ? [?|] ?]; reflexivity.
Qed.

(** The conditional write of [update] goes through. *)
Lemma update_succeeds now clinicId patientId noteId studyDate userId username input w it :
  let key := (buildPK clinicId patientId, buildSK studyDate noteId) in
  notes (table w) !! key = Some it ->
  Item.deletedAt it = None ->
  Item.version it = UpdateNoteInput.version input ->
  store_up w ->
  run (notesRepository.update now clinicId patientId noteId studyDate userId username input) w
    = (Return (itemToNote (revised it now userId username input)),
       logged
         (answered w
            (with_notes (table w)
               (<[key := revised it now userId username input]> (notes (table w)))))
         LogLevel.info "Note updated").
Proof.
  intros key Hit Hlive Hver Hup.
  unfold notesRepository.update. unfold_M.
  rewrite docClient_send_up by done.
  unfold UpdateCommand; simpl. fold key. rewrite Hit. simpl.
  rewrite Hlive, Hver, Z.eqb_refl. simpl.
  by rewrite apply_update_actions.
Qed.

(** The conditional write of [update] fails its condition: the table is not
    written, the item is read again, and the error is made from what that read
    shows. *)
Lemma update_condition_fails now clinicId patientId noteId studyDate userId username input w :
  let key := (buildPK clinicId patientId, buildSK studyDate noteId) in
  update_condition (notes (table w) !! key) (UpdateNoteInput.version input) = false ->
  store_up w ->
  store_up (failed w) ->
  run (notesRepository.update now clinicId patientId noteId studyDate userId username input) w
    = (Throw
         match notes (table w) !! key with
         | None => NotFoundError "Note" noteId
         | Some it =>
             if truthy_opt (Item.deletedAt it) then NotFoundError "Note" noteId
             else ConflictError
                    (version_conflict (UpdateNoteInput.version input) (Item.version it))
         end,
       failed (failed w)).
Proof.
  intros key Hcond Hup Hup2.
  unfold notesRepository.update. unfold_M.
  rewrite docClient_send_up by done.
  unfold UpdateCommand.
  cbn [Update.Key Update.ConditionExpression]. fold key.
  unfold update_condition in Hcond. rewrite Hcond. cbn [fst snd].
  unfold notesRepository.findById. unfold_M.
  cbn [exn_name]. rewrite String.eqb_refl. cbv beta.
  change (answered w (table w)) with (failed w).
  rewrite docClient_send_up by done. simpl.
  fold key. destruct (notes (table w) !! key) as [it|]; [|reflexivity].
  destruct (truthy_opt (Item.deletedAt it)); reflexivity.
Qed.

(** ** Consistent tables *)

Lemma consistent_empty : consistent empty_table.
Proof. intros key it Hit. simpl in Hit. by rewrite lookup_empty in Hit. Qed.

Lemma consistent_insert t it :
  consistent t ->
  Item.PK it = buildPK (Item.clinicId it) (Item.patientId it) ->
  Item.SK it = buildSK (Item.studyDate it) (Item.noteId it) ->
  Item.deletedAt it <> Some EmptyString ->
  consistent (with_notes t (<[(Item.PK it, Item.SK it) := it]> (notes t))).
Proof.
  intros Ht Hpk Hsk Hdel key it' Hit'. simpl in Hit'.
  destruct (decide ((Item.PK it, Item.SK it) = key)) as [<-|Hne].
  - rewrite lookup_insert_eq in Hit'. by simplify_eq.
  - rewrite lookup_insert_ne in Hit' by done. by apply Ht.
Qed.

Lemma consistent_delete t key :
  consistent t -> consistent (with_notes t (delete key (notes t))).
Proof.
  intros Ht key' it Hit. simpl in Hit.
  apply lookup_delete_Some in Hit as [_ Hit]. by apply Ht.
Qed.

Lemma consistent_with_windows t m : consistent t -> consistent (with_windows t m).
Proof. done. Qed.

(** What a call of the client does to the table: nothing when the client
    fails, the command's effect otherwise. *)
Lemma docClient_send_table {A} (command : Table -> Result A * Table) w :
  (exists name, docClient_send command w = (Throw (StoreError name), failed w))
  \/ docClient_send command w
     = ((command (table w)).1, answered w (command (table w)).2).
Proof.
  unfold docClient_send, failed, answered.
  destruct (faults w) as [|[name|] script]; simpl.
  - right. by destruct (command (table w)).
  - left. by exists name.
  - right. by destruct (command (table w)).
Qed.

(** The outcomes of [update]: it throws and leaves the table as it was, or it
    returns the revision of a live item whose version was the expected one,
    and that revision is its only write. *)
Lemma update_outcome now clinicId patientId noteId studyDate userId username input w :
  let key := (buildPK clinicId patientId, buildSK studyDate noteId) in
  let call :=
    run (notesRepository.update now clinicId patientId noteId studyDate
           userId username input) w in
  (exists e, call.1 = Throw e /\ table call.2 = table w)
  \/ exists it,
       notes (table w) !! key = Some it
       /\ Item.deletedAt it = None
       /\ Item.version it = UpdateNoteInput.version input
       /\ call.1 = Return (itemToNote (revised it now userId username input))
       /\ table call.2
          = with_notes (table w)
              (<[key := revised it now userId username input]> (notes (table w))).
Proof.
  intros key.
  unfold notesRepository.update, notesRepository.findById. unfold_M.
  destruct (docClient_send_table (UpdateCommand
    {| Update.Key := key;
       Update.UpdateExpression :=
         push_if_defined (UpdateNoteInput.attachments input) SET_attachments
           (push_if_defined (UpdateNoteInput.content input) SET_content
              (push_if_defined (UpdateNoteInput.title input) SET_title
                 [SET_updatedAt now; SET_updatedBy userId;
                  SET_updatedByName username; SET_version_plus 1]));
       Update.ConditionExpression :=
         [attribute_exists_PK; attribute_not_exists_deletedAt;
          version_equals (UpdateNoteInput.version input)];
       Update.ReturnValues := ALL_NEW |}) w) as [[name Hs]|Hs];
    fold key; rewrite Hs; clear Hs; cbn [fst snd exn_name].
  - left. destruct (name =? _)%string; [|(eexists; split; reflexivity)].
    destruct (docClient_send_table (GetCommand {| Get.Key := key |}) (failed w))
      as [[name' ->]| ->]; [(eexists; split; reflexivity)|]. simpl.
    destruct (notes (table w) !! key) as [it|]; [|(eexists; split; reflexivity)].
    destruct (truthy_opt _); (eexists; split; reflexivity).
  - unfold UpdateCommand. cbn [Update.Key Update.ConditionExpression
      Update.UpdateExpression Update.ReturnValues].
    destruct (all_hold _ _) eqn:Hcond; cbn [fst snd exn_name].
    + destruct (notes (table w) !! key) as [it|] eqn:Hit; [|left; (eexists; split; reflexivity)].
      right. exists it. simpl in Hcond.
      repeat (apply andb_prop in Hcond as [? Hcond]).
      rewrite apply_update_actions. simpl.
      apply bool_decide_eq_true_1 in H. apply Z.eqb_eq in H0. done.
    + rewrite String.eqb_refl. left.
      destruct (docClient_send_table (GetCommand {| Get.Key := key |})
                  (answered w (table w))) as [[name' ->]| ->]; [(eexists; split; reflexivity)|]. simpl.
      destruct (notes (table w) !! key) as [it|]; [|(eexists; split; reflexivity)].
      destruct (truthy_opt _); (eexists; split; reflexivity).
Qed.

Lemma update_consistent now clinicId patientId noteId studyDate userId username input w :
  consistent (table w) ->
  consistent
    (table (run (notesRepository.update now clinicId patientId noteId studyDate
                   userId username input) w).2).
Proof.
  intros Hw.
  destruct (update_outcome now clinicId patientId noteId studyDate userId username input w)
    as [(e & _ & ->)|(it & Hit & Hlive & Hver & _ & ->)]; [done|].
  destruct (Hw _ _ Hit) as (Hkey & Hpk & Hsk & Hdel). rewrite Hkey.
  by apply (consistent_insert (table w) (revised it now userId username input)).
Qed.

(** ** Create *)

Lemma create_run noteId now clinicId patientId userId username input w :
  let item :=
    notesRepository.create_item noteId now clinicId patientId userId username input in
  let key := (buildPK clinicId patientId,
              buildSK (CreateNoteInput.studyDate input) noteId) in
  store_up w ->
  run (notesRepository.create noteId now clinicId patientId userId username input) w
  = match notes (table w) !! key with
    | None =>
        (Return (itemToNote item),
         logged (answered w (with_notes (table w) (<[key := item]> (notes (table w)))))
           LogLevel.info "Note created")
    | Some _ => (Throw (StoreError ConditionalCheckFailedException), failed w)
    end.
Proof.
  intros item key Hup. unfold notesRepository.create. unfold_M.
  rewrite docClient_send_up by done. unfold PutCommand. simpl. fold key.
  by destruct (notes (table w) !! key).
Qed.

Lemma create_outcome noteId now clinicId patientId userId username input w :
  let item :=
    notesRepository.create_item noteId now clinicId patientId userId username input in
  let key := (buildPK clinicId patientId,
              buildSK (CreateNoteInput.studyDate input) noteId) in
  let call :=
    run (notesRepository.create noteId now clinicId patientId userId username input) w in
  (exists e, call.1 = Throw e /\ table call.2 = table w)
  \/ (notes (table w) !! key = None
      /\ call.1 = Return (itemToNote item)
      /\ table call.2 = with_notes (table w) (<[key := item]> (notes (table w)))).
Proof.
  intros item key. unfold notesRepository.create. unfold_M.
  destruct (docClient_send_table (PutCommand
    {| Put.Item := item; Put.ConditionExpression := [attribute_not_exists_PK] |}) w)
    as [[name Hs]|Hs]; fold item; rewrite Hs; [left; (eexists; split; reflexivity)|].
  unfold PutCommand. simpl. fold key.
  destruct (notes (table w) !! key); [left; (eexists; split; reflexivity)|by right].
Qed.

Lemma create_consistent noteId now clinicId patientId userId username input w :
  consistent (table w) ->
  consistent
    (table (run (notesRepository.create noteId now clinicId patientId
                   userId username input) w).2).
Proof.
  intros Hw.
  destruct (create_outcome noteId now clinicId patientId userId username input w)
    as [(e & _ & ->)|(_ & _ & ->)]; [done|].
  by apply (consistent_insert (table w)
    (notesRepository.create_item noteId now clinicId patientId userId username input)).
Qed.

(** ** Soft delete, continued *)

Lemma softDelete_outcome now clinicId patientId noteId studyDate userId w :
  let key := (buildPK clinicId patientId, buildSK studyDate noteId) in
  let call :=
    run (notesRepository.softDelete now clinicId patientId noteId studyDate userId) w in
  (exists e, call.1 = Throw e /\ table call.2 = table w)
  \/ exists it,
       notes (table w) !! key = Some it
       /\ Item.deletedAt it = None
       /\ call.1 = Return tt
       /\ table call.2
          = with_notes (table w) (<[key := tombstone it now userId]> (notes (table w))).
Proof.
  intros key. unfold notesRepository.softDelete. unfold_M.
  destruct (docClient_send_table (UpdateCommand
    {| Update.Key := key;
       Update.UpdateExpression := [SET_deletedAt now; SET_deletedBy userId];
       Update.ConditionExpression :=
         [attribute_exists_PK; attribute_not_exists_deletedAt];
       Update.ReturnValues := NONE |}) w) as [[name Hs]|Hs];
    fold key; rewrite Hs; clear Hs; cbn [fst snd exn_name].
  - left. destruct (name =? _)%string; (eexists; split; reflexivity).
  - unfold UpdateCommand. cbn [Update.Key Update.ConditionExpression
      Update.UpdateExpression Update.ReturnValues].
    destruct (all_hold _ _) eqn:Hcond; cbn [fst snd exn_name].
    + destruct (notes (table w) !! key) as [it|] eqn:Hit; [|left; (eexists; split; reflexivity)].
      right. exists it. simpl in Hcond.
      apply andb_prop in Hcond as [H _]. apply bool_decide_eq_true_1 in H.
      done.
    + left. (eexists; split; reflexivity).
Qed.

Lemma softDelete_consistent now clinicId patientId noteId studyDate userId w :
  now <> EmptyString ->
  consistent (table w) ->
  consistent
    (table (run (notesRepository.softDelete now clinicId patientId noteId
                   studyDate userId) w).2).
Proof.
  intros Hnow Hw.
  destruct (softDelete_outcome now clinicId patientId noteId studyDate userId w)
    as [(e & _ & ->)|(it & Hit & Hlive & _ & ->)]; [done|].
  destruct (Hw _ _ Hit) as (Hkey & Hpk & Hsk & Hdel). rewrite Hkey.
  apply (consistent_insert (table w) (tombstone it now userId)); try done.
  simpl. congruence.
Qed.

Lemma hardDelete_consistent clinicId patientId noteId studyDate w :
  consistent (table w) ->
  consistent
    (table (run (notesRepository.hardDelete clinicId patientId noteId studyDate) w).2).
Proof.
  intros Hw. unfold notesRepository.hardDelete. unfold_M.
  destruct (docClient_send_table (DeleteCommand
    {| Delete.Key := (buildPK clinicId patientId, buildSK studyDate noteId) |}) w)
    as [[name ->]| ->]; [done|].
  simpl. by apply consistent_delete.
Qed.

(** ** Sample world *)

Lemma sample_world_lookup : notes (table sample_world) !! sample_key = Some sample_item.
Proof. vm_compute. reflexivity. Qed.

Lemma sample_world_consistent : consistent (table sample_world).
Proof. apply create_consistent, consistent_empty. Qed.

Lemma sample_world_up : store_up sample_world.
Proof. exact I. Qed.

(** ** Optimistic concurrency *)

Lemma sending_marshals numbers w : marshals numbers = true -> sending numbers w = w.
Proof. unfold sending. by intros ->. Qed.

(** What [update] does when the client throws at the send of its command. *)
Lemma update_send_fails now clinicId patientId noteId studyDate userId username input
    w name script :
  faults w = Some name :: script ->
  name <> ConditionalCheckFailedException ->
  run (notesRepository.update now clinicId patientId noteId studyDate userId username input) w
  = (Throw (StoreError name), failed w).
Proof.
  intros Hf Hname. unfold notesRepository.update. unfold_M.
  rewrite (docClient_send_fault _ w name script) by done.
  cbn [exn_name]. apply String.eqb_neq in Hname. by rewrite Hname.
Qed.

Lemma update_unsendable now clinicId patientId noteId studyDate userId username input w :
  marshals (update_numbers input) = false ->
  run (notesRepository.update now clinicId patientId noteId studyDate userId username input)
      (sending (update_numbers input) w)
  = (Throw (StoreError "Error"), w).
Proof.
  intros Hno. unfold sending. rewrite Hno.
  erewrite update_send_fails; [|reflexivity|discriminate].
  by destruct w.
Qed.

(** C1, as the code has it.  An update whose expected version differs from the
    version of the note under the key never writes the table and fails.  When
    the client sends the command, its numbers being safe integers, it fails
    with [ConflictError] naming the expected and the stored version when the
    note is live, with [NotFoundError] when it is soft-deleted or there is no
    note; the error is made from a second call to the store, the read that
    follows the failed conditional write.  When the client does not send it,
    the expected version lying outside the safe integers, it fails with the
    client's [Error] and no call reaches the store. *)
Theorem update_stale_version_conflict
    now clinicId patientId noteId studyDate userId username input w :
  let key := (buildPK clinicId patientId, buildSK studyDate noteId) in
  let expected := UpdateNoteInput.version input in
  consistent (table w) ->
  (forall it, notes (table w) !! key = Some it ->
              Item.version it <> expected /\ safe_integer (Item.version it)) ->
  store_up w ->
  store_up (failed w) ->
  run (notesRepository.update now clinicId patientId noteId studyDate
         userId username input) (sending (update_numbers input) w)
    = (if marshals (update_numbers input) then
         (Throw
            match notes (table w) !! key with
            | Some it =>
                match Item.deletedAt it with
                | None =>
                    ConflictError
                      ("Version conflict: expected " +:+ pretty expected
                         +:+ ", current is " +:+ pretty (Item.version it))
                | Some _ => NotFoundError "Note" noteId
                end
            | None => NotFoundError "Note" noteId
            end,
          failed (failed w))
       else (Throw (StoreError "Error"), w))
  /\ table (failed (failed w)) = table w.
Proof.
  intros key expected Hw Hstale Hup Hup2. split; [|done].
  destruct (marshals (update_numbers input)) eqn:Hsent;
    [|by apply update_unsendable].
  rewrite sending_marshals by done.
  rewrite update_condition_fails; try done.
  - fold key. destruct (notes (table w) !! key) as [it|] eqn:Hit; [|done].
    destruct (Hw _ _ Hit) as (_ & _ & _ & Hdel).
    destruct (Item.deletedAt it) as [d|]; [|done].
    destruct d; [done|done].
  - fold key. unfold update_condition.
    destruct (notes (table w) !! key) as [it|] eqn:Hit; [|done].
    simpl. destruct (Hstale it eq_refl) as [Hne _]. apply Z.eqb_neq in Hne.
    fold expected. rewrite Hne. by rewrite !andb_false_r.
Qed.

Lemma sample_world_stale it expected :
  expected <> 1 ->
  notes (table sample_world) !! sample_key = Some it ->
  Item.version it <> expected /\ safe_integer (Item.version it).
Proof.
  intros Hne Hit. rewrite sample_world_lookup in Hit. injection Hit as <-.
  split; [by intros <-|]. by vm_compute.
Qed.

Lemma update_stale_version_conflict_witness :
  run (notesRepository.update "2024-01-16T10:00:00.000Z" "clinic-abc" "patient-123"
         "note-id" "2024-01-15" "user-456" "Dr. Test" (only_title "Updated" 3))
      sample_world
  = (Throw (ConflictError "Version conflict: expected 3, current is 1"),
     failed (failed sample_world)).
Proof.
  destruct (update_stale_version_conflict
              "2024-01-16T10:00:00.000Z" "clinic-abc" "patient-123"
              "note-id" "2024-01-15" "user-456" "Dr. Test" (only_title "Updated" 3)
              sample_world sample_world_consistent) as [H _].
  - intros it. by apply sample_world_stale.
  - exact I.
  - exact I.
  - etrans; [exact H|]. vm_compute. reflexivity.
Defined.

(** C1 as stated fails for an expected version the client cannot send.  The
    sample note is live at version 1; an update that expects version
    9007199254740992, one above [Number.MAX_SAFE_INTEGER], is stale, and it
    fails with the client's [Error], not with [ConflictError]: the client
    throws when it marshals the number, and [update] rethrows what is not a
    failed condition. *)
Lemma update_with_unsendable_version_is_no_conflict :
  notes (table sample_world) !! sample_key = Some sample_item
  /\ Item.deletedAt sample_item = None
  /\ Item.version sample_item = 1
  /\ marshals (update_numbers (only_title "Updated" 9007199254740992)) = false
  /\ run (notesRepository.update "2024-01-16T10:00:00.000Z" "clinic-abc" "patient-123"
            "note-id" "2024-01-15" "user-456" "Dr. Test"
            (only_title "Updated" 9007199254740992))
         (sending (update_numbers (only_title "Updated" 9007199254740992)) sample_world)
     = (Throw (StoreError "Error"), sample_world)
  /\ StoreError "Error"
     <> ConflictError "Version conflict: expected 9007199254740992, current is 1".
Proof.
  split; [exact sample_world_lookup|]. do 3 (split; [reflexivity|]).
  split; [|discriminate].
  by apply update_unsendable.
Qed.

(** The version of the note under a key after a series of updates: each
    successful call adds one, a failed call adds nothing. *)
Lemma update_series_version clinicId patientId noteId studyDate attempts :
  forall w it,
    notes (table w) !! (buildPK clinicId patientId, buildSK studyDate noteId) = Some it ->
    exists it',
      notes (table (update_series clinicId patientId noteId studyDate attempts w).2)
        !! (buildPK clinicId patientId, buildSK studyDate noteId) = Some it'
      /\ Item.version it'
         = Item.version it
           + Z.of_nat (update_series clinicId patientId noteId studyDate attempts w).1.
Proof.
  induction attempts as [|a rest IH]; intros w it Hit; simpl.
  - exists it. split; [done|lia].
  - pose proof (update_outcome (Attempt.now a) clinicId patientId noteId studyDate
      (Attempt.userId a) (Attempt.username a) (Attempt.input a) w) as Hout.
    simpl in Hout.
    destruct (run _ w) as [r w'] eqn:Hcall. simpl in Hout.
    destruct Hout as [(e & -> & Hsame)|(it0 & Hit0 & _ & _ & -> & Hw')].
    + apply IH. by rewrite Hsame.
    + assert (it0 = it) as -> by congruence.
      destruct (IH w' (revised it (Attempt.now a) (Attempt.userId a)
                         (Attempt.username a) (Attempt.input a))) as (it' & Hit' & Hv).
      { rewrite Hw'. simpl. apply lookup_insert_eq. }
      destruct (update_series _ _ _ _ rest w') as [n w'']. simpl in *.
      exists it'. split; [done|]. rewrite Hv. lia.
Qed.

(** C2. A created note has version 1, in the returned note and in the table.
    Every successful update returns and stores the stored version plus one, and
    a failed update leaves the table as it was.  So after any series of update
    calls on the note, of which N succeed, its version is 1 + N. *)
Theorem version_counts_successful_updates
    noteId now clinicId patientId userId username input w note w1 :
  let key := (buildPK clinicId patientId,
              buildSK (CreateNoteInput.studyDate input) noteId) in
  run (notesRepository.create noteId now clinicId patientId userId username input) w
    = (Return note, w1) ->
  Note.version note = 1
  /\ (exists it, notes (table w1) !! key = Some it /\ Item.version it = 1)
  /\ (forall a w2,
        match
          run (notesRepository.update (Attempt.now a) clinicId patientId noteId
                 (CreateNoteInput.studyDate input) (Attempt.userId a)
                 (Attempt.username a) (Attempt.input a)) w2
        with
        | (Return note', w3) =>
            exists it it',
              notes (table w2) !! key = Some it
              /\ notes (table w3) !! key = Some it'
              /\ Item.version it' = Item.version it + 1
              /\ Note.version note' = Item.version it + 1
        | (Throw _, w3) => table w3 = table w2
        end)
  /\ (forall attempts,
        let series :=
          update_series clinicId patientId noteId (CreateNoteInput.studyDate input)
            attempts w1 in
        exists it,
          notes (table series.2) !! key = Some it
          /\ Item.version it = 1 + Z.of_nat series.1).
Proof.
  intros key Hcreate.
  pose proof (create_outcome noteId now clinicId patientId userId username input w)
    as Hout.
  simpl in Hout. rewrite Hcreate in Hout. simpl in Hout. fold key in Hout.
  destruct Hout as [(e & He & _)|(Hfresh & Hnote & Hw1)]; [done|].
  injection Hnote as ->.
  assert (Hstored : notes (table w1) !! key
    = Some (notesRepository.create_item noteId now clinicId patientId userId
              username input)).
  { rewrite Hw1. simpl. apply lookup_insert_eq. }
  split; [done|]. split; [by eexists|]. split.
  - intros a w2.
    pose proof (update_outcome (Attempt.now a) clinicId patientId noteId
      (CreateNoteInput.studyDate input) (Attempt.userId a) (Attempt.username a)
      (Attempt.input a) w2) as Hout.
    simpl in Hout. fold key in Hout.
    destruct (run _ w2) as [r w3]. simpl in Hout.
    destruct Hout as [(e & -> & Hsame)|(it & Hit & _ & _ & -> & Hw3)]; [done|].
    exists it, (revised it (Attempt.now a) (Attempt.userId a) (Attempt.username a)
                  (Attempt.input a)).
    rewrite Hw3. simpl. by rewrite lookup_insert_eq.
  - intros attempts series.
    destruct (update_series_version clinicId patientId noteId
      (CreateNoteInput.studyDate input) attempts w1 _ Hstored) as (it & Hit & Hv).
    exists it. split; [done|]. by rewrite Hv.
Qed.

Lemma version_counts_successful_updates_witness :
  Note.version (itemToNote sample_item) = 1
  /\ exists it,
       notes (table (update_series "clinic-abc" "patient-123" "note-id" "2024-01-15"
                       [ {| Attempt.now := "2024-01-16T10:00:00.000Z";
                            Attempt.userId := "user-456";
                            Attempt.username := "Dr. Test";
                            Attempt.input := only_title "First" 1 |};
                         {| Attempt.now := "2024-01-16T10:05:00.000Z";
                            Attempt.userId := "user-789";
                            Attempt.username := "Dr. Late";
                            Attempt.input := only_title "Stale" 1 |};
                         {| Attempt.now := "2024-01-16T10:06:00.000Z";
                            Attempt.userId := "user-789";
                            Attempt.username := "Dr. Late";
                            Attempt.input := only_title "Second" 2 |} ]
                       sample_world).2) !! sample_key = Some it
       /\ Item.version it = 3.
Proof.
  destruct (version_counts_successful_updates
              "note-id" "2024-01-15T10:00:00.000Z" "clinic-abc" "patient-123"
              "user-123" "dr-smith" sample_input (world empty_table [])
              (itemToNote sample_item) sample_world)
    as (Hv & _ & _ & Hseries).
  - vm_compute. reflexivity.
  - split; [exact Hv|].
    destruct (Hseries
      [ {| Attempt.now := "2024-01-16T10:00:00.000Z";
           Attempt.userId := "user-456";
           Attempt.username := "Dr. Test";
           Attempt.input := only_title "First" 1 |};
        {| Attempt.now := "2024-01-16T10:05:00.000Z";
           Attempt.userId := "user-789";
           Attempt.username := "Dr. Late";
           Attempt.input := only_title "Stale" 1 |};
        {| Attempt.now := "2024-01-16T10:06:00.000Z";
           Attempt.userId := "user-789";
           Attempt.username := "Dr. Late";
           Attempt.input := only_title "Second" 2 |} ]) as (it & Hit & Hversion).
    exists it. split; [exact Hit|].
    rewrite Hversion. vm_compute. reflexivity.
Defined.

(** C7, where the code departs from it.  A successful update writes the
    title, the content and the attachments when the input has them and keeps
    them otherwise, increments the version and refreshes the update stamps; it
    never writes [tags] or [noteType], whatever the input holds.  An update of
    the sample note that sends tags and a note type succeeds with version 2 and
    the stored note keeps the tags and the note type it had: [update] has no
    clause for either. *)
Theorem update_drops_tags_and_noteType :
  (forall now clinicId patientId noteId studyDate userId username input w it,
     let key := (buildPK clinicId patientId, buildSK studyDate noteId) in
     notes (table w) !! key = Some it ->
     Item.deletedAt it = None ->
     Item.version it = UpdateNoteInput.version input ->
     store_up w ->
     exists it' w',
       run (notesRepository.update now clinicId patientId noteId studyDate
              userId username input) w = (Return (itemToNote it'), w')
       /\ notes (table w') = <[key := it']> (notes (table w))
       /\ Item.title it' = nullish (UpdateNoteInput.title input) (Item.title it)
       /\ Item.content it' = nullish (UpdateNoteInput.content input) (Item.content it)
       /\ Item.attachments it'
          = match UpdateNoteInput.attachments input with
            | Some a => Some a
            | None => Item.attachments it
            end
       /\ Item.tags it' = Item.tags it
       /\ Item.noteType it' = Item.noteType it
       /\ Item.version it' = Item.version it + 1
       /\ Item.updatedAt it' = now
       /\ Item.updatedBy it' = userId
       /\ Item.updatedByName it' = Some username
       /\ Item.studyDate it' = Item.studyDate it
       /\ Item.createdAt it' = Item.createdAt it
       /\ Item.createdBy it' = Item.createdBy it
       /\ Item.deletedAt it' = Item.deletedAt it)
  /\ (exists it' w',
        run (notesRepository.update "2024-01-16T10:00:00.000Z" "clinic-abc"
               "patient-123" "note-id" "2024-01-15" "user-456" "Dr. Test" retag_input)
            sample_world = (Return (itemToNote it'), w')
        /\ notes (table w') !! sample_key = Some it'
        /\ Item.version it' = 2
        /\ UpdateNoteInput.tags retag_input = Some ["urgent"]
        /\ Item.tags it' = Some ["sleep"; "apnea"]
        /\ UpdateNoteInput.noteType retag_input = Some "follow-up"
        /\ Item.noteType it' = Some "clinical").
Proof.
  split.
  - intros now clinicId patientId noteId studyDate userId username input w it key
      Hit Hlive Hver Hup.
    eexists (revised it now userId username input), _. split.
    + by apply update_succeeds.
    + by repeat split.
  - eexists (revised sample_item "2024-01-16T10:00:00.000Z" "user-456" "Dr. Test"
               retag_input), _. split.
    + apply (update_succeeds "2024-01-16T10:00:00.000Z" "clinic-abc" "patient-123"
               "note-id" "2024-01-15" "user-456" "Dr. Test" retag_input sample_world
               sample_item sample_world_lookup); [reflexivity|reflexivity|exact I].
    + split; [apply lookup_insert_eq|]. repeat split.
Qed.

(** ** Queries *)

(** What a query returns was read from the table: every returned item sits
    under a key of the queried partition that satisfies the key condition, and
    passes the filter.  A query does not write. *)
Lemma QueryCommand_sound input t out t' :
  QueryCommand input t = (Return out, t') ->
  t' = t
  /\ forall it, it ∈ Query.Items out ->
       exists key,
         notes t !! key = Some it
         /\ key_matches (Query.pk input) (Query.KeyConditionExpression input) key = true
         /\ all_hold (Some it) (Query.FilterExpression input) = true.
Proof.
  unfold QueryCommand. destruct (_ && _); [|done].
  intros [= <- <-]. split; [done|]. intros it Hit. simpl in Hit.
  apply list_elem_of_fmap in Hit as ([key it'] & -> & He). simpl.
  apply list_elem_of_filter in He as [Hfilter He]. exists key.
  assert (Hscan : (key, it') ∈ scan input (notes t)).
  { destruct (Query.Limit input), (Query.ExclusiveStartKey input);
      repeat first
        [ apply (sublist_subseteq _ _ (sublist_take _ _)) in He
        | apply list_elem_of_filter in He as [_ He] ]; done. }
  unfold scan in Hscan.
  assert (Hsel : (key, it') ∈
    filter (fun e => key_matches (Query.pk input)
                       (Query.KeyConditionExpression input) e.1 = true)
      (map_to_list (notes t))).
  { destruct (Query.ScanIndexForward input);
      by rewrite merge_sort_Permutation in Hscan. }
  apply list_elem_of_filter in Hsel as [Hkey Hin].
  by apply elem_of_map_to_list in Hin.
Qed.

(** [list] does not write, and its page is made of the items its query
    returned. *)
Lemma list_outcome clinicId patientId options w :
  let call := run (notesRepository.list clinicId patientId options) w in
  table call.2 = table w
  /\ forall page,
       call.1 = Return page ->
       exists out,
         QueryCommand (notesRepository.listQuery clinicId patientId options) (table w)
           = (Return out, table w)
         /\ page = notesRepository.page (ListNotesOptions.limit options) (Query.Items out).
Proof.
  unfold notesRepository.list. unfold_M.
  destruct (docClient_send_table
    (QueryCommand (notesRepository.listQuery clinicId patientId options)) w)
    as [[name ->]| ->]; [done|].
  destruct (QueryCommand _ (table w)) as [[out|e] t'] eqn:Hq; simpl.
  - apply QueryCommand_sound in Hq as Hsound. destruct Hsound as [-> _].
    split; [done|]. intros page [= <-]. by exists out.
  - split; [|done]. unfold QueryCommand in Hq.
    destruct (_ && _); by simplify_eq.
Qed.

Lemma removelast_subseteq {A} (l : list A) : removelast l ⊆ l.
Proof.
  induction l as [|x [|y l] IH]; simpl; [done|set_solver|].
  intros z Hz. apply elem_of_cons in Hz as [->|Hz]; [set_solver|].
  apply elem_of_cons. right. by apply IH.
Qed.

(** The notes of a page come from the items the query returned. *)
Lemma page_items limit items note :
  note ∈ PaginatedResponse.items (notesRepository.page limit items) ->
  exists it, it ∈ items /\ note = itemToNote it.
Proof.
  unfold notesRepository.page. simpl. intros Hnote.
  apply list_elem_of_fmap in Hnote as (it & -> & Hit). exists it. split; [|done].
  destruct (limit <? _); [by apply removelast_subseteq|done].
Qed.

(** Every note [list] returns was read from the partition of the caller's
    clinic and patient, and is live. *)
Lemma list_sound clinicId patientId options w page w' note :
  run (notesRepository.list clinicId patientId options) w = (Return page, w') ->
  note ∈ PaginatedResponse.items page ->
  exists sk it,
    notes (table w) !! (buildPK clinicId patientId, sk) = Some it
    /\ Item.deletedAt it = None
    /\ note = itemToNote it.
Proof.
  intros Hcall Hnote.
  destruct (list_outcome clinicId patientId options w) as [_ Hpage].
  rewrite Hcall in Hpage. destruct (Hpage page eq_refl) as (out & Hq & ->).
  apply page_items in Hnote as (it & Hit & ->).
  apply QueryCommand_sound in Hq as [_ Hsound].
  destruct (Hsound it Hit) as ([pk sk] & Hlookup & Hkey & Hfilter).
  exists sk, it. unfold key_matches in Hkey. simpl in Hkey.
  apply andb_prop in Hkey as [Hpk _]. apply String.eqb_eq in Hpk as ->.
  split; [done|]. split; [|done].
  assert (Hlive : holds (Some it) attribute_not_exists_deletedAt = true).
  { unfold all_hold in Hfilter. rewrite forallb_forall in Hfilter.
    apply Hfilter. simpl. destruct (ListNotesOptions.tag options) as [tag|];
      [destruct (truthy tag)|]; simpl; auto. }
  simpl in Hlive. by apply bool_decide_eq_true_1 in Hlive.
Qed.

(** ** Soft-deleted notes *)

Lemma truthy_nonempty s : s <> EmptyString -> truthy s = true.
Proof. by destruct s. Qed.

(** C3. A note whose [deletedAt] is set is still stored under its key, and no
    read shows it: [findById] returns null, the scan by note identifier and
    [list] return live notes only, and a second soft delete fails with
    [NotFoundError]; none of these calls writes the table. *)
Theorem soft_deleted_note_is_filtered
    clinicId patientId noteId studyDate w it d :
  let key := (buildPK clinicId patientId, buildSK studyDate noteId) in
  consistent (table w) ->
  notes (table w) !! key = Some it ->
  Item.deletedAt it = Some d ->
  store_up w ->
  run (notesRepository.findById clinicId patientId noteId studyDate) w
    = (Return None, failed w)
  /\ (forall note w',
        run (notesRepository.findByIdWithoutStudyDate clinicId patientId noteId) w
          = (Return (Some note), w') ->
        Note.deletedAt note = None /\ note <> itemToNote it)
  /\ (forall options page w',
        run (notesRepository.list clinicId patientId options) w = (Return page, w') ->
        (itemToNote it ∉ PaginatedResponse.items page)
        /\ (forall note,
              note ∈ PaginatedResponse.items page -> Note.deletedAt note = None))
  /\ (forall now userId,
        run (notesRepository.softDelete now clinicId patientId noteId studyDate userId) w
          = (Throw (NotFoundError "Note" noteId), failed w))
  /\ (GetCommand {| Get.Key := key |} (table (failed w))).1
     = Return {| Get.Item := Some it |}.
Proof.
  intros key Hw Hit Hdel Hup.
  destruct (Hw _ _ Hit) as (_ & _ & _ & Hd). rewrite Hdel in Hd.
  assert (truthy d = true) as Htruthy by (apply truthy_nonempty; congruence).
  split; [|split; [|split; [|split]]].
  - unfold notesRepository.findById. unfold_M.
    rewrite docClient_send_up by done. simpl. fold key. rewrite Hit. simpl.
    by rewrite Hdel; simpl; rewrite Htruthy.
  - intros note w'. unfold notesRepository.findByIdWithoutStudyDate. unfold_M.
    rewrite docClient_send_up by done.
    destruct (QueryCommand _ (table w)) as [[out|e] t'] eqn:Hq; simpl; [|done].
    apply QueryCommand_sound in Hq as [-> Hsound].
    destruct (Query.Items out) as [|item rest] eqn:Hitems; [done|].
    intros [= <- <-].
    destruct (Hsound item) as (key' & _ & _ & Hfilter); [set_solver|].
    simpl in Hfilter. apply andb_prop in Hfilter as [_ Hfilter].
    apply andb_prop in Hfilter as [Hlive _]. apply bool_decide_eq_true_1 in Hlive.
    split; [done|]. intros Heq. apply (f_equal Note.deletedAt) in Heq.
    simpl in Heq. congruence.
  - intros options page w' Hcall.
    assert (Hlive : forall note, note ∈ PaginatedResponse.items page ->
                                 Note.deletedAt note = None).
    { intros note Hnote.
      destruct (list_sound _ _ _ _ _ _ _ Hcall Hnote) as (sk & it' & _ & Hl & ->).
      done. }
    split; [|done]. intros Hin. apply Hlive in Hin. simpl in Hin. congruence.
  - intros now userId. unfold notesRepository.softDelete. unfold_M.
    rewrite docClient_send_up by done.
    unfold UpdateCommand. cbn [Update.Key Update.ConditionExpression]. fold key.
    rewrite Hit. simpl. rewrite Hdel. simpl. done.
  - simpl. fold key. by rewrite Hit.
Qed.

Lemma deleted_world_lookup :
  notes (table deleted_world) !! sample_key
  = Some (tombstone sample_item "2024-01-17T09:00:00.000Z" "user-456").
Proof. vm_compute. reflexivity. Qed.

Lemma deleted_world_consistent : consistent (table deleted_world).
Proof. by apply softDelete_consistent, sample_world_consistent. Qed.

Lemma soft_deleted_note_is_filtered_witness :
  run (notesRepository.findById "clinic-abc" "patient-123" "note-id" "2024-01-15")
      deleted_world
    = (Return None, failed deleted_world)
  /\ (exists page w',
        run (notesRepository.list "clinic-abc" "patient-123" (list_options None 10))
            deleted_world = (Return page, w')
        /\ PaginatedResponse.items page = [])
  /\ run (notesRepository.softDelete "2024-01-18T09:00:00.000Z" "clinic-abc"
            "patient-123" "note-id" "2024-01-15" "user-456") deleted_world
       = (Throw (NotFoundError "Note" "note-id"), failed deleted_world)
  /\ notes (table deleted_world) !! sample_key
     = Some (tombstone sample_item "2024-01-17T09:00:00.000Z" "user-456").
Proof.
  destruct (soft_deleted_note_is_filtered
              "clinic-abc" "patient-123" "note-id" "2024-01-15" deleted_world
              (tombstone sample_item "2024-01-17T09:00:00.000Z" "user-456")
              "2024-01-17T09:00:00.000Z"
              deleted_world_consistent deleted_world_lookup eq_refl I)
    as (Hget & _ & _ & Hdelete & _).
  split; [exact Hget|]. split.
  - eexists _, _. split; vm_compute; reflexivity.
  - split; [apply Hdelete|apply deleted_world_lookup].
Defined.

(** ** Strings and keys *)

Lemma append_cons c s1 s2 : String c s1 +:+ s2 = String c (s1 +:+ s2).
Proof. reflexivity. Qed.

Lemma append_nil_l s : EmptyString +:+ s = s.
Proof. reflexivity. Qed.

Lemma append_nil_r s : s +:+ EmptyString = s.
Proof. induction s as [|c s IH]; [done|]. by rewrite append_cons, IH. Qed.

Lemma append_assoc s1 s2 s3 : (s1 +:+ s2) +:+ s3 = s1 +:+ (s2 +:+ s3).
Proof.
  induction s1 as [|c s1 IH]; [done|]. by rewrite !append_cons, IH.
Qed.

Lemma length_append s1 s2 :
  String.length (s1 +:+ s2) = (String.length s1 + String.length s2)%nat.
Proof.
  induction s1 as [|c s1 IH]; [done|]. rewrite append_cons. simpl. by rewrite IH.
Qed.

Lemma append_inj_l s s1 s2 : s +:+ s1 = s +:+ s2 -> s1 = s2.
Proof.
  induction s as [|c s IH]; [done|]. rewrite !append_cons. intros [= H]. auto.
Qed.

Lemma append_inj_r s s1 s2 : s1 +:+ s = s2 +:+ s -> s1 = s2.
Proof.
  revert s2. induction s1 as [|c s1 IH]; intros [|c' s2] H.
  - done.
  - apply (f_equal String.length) in H.
    rewrite append_cons, append_nil_l in H. simpl in H.
    rewrite length_append in H. lia.
  - apply (f_equal String.length) in H.
    rewrite append_cons, append_nil_l in H. simpl in H.
    rewrite length_append in H. lia.
  - rewrite !append_cons in H. injection H as -> H. f_equal. by apply IH.
Qed.

(** The partition key is injective in the clinic for a given patient. *)
Lemma buildPK_inj_clinic c1 c2 p : buildPK c1 p = buildPK c2 p -> c1 = c2.
Proof.
  unfold buildPK. intros H. apply append_inj_l in H.
  rewrite <- (append_assoc c1), <- (append_assoc c2) in H.
  apply append_inj_r in H. by apply append_inj_r in H.
Qed.

Lemma hash_free_split c1 c2 s1 s2 :
  hash_free c1 = true -> hash_free c2 = true ->
  c1 +:+ String "#" s1 = c2 +:+ String "#" s2 -> c1 = c2 /\ s1 = s2.
Proof.
  revert c2. induction c1 as [|a c1 IH]; intros [|b c2] H1 H2 H;
    rewrite ?append_cons, ?append_nil_l in H.
  - by injection H.
  - injection H as <- _. vm_compute in H2. discriminate.
  - injection H as -> _. vm_compute in H1. discriminate.
  - injection H as -> H. simpl in H1, H2.
    apply andb_prop in H1 as [_ H1], H2 as [_ H2].
    destruct (IH c2 H1 H2 H) as [-> ->]. done.
Qed.

(** It is injective in both identifiers when the clinics hold no [#]. *)
Lemma buildPK_inj_hash_free c1 p1 c2 p2 :
  hash_free c1 = true -> hash_free c2 = true ->
  buildPK c1 p1 = buildPK c2 p2 -> c1 = c2 /\ p1 = p2.
Proof.
  unfold buildPK. intros H1 H2 H. apply append_inj_l in H.
  change ("#PATIENT#" +:+ ?p) with (String "#" ("PATIENT#" +:+ p)) in H.
  destruct (hash_free_split _ _ _ _ H1 H2 H) as [-> H'].
  by apply append_inj_l in H'.
Qed.

(** ** Tenant isolation of [list] *)

(** C4, as the code has it.  Whatever the cursor, the query of [list] is on the
    partition key built from the caller's clinic and patient, and every note
    returned is stored under that partition key.  So a returned note of the same
    patient identifier belongs to the caller's clinic; and when neither clinic
    identifier holds a [#], the note belongs to the caller's clinic and
    patient. *)
Theorem list_stays_in_partition clinicId patientId options w page w' note :
  consistent (table w) ->
  run (notesRepository.list clinicId patientId options) w = (Return page, w') ->
  note ∈ PaginatedResponse.items page ->
  Query.pk (notesRepository.listQuery clinicId patientId options)
    = buildPK clinicId patientId
  /\ buildPK (Note.clinicId note) (Note.patientId note) = buildPK clinicId patientId
  /\ (Note.patientId note = patientId -> Note.clinicId note = clinicId)
  /\ (hash_free clinicId = true -> hash_free (Note.clinicId note) = true ->
      Note.clinicId note = clinicId /\ Note.patientId note = patientId).
Proof.
  intros Hw Hcall Hnote. split; [done|].
  destruct (list_sound _ _ _ _ _ _ _ Hcall Hnote) as (sk & it & Hit & _ & ->).
  destruct (Hw _ _ Hit) as (Hkey & Hpk & _). simpl.
  assert (buildPK (Item.clinicId it) (Item.patientId it) = buildPK clinicId patientId)
    as Heq by (rewrite <- Hpk; congruence).
  split; [done|]. split.
  - intros Hp. rewrite Hp in Heq. by apply buildPK_inj_clinic in Heq.
  - intros H1 H2. by apply buildPK_inj_hash_free.
Qed.

Lemma list_stays_in_partition_witness :
  buildPK (Note.clinicId (itemToNote sample_item))
          (Note.patientId (itemToNote sample_item))
    = buildPK "clinic-abc" "patient-123"
  /\ Note.clinicId (itemToNote sample_item) = "clinic-abc".
Proof.
  destruct (list_stays_in_partition "clinic-abc" "patient-123"
              (list_options (Some "bm90LWEtY3Vyc29y") 10) sample_world
              {| PaginatedResponse.items := [itemToNote sample_item];
                 PaginatedResponse.nextCursor := None;
                 PaginatedResponse.hasMore := false |}
              (failed sample_world) (itemToNote sample_item)
              sample_world_consistent)
    as (_ & Hpk & Hclinic & _).
  - vm_compute. reflexivity.
  - apply list_elem_of_singleton. reflexivity.
  - split; [exact Hpk|]. apply Hclinic. reflexivity.
Defined.

(** C4 as stated fails on colliding keys: the key scheme joins the
    identifiers with [#], so clinic [clinic-1#PATIENT#p] with patient [x] and
    clinic [clinic-1] with patient [p#PATIENT#x] share one partition key, and a
    listing scoped to the former returns the note stored under the latter. *)
Lemma list_returns_note_of_colliding_clinic :
  exists page w' note,
    run (notesRepository.list "clinic-1#PATIENT#p" "x" (list_options None 10))
        colliding_world = (Return page, w')
    /\ note ∈ PaginatedResponse.items page
    /\ Note.clinicId note = "clinic-1"
    /\ Note.clinicId note <> "clinic-1#PATIENT#p".
Proof.
  eexists _, _, _. split; [vm_compute; reflexivity|].
  split; [apply list_elem_of_singleton; reflexivity|].
  split; [reflexivity|discriminate].
Qed.

(** ** Rate limiter *)

(** One increment that reaches the store: the counter under the key of the
    window of the first clock reading goes up by one, from 0 when there was no
    record, and the result reports the new count. *)
Lemma incrementRateLimit_up now1 now2 now3 identifier config w :
  let key := window_key identifier config now1 in
  let count := counter (table w) key + 1 in
  let windowStart := rateLimiter.floorWindow now2 (RateLimitConfig.windowSeconds config) in
  store_up w ->
  run (rateLimiter.incrementRateLimit now1 now2 now3 identifier config) w
    = (Return
         {| RateLimitResult.allowed := count <=? RateLimitConfig.maxRequests config;
            RateLimitResult.current := count;
            RateLimitResult.limit := RateLimitConfig.maxRequests config;
            RateLimitResult.retryAfter :=
              Z.max 1 (windowStart + RateLimitConfig.windowSeconds config - now3 / 1000) |},
       answered w
         (with_windows (table w)
            (<[key := {| Window.count := count;
                         Window.ttl :=
                           windowStart + RateLimitConfig.windowSeconds config + 60 |}]>
               (windows (table w))))).
Proof.
  intros key count windowStart Hup.
  unfold rateLimiter.incrementRateLimit. unfold_M.
  rewrite docClient_send_up by done. reflexivity.
Qed.

(** The window of a clock reading: a multiple of the window length, at most
    the reading in seconds and less than one window length below it. *)
Lemma floorWindow_bounds now windowSeconds :
  0 < windowSeconds ->
  let start := rateLimiter.floorWindow now windowSeconds in
  start = now / 1000 / windowSeconds * windowSeconds
  /\ start mod windowSeconds = 0
  /\ start <= now / 1000 < start + windowSeconds.
Proof.
  intros Hpos start. unfold start, rateLimiter.floorWindow.
  split; [done|]. split; [by apply Z.mod_mul; lia|].
  pose proof (Z.mul_div_le (now / 1000) windowSeconds Hpos).
  pose proof (Z.mul_succ_div_gt (now / 1000) windowSeconds Hpos). lia.
Qed.

Lemma window_key_inj identifier config now now' :
  window_key identifier config now = window_key identifier config now' ->
  rateLimiter.floorWindow now (RateLimitConfig.windowSeconds config)
  = rateLimiter.floorWindow now' (RateLimitConfig.windowSeconds config).
Proof.
  unfold window_key, rateLimiter.buildRateLimitSK. intros [= H].
  apply append_inj_l in H. by apply (inj pretty) in H.
Qed.

(** A series of increments in one window, from a counter at [before]: the
    k-th call (from 0) reports [before + k + 1], and allows the request exactly
    when that is within the limit; counters of other windows are not
    touched. *)
Lemma increment_series_counts identifier config times :
  forall w now,
    faults w = [] ->
    Forall (fun t =>
      rateLimiter.floorWindow t (RateLimitConfig.windowSeconds config)
      = rateLimiter.floorWindow now (RateLimitConfig.windowSeconds config)) times ->
    let series := increment_series identifier config times w in
    faults series.2 = []
    /\ counter (table series.2) (window_key identifier config now)
       = counter (table w) (window_key identifier config now) + Z.of_nat (length times)
    /\ (forall now',
          rateLimiter.floorWindow now' (RateLimitConfig.windowSeconds config)
          <> rateLimiter.floorWindow now (RateLimitConfig.windowSeconds config) ->
          counter (table series.2) (window_key identifier config now')
          = counter (table w) (window_key identifier config now'))
    /\ forall k r,
         series.1 !! k = Some r ->
         exists result,
           r = Return result
           /\ RateLimitResult.current result
              = counter (table w) (window_key identifier config now) + Z.of_nat k + 1
           /\ RateLimitResult.allowed result
              = (RateLimitResult.current result <=? RateLimitConfig.maxRequests config).
Proof.
  induction times as [|t rest IH]; intros w now Hfaults Hwin; simpl.
  - split; [done|]. split; [lia|]. split; [done|]. intros k r Hk. done.
  - apply Forall_cons in Hwin as [Ht Hrest].
    assert (Hkey : window_key identifier config t = window_key identifier config now).
    { unfold window_key, rateLimiter.buildRateLimitSK. by rewrite Ht. }
    rewrite incrementRateLimit_up by (unfold store_up; by rewrite Hfaults).
    rewrite Hkey.
    set (w1 := answered w _).
    assert (Hfaults1 : faults w1 = []) by (unfold w1; simpl; by rewrite Hfaults).
    assert (Hcount1 : counter (table w1) (window_key identifier config now)
      = counter (table w) (window_key identifier config now) + 1).
    { unfold w1, counter. simpl. by rewrite lookup_insert_eq. }
    destruct (IH w1 now Hfaults1 Hrest) as (Hf & Hc & Hother & Hres).
    destruct (increment_series identifier config rest w1) as [rs w2]. simpl in *.
    split; [done|]. split; [rewrite Hc, Hcount1; lia|]. split.
    + intros now' Hne. rewrite Hother by done. unfold w1, counter. simpl.
      rewrite lookup_insert_ne; [done|].
      intros Heq. apply Hne. symmetry. exact (window_key_inj _ _ _ _ Heq).
    + intros [|k] r Hk; simpl in Hk.
      * injection Hk as <-. eexists. split; [done|]. simpl. split; [lia|done].
      * destruct (Hres k r Hk) as (result & -> & Hcur & Hall).
        exists result. split; [done|]. split; [|done]. rewrite Hcur, Hcount1. lia.
Qed.

(** C8. For a policy with a positive window: an increment that reaches the
    store adds one to the counter kept under the key of the window that holds
    the clock reading, a missing counter counting as 0, stamps it with its
    expiry, and returns the count after the increment with [allowed] true
    exactly when that count is at most [maxRequests].  The window starts at
    floor(now / windowSeconds) * windowSeconds, [now] in seconds.  So from an
    empty counter the k-th increment in one window returns k, and the first
    increment of another window with an empty counter returns 1. *)
Theorem increment_counts_requests_per_window identifier config :
  0 < RateLimitConfig.windowSeconds config ->
  (forall now1 now2 now3 w,
     store_up w ->
     let key := window_key identifier config now1 in
     let count := counter (table w) key + 1 in
     let windowStart :=
       rateLimiter.floorWindow now2 (RateLimitConfig.windowSeconds config) in
     run (rateLimiter.incrementRateLimit now1 now2 now3 identifier config) w
       = (Return
            {| RateLimitResult.allowed := count <=? RateLimitConfig.maxRequests config;
               RateLimitResult.current := count;
               RateLimitResult.limit := RateLimitConfig.maxRequests config;
               RateLimitResult.retryAfter :=
                 Z.max 1 (windowStart + RateLimitConfig.windowSeconds config
                          - now3 / 1000) |},
          answered w
            (with_windows (table w)
               (<[key := {| Window.count := count;
                            Window.ttl :=
                              windowStart + RateLimitConfig.windowSeconds config + 60 |}]>
                  (windows (table w))))))
  /\ (forall now,
        let start := rateLimiter.floorWindow now (RateLimitConfig.windowSeconds config) in
        window_key identifier config now
          = (rateLimiter.buildRateLimitPK identifier (RateLimitConfig.name config),
             "WINDOW#" +:+ pretty start)
        /\ start = now / 1000 / RateLimitConfig.windowSeconds config
                   * RateLimitConfig.windowSeconds config
        /\ start <= now / 1000 < start + RateLimitConfig.windowSeconds config)
  /\ (forall w times now next,
        faults w = [] ->
        counter (table w) (window_key identifier config now) = 0 ->
        counter (table w) (window_key identifier config next) = 0 ->
        Forall (fun t =>
          rateLimiter.floorWindow t (RateLimitConfig.windowSeconds config)
          = rateLimiter.floorWindow now (RateLimitConfig.windowSeconds config)) times ->
        rateLimiter.floorWindow next (RateLimitConfig.windowSeconds config)
        <> rateLimiter.floorWindow now (RateLimitConfig.windowSeconds config) ->
        let series := increment_series identifier config times w in
        (forall k r,
           series.1 !! k = Some r ->
           exists result,
             r = Return result
             /\ RateLimitResult.current result = Z.of_nat k + 1
             /\ RateLimitResult.allowed result
                = (Z.of_nat k + 1 <=? RateLimitConfig.maxRequests config))
        /\ exists result w',
             run (rateLimiter.incrementRateLimit next next next identifier config)
                 series.2 = (Return result, w')
             /\ RateLimitResult.current result = 1
             /\ RateLimitResult.allowed result
                = (1 <=? RateLimitConfig.maxRequests config)).
Proof.
  intros Hpos. split; [|split].
  - intros now1 now2 now3 w Hup. by apply incrementRateLimit_up.
  - intros now start. split; [done|].
    destruct (floorWindow_bounds now _ Hpos) as (H1 & _ & H3). done.
  - intros w times now next Hfaults Hnow Hnext Hwin Hne series.
    destruct (increment_series_counts identifier config times w now Hfaults Hwin)
      as (Hf & Hc & Hother & Hres).
    fold series in Hf, Hc, Hother, Hres. split.
    + intros k r Hk. destruct (Hres k r Hk) as (result & -> & Hcur & Hall).
      exists result. rewrite Hnow in Hcur. rewrite Hall, Hcur. done.
    + rewrite incrementRateLimit_up by (unfold store_up; by rewrite Hf).
      eexists _, _. split; [done|]. simpl.
      rewrite (Hother next Hne), Hnext. done.
Qed.

Lemma increment_counts_requests_per_window_witness :
  (exists result,
     (increment_series "IP#203.0.113.7" RATE_LIMITS.login eleven_readings
        (world empty_table [])).1 !! 10%nat = Some (Return result)
     /\ RateLimitResult.current result = 11
     /\ RateLimitResult.allowed result = false)
  /\ exists result w',
       run (rateLimiter.incrementRateLimit next_window_reading next_window_reading
              next_window_reading "IP#203.0.113.7" RATE_LIMITS.login)
           (increment_series "IP#203.0.113.7" RATE_LIMITS.login eleven_readings
              (world empty_table [])).2 = (Return result, w')
       /\ RateLimitResult.current result = 1
       /\ RateLimitResult.allowed result = true.
Proof.
  destruct (increment_counts_requests_per_window "IP#203.0.113.7" RATE_LIMITS.login)
    as (_ & _ & Hseries); [reflexivity|].
  destruct (Hseries (world empty_table []) eleven_readings 1700000000000
              next_window_reading) as [Hk Hnext].
  - reflexivity.
  - reflexivity.
  - reflexivity.
  - unfold eleven_readings. repeat constructor.
  - vm_compute. discriminate.
  - split; [|exact Hnext].
    destruct (increment_series "IP#203.0.113.7" RATE_LIMITS.login eleven_readings
                (world empty_table [])).1 as [|r0 [|r1 [|r2 [|r3 [|r4 [|r5 [|r6
                [|r7 [|r8 [|r9 [|r10 rest]]]]]]]]]]] eqn:Hresults;
      try (vm_compute in Hresults; discriminate).
    destruct (Hk 10%nat r10 eq_refl) as (result & -> & Hcur & Hall).
    exists result. split; [reflexivity|]. split; [exact Hcur|exact Hall].
Defined.

(** ** Store failures *)

(** C9. When the store fails a call: the rate limiter catches the error,
    whatever it is, writes one log entry at level [warn], and returns
    [allowed = true] with [current = 0], from [incrementRateLimit] and from
    [checkRateLimit] alike; [create] rethrows the error, and so does [update]
    for every error but a failed condition, also when it is the read after a
    failed condition that fails. *)
Theorem store_failure_policy name script w :
  faults w = Some name :: script ->
  (forall now1 now2 now3 identifier config,
     run (rateLimiter.incrementRateLimit now1 now2 now3 identifier config) w
       = (Return
            {| RateLimitResult.allowed := true;
               RateLimitResult.current := 0;
               RateLimitResult.limit := RateLimitConfig.maxRequests config;
               RateLimitResult.retryAfter := RateLimitConfig.windowSeconds config |},
          logged (failed w) LogLevel.warn
            "Rate limit increment failed, allowing request (fail-open)"))
  /\ (forall now1 now2 now3 identifier config,
        run (rateLimiter.checkRateLimit now1 now2 now3 identifier config) w
          = (Return
               {| RateLimitResult.allowed := true;
                  RateLimitResult.current := 0;
                  RateLimitResult.limit := RateLimitConfig.maxRequests config;
                  RateLimitResult.retryAfter := RateLimitConfig.windowSeconds config |},
             logged (failed w) LogLevel.warn
               "Rate limit check failed, allowing request (fail-open)"))
  /\ (forall noteId now clinicId patientId userId username input,
        run (notesRepository.create noteId now clinicId patientId userId username input) w
          = (Throw (StoreError name), failed w))
  /\ (forall now clinicId patientId noteId studyDate userId username input,
        name <> ConditionalCheckFailedException ->
        run (notesRepository.update now clinicId patientId noteId studyDate
               userId username input) w
          = (Throw (StoreError name), failed w))
  /\ (forall now clinicId patientId noteId studyDate userId username input w0,
        store_up w0 ->
        failed w0 = w ->
        update_condition
          (notes (table w0) !! (buildPK clinicId patientId, buildSK studyDate noteId))
          (UpdateNoteInput.version input) = false ->
        run (notesRepository.update now clinicId patientId noteId studyDate
               userId username input) w0
          = (Throw (StoreError name), failed w)).
Proof.
  intros Hfaults. split; [|split; [|split; [|split]]].
  - intros. unfold rateLimiter.incrementRateLimit. unfold_M.
    by rewrite (docClient_send_fault _ w name script).
  - intros. unfold rateLimiter.checkRateLimit. unfold_M.
    by rewrite (docClient_send_fault _ w name script).
  - intros. unfold notesRepository.create. unfold_M.
    by rewrite (docClient_send_fault _ w name script).
  - intros now clinicId patientId noteId studyDate userId username input Hname.
    unfold notesRepository.update. unfold_M.
    rewrite (docClient_send_fault _ w name script) by done.
    cbn [exn_name]. apply String.eqb_neq in Hname. by rewrite Hname.
  - intros now clinicId patientId noteId studyDate userId username input w0
      Hup <- Hcond.
    unfold notesRepository.update. unfold_M.
    rewrite docClient_send_up by done.
    unfold UpdateCommand. cbn [Update.Key Update.ConditionExpression].
    unfold update_condition in Hcond. rewrite Hcond. cbn [fst snd exn_name].
    rewrite String.eqb_refl. cbv beta.
    change (answered w0 (table w0)) with (failed w0).
    unfold notesRepository.findById. unfold_M.
    by rewrite (docClient_send_fault _ (failed w0) name script).
Qed.

Lemma store_failure_policy_witness :
  (exists result w',
     run (rateLimiter.incrementRateLimit 1700000000000 1700000000000 1700000000000
            "IP#203.0.113.7" RATE_LIMITS.login) failing_world = (Return result, w')
     /\ RateLimitResult.allowed result = true
     /\ RateLimitResult.current result = 0
     /\ logs w' = [(LogLevel.warn,
                    "Rate limit increment failed, allowing request (fail-open)")])
  /\ run (notesRepository.update "2024-01-16T10:00:00.000Z" "clinic-abc" "patient-123"
            "note-id" "2024-01-15" "user-456" "Dr. Test" (only_title "Updated" 1))
         failing_world
     = (Throw (StoreError "ProvisionedThroughputExceededException"),
        failed failing_world).
Proof.
  destruct (store_failure_policy "ProvisionedThroughputExceededException" []
              failing_world eq_refl) as (Hinc & _ & _ & Hupdate & _).
  split.
  - eexists _, _. split; [apply Hinc|]. repeat split.
  - apply Hupdate. discriminate.
Defined.

Lemma softDelete_writes_only_deletion_marks_witness :
  run (notesRepository.softDelete "2024-01-17T09:00:00.000Z" "clinic-abc"
         "patient-123" "note-id" "2024-01-15" "user-456") sample_world
    = (Return tt,
       logged
         (answered sample_world
            (with_notes (table sample_world)
               (<[sample_key := tombstone sample_item "2024-01-17T09:00:00.000Z"
                                  "user-456"]> (notes (table sample_world)))))
         LogLevel.info "Note soft deleted")
  /\ Item.version (tombstone sample_item "2024-01-17T09:00:00.000Z" "user-456") = 1.
Proof.
  destruct (softDelete_writes_only_deletion_marks
              "2024-01-17T09:00:00.000Z" "clinic-abc" "patient-123" "note-id"
              "2024-01-15" "user-456" sample_world sample_item
              sample_world_lookup eq_refl I) as (Hrun & Hversion & _).
  split; [exact Hrun|]. rewrite Hversion. reflexivity.
Defined.

(** ** base64url *)

Lemma unbase64_b64url_char s :
  is_sextet s -> unbase64 (b64url_char s) = Some s /\ (code (b64url_char s) =? 61)%N = false.
Proof.
  destruct s as [b0 b1 b2 b3 b4 b5 b6 b7]. intros [-> ->].
  destruct b0, b1, b2, b3, b4, b5; split; reflexivity.
Qed.

Lemma sextets_b64url_char s rest :
  is_sextet s -> sextets (String (b64url_char s) rest) = s :: sextets rest.
Proof.
  intros Hs. simpl. by destruct (unbase64_b64url_char s Hs) as [-> _].
Qed.

Lemma is_sextet1 a : is_sextet (sextet1 a).
Proof. by destruct a. Qed.
Lemma is_sextet2 a b : is_sextet (sextet2 a b).
Proof. by destruct a, b. Qed.
Lemma is_sextet3 b c : is_sextet (sextet3 b c).
Proof. by destruct b, c. Qed.
Lemma is_sextet4 c : is_sextet (sextet4 c).
Proof. by destruct c. Qed.

Lemma octets_group a b c :
  octet1 (sextet1 a) (sextet2 a b) = a
  /\ octet2 (sextet2 a b) (sextet3 b c) = b
  /\ octet3 (sextet3 b c) (sextet4 c) = c.
Proof. by destruct a, b, c. Qed.

(** Induction on strings three bytes at a time. *)
Lemma string_ind3 (P : string -> Prop) :
  P EmptyString ->
  (forall a, P (String a EmptyString)) ->
  (forall a b, P (String a (String b EmptyString))) ->
  (forall a b c rest, P rest -> P (String a (String b (String c rest)))) ->
  forall s, P s.
Proof.
  intros H0 H1 H2 H3 s.
  assert (P s /\ (forall a, P (String a s)) /\ (forall a b, P (String a (String b s))))
    as [H _]; [|done].
  induction s as [|c s (IH0 & IH1 & IH2)]; [by auto|].
  split; [by apply IH1|]. split; [by intros; apply IH2|].
  intros a b. by apply H3.
Qed.

(** Decoding undoes encoding, on every byte string. *)
Lemma base64url_decode_encode bs : base64url_decode (base64url_encode bs) = bs.
Proof.
  unfold base64url_decode. induction bs as [|a|a b|a b c rest IH] using string_ind3.
  - done.
  - cbn [base64url_encode].
    rewrite !sextets_b64url_char by auto using is_sextet1, is_sextet2.
    simpl. by destruct (octets_group a zero zero) as (-> & _).
  - cbn [base64url_encode].
    rewrite !sextets_b64url_char by auto using is_sextet1, is_sextet2, is_sextet3.
    simpl. destruct (octets_group a b zero) as (-> & -> & _). done.
  - cbn [base64url_encode].
    rewrite !sextets_b64url_char
      by auto using is_sextet1, is_sextet2, is_sextet3, is_sextet4.
    cbn [octets]. destruct (octets_group a b c) as (-> & -> & ->).
    by rewrite IH.
Qed.

(** ** UTF-8 *)

Lemma byte_in_spec lo hi c : byte_in lo hi c = true <-> (lo <= code c <= hi)%N.
Proof.
  unfold byte_in. rewrite andb_true_iff, !N.leb_le. done.
Qed.

(** The decoder keeps well-formed text as it is. *)
Lemma utf8_toString_valid s : utf8_valid s -> utf8_toString s = s.
Proof.
  induction 1 as [|b0 r H0 _ IH|b0 b1 r H0 H1 _ IH|b0 b1 b2 r H0 H1 H2 _ IH
                  |b0 b1 b2 b3 r H0 H1 H2 H3 _ IH].
  - done.
  - simpl. by rewrite H0, IH.
  - apply byte_in_spec in H0 as H0'.
    assert ((code b0 <? 128)%N = false) as Hlow by (apply N.ltb_ge; lia).
    simpl. by rewrite Hlow, H0, H1, IH.
  - apply byte_in_spec in H0 as H0'.
    assert ((code b0 <? 128)%N = false) as Hlow by (apply N.ltb_ge; lia).
    assert (byte_in 194 223 b0 = false) as Htwo.
    { apply not_true_is_false. intros ?%byte_in_spec. lia. }
    simpl. by rewrite Hlow, Htwo, H0, H1, H2, IH.
  - apply byte_in_spec in H0 as H0'.
    assert ((code b0 <? 128)%N = false) as Hlow by (apply N.ltb_ge; lia).
    assert (byte_in 194 223 b0 = false) as Htwo.
    { apply not_true_is_false. intros ?%byte_in_spec. lia. }
    assert (byte_in 224 239 b0 = false) as Hthree.
    { apply not_true_is_false. intros ?%byte_in_spec. lia. }
    simpl. by rewrite Hlow, Htwo, Hthree, H0, H1, H2, H3, IH.
Qed.

Lemma utf8_valid_app s1 s2 : utf8_valid s1 -> utf8_valid s2 -> utf8_valid (s1 +:+ s2).
Proof.
  induction 1 as [|b0 r H0 _ IH|b0 b1 r H0 H1 _ IH|b0 b1 b2 r H0 H1 H2 _ IH
                  |b0 b1 b2 b3 r H0 H1 H2 H3 _ IH];
    intros Hs2; rewrite ?append_cons, ?append_nil_l.
  - done.
  - apply utf8_one; auto.
  - apply utf8_two; auto.
  - apply utf8_three; auto.
  - apply utf8_four; auto.
Qed.

Lemma escape_char_ascii c : (code c <? 128)%N = true -> utf8_valid (escape_char c).
Proof.
  destruct c as [[|] [|] [|] [|] [|] [|] [|] [|]]; intros H;
    first [discriminate H | repeat (constructor; try reflexivity)].
Qed.

Lemma escape_char_high c : (code c <? 128)%N = false -> escape_char c = String c EmptyString.
Proof.
  destruct c as [[|] [|] [|] [|] [|] [|] [|] [|]]; intros H;
    first [discriminate H | reflexivity].
Qed.

Lemma escape_cons c s : escape (String c s) = escape_char c +:+ escape s.
Proof. reflexivity. Qed.

Lemma high_byte lo hi c : (128 <= lo)%N -> byte_in lo hi c = true -> (code c <? 128)%N = false.
Proof. intros Hlo ?%byte_in_spec. apply N.ltb_ge. lia. Qed.

Lemma is_second_high b0 b1 : is_second b0 b1 = true -> (code b1 <? 128)%N = false.
Proof.
  unfold is_second, second_range.
  repeat case_match; simpl; apply high_byte; lia.
Qed.

(** Escaping keeps text well-formed: it rewrites single bytes below 128 into
    bytes below 128. *)
Lemma utf8_valid_escape s : utf8_valid s -> utf8_valid (escape s).
Proof.
  induction 1 as [|b0 r H0 _ IH|b0 b1 r H0 H1 _ IH|b0 b1 b2 r H0 H1 H2 _ IH
                  |b0 b1 b2 b3 r H0 H1 H2 H3 _ IH];
    rewrite ?escape_cons.
  - constructor.
  - apply utf8_valid_app; [by apply escape_char_ascii|done].
  - rewrite (escape_char_high b0) by (eapply high_byte; [|done]; lia).
    rewrite (escape_char_high b1) by (eapply high_byte; [|done]; lia).
    by constructor.
  - rewrite (escape_char_high b0) by (eapply high_byte; [|done]; lia).
    rewrite (escape_char_high b1) by (by eapply is_second_high).
    rewrite (escape_char_high b2) by (eapply high_byte; [|done]; lia).
    by constructor.
  - rewrite (escape_char_high b0) by (eapply high_byte; [|done]; lia).
    rewrite (escape_char_high b1) by (by eapply is_second_high).
    rewrite (escape_char_high b2) by (eapply high_byte; [|done]; lia).
    rewrite (escape_char_high b3) by (eapply high_byte; [|done]; lia).
    by constructor.
Qed.

Lemma utf8_valid_quote s : utf8_valid s -> utf8_valid (quoteJSONString s).
Proof.
  intros Hs. unfold quoteJSONString. constructor; [done|].
  apply utf8_valid_app; [by apply utf8_valid_escape|].
  by repeat constructor.
Qed.

Lemma utf8_valid_stringify k :
  utf8_valid (PK k) -> utf8_valid (SK k) -> utf8_valid (JSON_stringify k).
Proof.
  intros Hpk Hsk. unfold JSON_stringify.
  repeat first
    [ apply utf8_valid_app
    | apply utf8_valid_quote
    | done
    | by repeat constructor ].
Qed.

(** ** JSON *)

(** Reading back one escaped byte. *)
Lemma parse_chars_escape_char c tail :
  parse_chars (escape_char c +:+ tail)
  = match parse_chars tail with
    | Some (us, rest) => Some (unit_of c :: us, rest)
    | None => None
    end.
Proof.
  destruct c as [[|] [|] [|] [|] [|] [|] [|] [|]]; reflexivity.
Qed.

Lemma parse_chars_escape s rest :
  parse_chars (escape s +:+ String dquote rest) = Some (units_of s, rest).
Proof.
  induction s as [|c s IH]; [reflexivity|].
  rewrite escape_cons, append_assoc, parse_chars_escape_char, IH. done.
Qed.

Lemma units_to_string_unit_of c us :
  units_to_string (unit_of c :: us) = String c (units_to_string us).
Proof.
  destruct c as [[|] [|] [|] [|] [|] [|] [|] [|]];
    first [reflexivity | by destruct us as [|[b|v] us]].
Qed.

Lemma units_to_string_units_of s : units_to_string (units_of s) = s.
Proof.
  induction s as [|c s IH]; [done|].
  cbn [units_of]. by rewrite units_to_string_unit_of, IH.
Qed.

(** A string literal written by [quoteJSONString] parses back to the string it
    was written from. *)
Lemma parse_string_escape s rest :
  parse_string (escape s +:+ String dquote rest) = Some (s, rest).
Proof.
  unfold parse_string. by rewrite parse_chars_escape, units_to_string_units_of.
Qed.

Lemma quote_app s rest :
  quoteJSONString s +:+ rest = String dquote (escape s +:+ String dquote rest).
Proof.
  unfold quoteJSONString. by rewrite append_cons, append_assoc, append_cons, append_nil_l.
Qed.

(** Decide the tests of the parser on the characters that are known. *)
Ltac decide_tests :=
  repeat
    (match goal with
     | |- context [is_ws ?c] =>
         let v := eval vm_compute in (is_ws c) in change (is_ws c) with v
     | |- context [(code ?c =? ?n)%N] =>
         let v := eval vm_compute in (code c =? n)%N in change (code c =? n)%N with v
     end; cbv beta iota).

Lemma skip_ws_quoted s rest :
  exists c r, skip_ws (quoteJSONString s +:+ rest) = String c r
              /\ (code c =? 125)%N = false.
Proof.
  rewrite quote_app. exists dquote. eexists. split; [|reflexivity].
  cbn [skip_ws]. by decide_tests.
Qed.

Lemma parse_value_string fuel r v rest :
  parse_string r = Some (v, rest) ->
  parse_value (S fuel) (String dquote r) = POk (JString v) rest.
Proof.
  intros H. cbn [parse_value skip_ws]. decide_tests. by rewrite H.
Qed.

Lemma parse_value_quoted fuel s rest :
  parse_value (S fuel) (quoteJSONString s +:+ rest) = POk (JString s) rest.
Proof.
  rewrite quote_app. apply parse_value_string, parse_string_escape.
Qed.

Lemma parse_key_quoted k rest :
  parse_key (quoteJSONString k +:+ String ":" rest) = Some (k, rest).
Proof.
  rewrite quote_app. unfold parse_key. cbn [skip_ws]. decide_tests.
  rewrite parse_string_escape. cbn [skip_ws]. by decide_tests.
Qed.

Lemma parse_members_end fuel rest : parse_members (S fuel) (String "}" rest) = POk [] rest.
Proof. reflexivity. Qed.

Lemma parse_members_more fuel r k r1 v r2 ms r3 :
  parse_key r = Some (k, r1) ->
  parse_value fuel r1 = POk v r2 ->
  parse_members fuel r2 = POk ms r3 ->
  parse_members (S fuel) (String "," r) = POk ((k, v) :: ms) r3.
Proof.
  intros Hk Hv Hm. cbn [parse_members skip_ws]. decide_tests.
  by rewrite Hk, Hv, Hm.
Qed.

Lemma parse_value_object fuel r k r1 v r2 ms r3 :
  (exists c0 r0, skip_ws r = String c0 r0 /\ (code c0 =? 125)%N = false) ->
  parse_key r = Some (k, r1) ->
  parse_value fuel r1 = POk v r2 ->
  parse_members fuel r2 = POk ms r3 ->
  parse_value (S fuel) (String "{" r) = POk (JObject ((k, v) :: ms)) r3.
Proof.
  intros (c0 & r0 & Hws & Hc0) Hk Hv Hm. cbn [parse_value skip_ws]. decide_tests.
  by rewrite Hws, Hc0, Hk, Hv, Hm.
Qed.

Lemma parse_value_pair fuel k1 v1 k2 v2 :
  parse_value (S (S (S fuel)))
    (String "{"
       (quoteJSONString k1 +:+
          String ":" (quoteJSONString v1 +:+
             String "," (quoteJSONString k2 +:+ String ":" (quoteJSONString v2 +:+ "}")))))
  = POk (JObject [(k1, JString v1); (k2, JString v2)]) EmptyString.
Proof.
  eapply parse_value_object.
  - apply skip_ws_quoted.
  - apply parse_key_quoted.
  - apply parse_value_quoted.
  - eapply parse_members_more.
    + apply parse_key_quoted.
    + apply parse_value_quoted.
    + apply parse_members_end.
Qed.

(** [JSON.parse] reads what [JSON.stringify] wrote. *)
Lemma JSON_parse_stringify k :
  JSON_parse (JSON_stringify k)
  = inr (JObject [("PK", JString (PK k)); ("SK", JString (SK k))]).
Proof.
  assert (Htext : JSON_stringify k
    = String "{"
        (quoteJSONString "PK" +:+
           String ":" (quoteJSONString (PK k) +:+
              String "," (quoteJSONString "SK" +:+
                 String ":" (quoteJSONString (SK k) +:+ "}"))))) by reflexivity.
  unfold JSON_parse. rewrite Htext.
  assert (Hlen : exists n,
    String.length
      (String "{"
        (quoteJSONString "PK" +:+
           String ":" (quoteJSONString (PK k) +:+
              String "," (quoteJSONString "SK" +:+
                 String ":" (quoteJSONString (SK k) +:+ "}"))))) = S (S n)).
  { rewrite quote_app. simpl. eauto. }
  destruct Hlen as [n ->]. by rewrite parse_value_pair.
Qed.

(** ** Cursor codec *)

Lemma decodeCursor_try_encode k :
  utf8_valid (PK k) -> utf8_valid (SK k) ->
  decodeCursor_try (encodeCursor k)
  = inr (if negb (startsWith (PK k) "CLINIC#") || negb (startsWith (SK k) "NOTE#")
         then None else Some k).
Proof.
  intros Hpk Hsk. unfold decodeCursor_try, encodeCursor.
  rewrite base64url_decode_encode.
  rewrite utf8_toString_valid by (by apply utf8_valid_stringify).
  rewrite JSON_parse_stringify. cbn [get_property own_property].
  change (String.eqb "PK" "SK") with false. change (String.eqb "SK" "PK") with false.
  rewrite !String.eqb_refl. cbv beta iota.
  destruct (negb _ || negb _); [done|]. by destruct k.
Qed.

(** ** The parser never runs out of fuel *)

Lemma skip_ws_length s : (String.length (skip_ws s) <= String.length s)%nat.
Proof.
  induction s as [|c s IH]; simpl; [done|]. destruct (is_ws c); simpl; lia.
Qed.

Lemma parse_chars_length s :
  forall us rest, parse_chars s = Some (us, rest) ->
                  (String.length rest <= String.length s)%nat.
Proof.
  revert s.
  assert (H : forall n s, (String.length s <= n)%nat ->
    forall us rest, parse_chars s = Some (us, rest) ->
                    (String.length rest <= String.length s)%nat); [|by eauto].
  induction n as [|n IH]; intros s Hn us rest Hparse.
  - destruct s; [done|simpl in Hn; lia].
  - destruct s as [|c r]; [done|]. simpl in Hn. cbn [parse_chars] in Hparse.
    destruct (code c =? 34)%N; [simplify_eq; simpl; lia|].
    destruct (code c =? 92)%N.
    + destruct r as [|e r1]; [done|].
      destruct (code e =? 117)%N.
      * destruct r1 as [|h1 [|h2 [|h3 [|h4 r2]]]]; try done.
        destruct (hex4 h1 h2 h3 h4); [|done].
        destruct (parse_chars r2) as [[us' rest']|] eqn:Hr2; [|done].
        simplify_eq. apply IH in Hr2; simpl in *; lia.
      * destruct (unescape e); [|done].
        destruct (parse_chars r1) as [[us' rest']|] eqn:Hr1; [|done].
        simplify_eq. apply IH in Hr1; simpl in *; lia.
    + destruct (code c <? 32)%N; [done|].
      destruct (parse_chars r) as [[us' rest']|] eqn:Hr; [|done].
      simplify_eq. apply IH in Hr; simpl in *; lia.
Qed.

Lemma parse_string_length s v rest :
  parse_string s = Some (v, rest) -> (String.length rest <= String.length s)%nat.
Proof.
  unfold parse_string. destruct (parse_chars s) as [[us r]|] eqn:H; [|done].
  intros [= <- <-]. by eapply parse_chars_length.
Qed.

Lemma parse_key_length s k rest :
  parse_key s = Some (k, rest) -> (String.length rest < String.length s)%nat.
Proof.
  unfold parse_key. pose proof (skip_ws_length s) as Hs.
  destruct (skip_ws s) as [|c r]; [done|].
  destruct (code c =? 34)%N; [|done].
  destruct (parse_string r) as [[k' r1]|] eqn:Hr; [|done].
  apply parse_string_length in Hr. pose proof (skip_ws_length r1) as Hr1.
  destruct (skip_ws r1) as [|c1 r2]; [done|].
  destruct (code c1 =? 58)%N; [|done]. intros [= <- <-]. simpl in *. lia.
Qed.

Lemma span_digits_length s :
  (String.length (span_digits s).2 <= String.length s)%nat.
Proof.
  induction s as [|c s IH]; simpl; [done|].
  destruct (is_digit c); simpl; [|lia].
  destruct (span_digits s). simpl in *. lia.
Qed.

Lemma digits1_length s d rest :
  digits1 s = Some (d, rest) -> (String.length rest <= String.length s)%nat.
Proof.
  unfold digits1. pose proof (span_digits_length s) as H.
  destruct (span_digits s) as [[|c d'] r]; [done|]. by intros [= <- <-].
Qed.

Lemma parse_number_length s n rest :
  parse_number s = Some (n, rest) -> (String.length rest <= String.length s)%nat.
Proof.
  assert (Hint : forall s i r, parse_int s = Some (i, r) ->
                               (String.length r <= String.length s)%nat).
  { intros [|c r0] i r; [done|]. simpl.
    destruct (code c =? 48)%N; [intros [= <- <-]; lia|].
    destruct (byte_in 49 57 c); [|done].
    pose proof (span_digits_length r0). destruct (span_digits r0).
    intros [= <- <-]. simpl in *. lia. }
  assert (Hfrac : forall s f r, parse_frac s = Some (f, r) ->
                                (String.length r <= String.length s)%nat).
  { intros [|c r0] f r; simpl; [by intros [= <- <-]|].
    destruct (code c =? 46)%N; [|by intros [= <- <-]].
    destruct (digits1 r0) as [[d r1]|] eqn:Hd; [|done].
    apply digits1_length in Hd. intros [= <- <-]. lia. }
  assert (Hexp : forall s e r, parse_exp s = Some (e, r) ->
                               (String.length r <= String.length s)%nat).
  { intros [|c r0] e r; simpl; [by intros [= <- <-]|].
    destruct (_ || _)%N; [|by intros [= <- <-]].
    destruct r0 as [|sg r1]; [done|].
    destruct (_ || _)%N.
    - destruct (digits1 r1) as [[d r2]|] eqn:Hd; [|done].
      apply digits1_length in Hd. intros [= <- <-]. simpl in *. lia.
    - destruct (digits1 (String sg r1)) as [[d r2]|] eqn:Hd; [|done].
      apply digits1_length in Hd. intros [= <- <-]. simpl in *. lia. }
  assert (Huns : forall s u r, parse_unsigned s = Some (u, r) ->
                               (String.length r <= String.length s)%nat).
  { intros s0 u r. unfold parse_unsigned.
    destruct (parse_int s0) as [[i s1]|] eqn:H1; [|done].
    destruct (parse_frac s1) as [[f s2]|] eqn:H2; [|done].
    destruct (parse_exp s2) as [[e s3]|] eqn:H3; [|done].
    intros [= <- <-]. apply Hint in H1. apply Hfrac in H2. apply Hexp in H3. lia. }
  destruct s as [|c r]; [done|]. simpl.
  destruct (code c =? 45)%N.
  - destruct (parse_unsigned r) as [[u r1]|] eqn:Hu; [|done].
    apply Huns in Hu. intros [= <- <-]. lia.
  - intros H. by apply Huns in H.
Qed.

Lemma strip_prefix_length lit s rest :
  strip_prefix lit s = Some rest -> (String.length rest <= String.length s)%nat.
Proof.
  revert s. induction lit as [|a lit IH]; intros [|b s]; simpl; try done.
  - by intros [= <-].
  - by intros [= <-].
  - destruct (Ascii.eqb a b); [|done]. intros H%IH. lia.
Qed.

Lemma parse_literal_length lit v s w rest :
  parse_literal lit v s = POk w rest -> (String.length rest <= String.length s)%nat.
Proof.
  unfold parse_literal. destruct (strip_prefix lit s) as [r|] eqn:H; [|done].
  intros [= <- <-]. by eapply strip_prefix_length.
Qed.

Lemma parse_literal_fuel lit v s : parse_literal lit v s <> PFuel.
Proof. unfold parse_literal. by destruct (strip_prefix lit s). Qed.

(** With more fuel than the text has characters, no parser runs out of fuel,
    and the text a parser leaves is no longer than the text it was given. *)
Lemma parser_fuel fuel :
  (forall s, (String.length s < fuel)%nat ->
     parse_value fuel s <> PFuel
     /\ forall v rest, parse_value fuel s = POk v rest ->
                       (String.length rest <= String.length s)%nat)
  /\ (forall s, (String.length s < fuel)%nat ->
        parse_elements fuel s <> PFuel
        /\ forall v rest, parse_elements fuel s = POk v rest ->
                          (String.length rest <= String.length s)%nat)
  /\ (forall s, (String.length s < fuel)%nat ->
        parse_members fuel s <> PFuel
        /\ forall v rest, parse_members fuel s = POk v rest ->
                          (String.length rest <= String.length s)%nat).
Proof.
  induction fuel as [|fuel (IHv & IHe & IHm)]; [by repeat split; intros; lia|].
  split; [|split]; intros s Hs; pose proof (skip_ws_length s) as Hws.
  - cbn [parse_value].
    destruct (skip_ws s) as [|c r]; [done|]. simpl in Hws.
    destruct (code c =? 123)%N.
    { pose proof (skip_ws_length r) as Hr.
      destruct (skip_ws r) as [|c1 r1]; [done|]. simpl in Hr.
      destruct (code c1 =? 125)%N; [split; [done|]; intros ?? [= <- <-]; lia|].
      destruct (parse_key r) as [[k r2]|] eqn:Hk; [|done].
      apply parse_key_length in Hk.
      destruct (IHv r2 ltac:(lia)) as [Hf Hl].
      destruct (parse_value fuel r2) as [v r3| |]; [|done..].
      specialize (Hl _ _ eq_refl).
      destruct (IHm r3 ltac:(lia)) as [Hf' Hl'].
      destruct (parse_members fuel r3) as [ms r4| |]; [|done..].
      specialize (Hl' _ _ eq_refl).
      split; [done|]. intros ?? [= <- <-]. lia. }
    destruct (code c =? 91)%N.
    { pose proof (skip_ws_length r) as Hr.
      destruct (skip_ws r) as [|c1 r1]; [done|]. simpl in Hr.
      destruct (code c1 =? 93)%N; [split; [done|]; intros ?? [= <- <-]; lia|].
      destruct (IHv r ltac:(lia)) as [Hf Hl].
      destruct (parse_value fuel r) as [v r2| |]; [|done..].
      specialize (Hl _ _ eq_refl).
      destruct (IHe r2 ltac:(lia)) as [Hf' Hl'].
      destruct (parse_elements fuel r2) as [vs r3| |]; [|done..].
      specialize (Hl' _ _ eq_refl).
      split; [done|]. intros ?? [= <- <-]. lia. }
    destruct (code c =? 34)%N.
    { destruct (parse_string r) as [[v rest]|] eqn:Hstr; [|done].
      apply parse_string_length in Hstr.
      split; [done|]. intros ?? [= <- <-]. lia. }
    destruct (code c =? 116)%N.
    { split; [apply parse_literal_fuel|].
      intros v rest H%parse_literal_length. lia. }
    destruct (code c =? 102)%N.
    { split; [apply parse_literal_fuel|].
      intros v rest H%parse_literal_length. lia. }
    destruct (code c =? 110)%N.
    { split; [apply parse_literal_fuel|].
      intros v rest H%parse_literal_length. lia. }
    destruct (parse_number (String c r)) as [[n rest]|] eqn:Hn; [|done].
    apply parse_number_length in Hn. simpl in Hn.
    split; [done|]. intros ?? [= <- <-]. lia.
  - cbn [parse_elements].
    destruct (skip_ws s) as [|c r]; [done|]. simpl in Hws.
    destruct (code c =? 93)%N; [split; [done|]; intros ?? [= <- <-]; lia|].
    destruct (code c =? 44)%N; [|done].
    destruct (IHv r ltac:(lia)) as [Hf Hl].
    destruct (parse_value fuel r) as [v r1| |]; [|done..].
    specialize (Hl _ _ eq_refl).
    destruct (IHe r1 ltac:(lia)) as [Hf' Hl'].
    destruct (parse_elements fuel r1) as [vs r2| |]; [|done..].
    specialize (Hl' _ _ eq_refl).
    split; [done|]. intros ?? [= <- <-]. lia.
  - cbn [parse_members].
    destruct (skip_ws s) as [|c r]; [done|]. simpl in Hws.
    destruct (code c =? 125)%N; [split; [done|]; intros ?? [= <- <-]; lia|].
    destruct (code c =? 44)%N; [|done].
    destruct (parse_key r) as [[k r1]|] eqn:Hk; [|done].
    apply parse_key_length in Hk.
    destruct (IHv r1 ltac:(lia)) as [Hf Hl].
    destruct (parse_value fuel r1) as [v r2| |]; [|done..].
    specialize (Hl _ _ eq_refl).
    destruct (IHm r2 ltac:(lia)) as [Hf' Hl'].
    destruct (parse_members fuel r2) as [ms r3| |]; [|done..].
    specialize (Hl' _ _ eq_refl).
    split; [done|]. intros ?? [= <- <-]. lia.
Qed.

(** [JSON_parse] gives the parser enough fuel. *)
Lemma JSON_parse_fuel text : parse_value (S (String.length text)) text <> PFuel.
Proof.
  destruct (parser_fuel (S (String.length text))) as [Hv _].
  apply Hv. lia.
Qed.

(** A result reached with some fuel is the result with more fuel. *)
Lemma parser_fuel_step fuel :
  (forall s r, parse_value fuel s = r -> r <> PFuel -> parse_value (S fuel) s = r)
  /\ (forall s r, parse_elements fuel s = r -> r <> PFuel ->
                  parse_elements (S fuel) s = r)
  /\ (forall s r, parse_members fuel s = r -> r <> PFuel ->
                  parse_members (S fuel) s = r).
Proof.
  induction fuel as [|fuel (IHv & IHe & IHm)];
    [by repeat split; intros s r <- Hr|].
  split; [|split]; intros s r H Hr.
  - cbn [parse_value] in H. remember (S fuel) as fuel1 eqn:Hfuel1. cbn [parse_value].
    destruct (skip_ws s) as [|c r0]; [done|].
    destruct (code c =? 123)%N.
    { destruct (skip_ws r0) as [|c1 r1]; [done|].
      destruct (code c1 =? 125)%N; [done|].
      destruct (parse_key r0) as [[k r2]|]; [|done].
      destruct (parse_value fuel r2) as [v r3| |] eqn:Hv;
      [|by rewrite (IHv _ _ Hv)|congruence].
      rewrite (IHv _ _ Hv) by done.
      destruct (parse_members fuel r3) as [ms r4| |] eqn:Hm;
      [|by rewrite (IHm _ _ Hm)|congruence].
      by rewrite (IHm _ _ Hm). }
    destruct (code c =? 91)%N.
    { destruct (skip_ws r0) as [|c1 r1]; [done|].
      destruct (code c1 =? 93)%N; [done|].
      destruct (parse_value fuel r0) as [v r2| |] eqn:Hv;
      [|by rewrite (IHv _ _ Hv)|congruence].
      rewrite (IHv _ _ Hv) by done.
      destruct (parse_elements fuel r2) as [vs r3| |] eqn:He;
      [|by rewrite (IHe _ _ He)|congruence].
      by rewrite (IHe _ _ He). }
    done.
  - cbn [parse_elements] in H. remember (S fuel) as fuel1 eqn:Hfuel1.
    cbn [parse_elements].
    destruct (skip_ws s) as [|c r0]; [done|].
    destruct (code c =? 93)%N; [done|]. destruct (code c =? 44)%N; [|done].
    destruct (parse_value fuel r0) as [v r1| |] eqn:Hv;
      [|by rewrite (IHv _ _ Hv)|congruence].
    rewrite (IHv _ _ Hv) by done.
    destruct (parse_elements fuel r1) as [vs r2| |] eqn:He;
      [|by rewrite (IHe _ _ He)|congruence].
    by rewrite (IHe _ _ He).
  - cbn [parse_members] in H. remember (S fuel) as fuel1 eqn:Hfuel1.
    cbn [parse_members].
    destruct (skip_ws s) as [|c r0]; [done|].
    destruct (code c =? 125)%N; [done|]. destruct (code c =? 44)%N; [|done].
    destruct (parse_key r0) as [[k r1]|]; [|done].
    destruct (parse_value fuel r1) as [v r2| |] eqn:Hv;
      [|by rewrite (IHv _ _ Hv)|congruence].
    rewrite (IHv _ _ Hv) by done.
    destruct (parse_members fuel r2) as [ms r3| |] eqn:Hm;
      [|by rewrite (IHm _ _ Hm)|congruence].
    by rewrite (IHm _ _ Hm).
Qed.

(** Any fuel above the length of the text gives the result of [JSON_parse]. *)
Lemma parse_value_enough_fuel text fuel :
  (String.length text < fuel)%nat ->
  parse_value fuel text = parse_value (S (String.length text)) text.
Proof.
  intros Hfuel.
  replace fuel with ((fuel - S (String.length text)) + S (String.length text))%nat by lia.
  induction (fuel - S (String.length text))%nat as [|extra IH]; [done|].
  destruct (parser_fuel_step (extra + S (String.length text))) as [Hstep _].
  change (S extra + S (String.length text))%nat
    with (S (extra + S (String.length text))).
  exact (Hstep _ _ IH (JSON_parse_fuel text)).
Qed.

Lemma startsWith_append p s : startsWith (p +:+ s) p = true.
Proof.
  unfold startsWith. induction p as [|a p IH].
  - by destruct s.
  - rewrite append_cons. simpl. by destruct (ascii_dec a a).
Qed.

Lemma utf8_valid_ascii s :
  forallb (fun c => (code c <? 128)%N) (list_ascii_of_string s) = true -> utf8_valid s.
Proof.
  induction s as [|c s IH]; simpl; [constructor|].
  intros [Hc Hs]%andb_prop. apply utf8_one; auto.
Qed.

Lemma utf8_valid_buildPK clinicId patientId :
  utf8_valid clinicId -> utf8_valid patientId -> utf8_valid (buildPK clinicId patientId).
Proof.
  intros Hc Hp. unfold buildPK.
  repeat first [apply utf8_valid_app | done | by apply utf8_valid_ascii].
Qed.

Lemma utf8_valid_buildSK studyDate noteId :
  utf8_valid studyDate -> utf8_valid noteId -> utf8_valid (buildSK studyDate noteId).
Proof.
  intros Hd Hn. unfold buildSK.
  repeat first [apply utf8_valid_app | done | by apply utf8_valid_ascii].
Qed.

(** Decoding undoes encoding on the key pairs [decodeCursor] accepts. *)
Lemma decodeCursor_encodeCursor k :
  utf8_valid (PK k) -> utf8_valid (SK k) ->
  startsWith (PK k) "CLINIC#" = true -> startsWith (SK k) "NOTE#" = true ->
  decodeCursor (encodeCursor k) = Some k.
Proof.
  intros Hpk Hsk Hc Hn. unfold decodeCursor.
  rewrite decodeCursor_try_encode by done. by rewrite Hc, Hn.
Qed.

(** A cursor is never the empty string. *)
Lemma truthy_encodeCursor k : truthy (encodeCursor k) = true.
Proof.
  unfold encodeCursor, JSON_stringify, quoteJSONString.
  rewrite !append_cons.
  match goal with |- context [String dquote ?r] => destruct r end; reflexivity.
Qed.

(** What [decodeCursor] returns, from what the payload parses to. *)
Lemma decodeCursor_payload cursor value :
  JSON_parse (utf8_toString (base64url_decode cursor)) = inr value ->
  decodeCursor cursor
  = match get_property value "PK", get_property value "SK" with
    | inr (Some (JString pk)), inr (Some (JString sk)) =>
        if startsWith pk "CLINIC#" && startsWith sk "NOTE#"
        then Some {| PK := pk; SK := sk |}
        else None
    | _, _ => None
    end.
Proof.
  intros Hparse. unfold decodeCursor, decodeCursor_try. rewrite Hparse.
  destruct (get_property value "PK") as [e|[[]|]]; try done;
    destruct (get_property value "SK") as [e'|[[]|]]; try done.
  by destruct (startsWith s "CLINIC#"), (startsWith s0 "NOTE#").
Qed.

(** C5, as the code has it.  Decoding undoes encoding on every key pair of the
    prefix families: a partition key that starts with [CLINIC#], in particular
    every key [buildPK] makes, and a sort key that starts with [NOTE#], in
    particular every key [buildSK] makes.  On every input string [decodeCursor]
    returns a key pair of these families or undefined, and never throws: the
    errors thrown inside its [try] block, by [JSON.parse] on a payload that is
    not JSON and by a property read on [null], are caught and give undefined.
    It returns undefined when the payload is not JSON, when what it parses to
    is not an object, when that object has no string under [PK] or under
    [SK], and when one of the two strings is outside its prefix family;
    otherwise it returns the two strings.  So a cursor is accepted exactly
    when its payload is an object with a string [PK] that starts with
    [CLINIC#] and a string [SK] that starts with [NOTE#], whoever made it.
    Strings are held as their UTF-8 bytes, so the keys of the round trip are
    well-formed byte strings. *)
Theorem cursor_codec_round_trip :
  (forall k,
     utf8_valid (PK k) -> utf8_valid (SK k) ->
     startsWith (PK k) "CLINIC#" = true -> startsWith (SK k) "NOTE#" = true ->
     decodeCursor (encodeCursor k) = Some k)
  /\ (forall clinicId patientId studyDate noteId,
        utf8_valid clinicId -> utf8_valid patientId ->
        utf8_valid studyDate -> utf8_valid noteId ->
        decodeCursor
          (encodeCursor {| PK := buildPK clinicId patientId;
                           SK := buildSK studyDate noteId |})
        = Some {| PK := buildPK clinicId patientId; SK := buildSK studyDate noteId |})
  /\ (forall k,
        utf8_valid (PK k) -> utf8_valid (SK k) ->
        startsWith (PK k) "CLINIC#" = false \/ startsWith (SK k) "NOTE#" = false ->
        decodeCursor (encodeCursor k) = None)
  /\ (forall cursor,
        (exists e, decodeCursor_try cursor = inl e /\ decodeCursor cursor = None)
        \/ (exists result, decodeCursor_try cursor = inr result
                           /\ decodeCursor cursor = result))
  /\ (forall cursor e,
        JSON_parse (utf8_toString (base64url_decode cursor)) = inl e ->
        decodeCursor cursor = None)
  /\ (forall cursor value,
        JSON_parse (utf8_toString (base64url_decode cursor)) = inr value ->
        (forall members, value <> JObject members) ->
        decodeCursor cursor = None)
  /\ (forall cursor value,
        JSON_parse (utf8_toString (base64url_decode cursor)) = inr value ->
        (forall pk, get_property value "PK" <> inr (Some (JString pk)))
        \/ (forall sk, get_property value "SK" <> inr (Some (JString sk))) ->
        decodeCursor cursor = None)
  /\ (forall cursor value pk sk,
        JSON_parse (utf8_toString (base64url_decode cursor)) = inr value ->
        get_property value "PK" = inr (Some (JString pk)) ->
        get_property value "SK" = inr (Some (JString sk)) ->
        decodeCursor cursor
        = if startsWith pk "CLINIC#" && startsWith sk "NOTE#"
          then Some {| PK := pk; SK := sk |}
          else None)
  /\ (forall cursor k,
        decodeCursor cursor = Some k
        <-> exists members,
              JSON_parse (utf8_toString (base64url_decode cursor)) = inr (JObject members)
              /\ own_property "PK" members = Some (JString (PK k))
              /\ own_property "SK" members = Some (JString (SK k))
              /\ startsWith (PK k) "CLINIC#" = true
              /\ startsWith (SK k) "NOTE#" = true)
  /\ decodeCursor (encodeCursor sample_cursor_key) = Some sample_cursor_key
  /\ decodeCursor "not-valid-base64!@#$" = None
  /\ decodeCursor (base64url_encode "not json") = None.
Proof.
  split; [apply decodeCursor_encodeCursor|].
  split; [|split; [|split; [|split; [|split; [|split; [|split; [|split]]]]]]].
  - intros clinicId patientId studyDate noteId Hc Hp Hd Hn.
    apply decodeCursor_encodeCursor; cbn [PK SK];
      [by apply utf8_valid_buildPK|by apply utf8_valid_buildSK
      |apply startsWith_append|apply startsWith_append].
  - intros k Hpk Hsk Hout. unfold decodeCursor.
    rewrite decodeCursor_try_encode by done.
    destruct Hout as [-> | ->]; [done|]. by rewrite orb_true_r.
  - intros cursor. unfold decodeCursor.
    destruct (decodeCursor_try cursor) as [e|result]; [left|right]; by eexists.
  - intros cursor e He. unfold decodeCursor, decodeCursor_try. by rewrite He.
  - intros cursor value Hparse Hvalue. rewrite (decodeCursor_payload _ _ Hparse).
    destruct value; try done. by destruct (Hvalue members).
  - intros cursor value Hparse Hnone. rewrite (decodeCursor_payload _ _ Hparse).
    destruct (get_property value "PK") as [e|[[]|]]; try done;
      destruct (get_property value "SK") as [e'|[[]|]]; try done.
    destruct Hnone as [Hnone|Hnone]; [by destruct (Hnone s)|by destruct (Hnone s0)].
  - intros cursor value pk sk Hparse Hpk Hsk.
    by rewrite (decodeCursor_payload _ _ Hparse), Hpk, Hsk.
  - intros cursor k. split.
    + intros Hk.
      destruct (JSON_parse (utf8_toString (base64url_decode cursor)))
        as [e|value] eqn:Hparse.
      { unfold decodeCursor, decodeCursor_try in Hk. by rewrite Hparse in Hk. }
      rewrite (decodeCursor_payload _ _ Hparse) in Hk.
      destruct value as [| | | | |members]; try done. simpl in Hk.
      exists members. split; [done|].
      destruct (own_property "PK" members) as [[]|]; try done;
        destruct (own_property "SK" members) as [[]|]; try done.
      destruct (startsWith s "CLINIC#") eqn:H1, (startsWith s0 "NOTE#") eqn:H2;
        simpl in Hk; try done.
      by injection Hk as <-.
    + intros (members & Hparse & Hpk & Hsk & H1 & H2).
      rewrite (decodeCursor_payload _ _ Hparse). simpl.
      rewrite Hpk, Hsk, H1, H2. by destruct k.
  - split; [|split]; vm_compute; reflexivity.
Qed.

Lemma cursor_codec_round_trip_witness :
  decodeCursor
    (encodeCursor {| PK := buildPK "clinic-abc" "patient-123";
                     SK := buildSK "2024-01-15" "note-id-123" |})
  = Some {| PK := buildPK "clinic-abc" "patient-123";
            SK := buildSK "2024-01-15" "note-id-123" |}.
Proof.
  destruct cursor_codec_round_trip as (_ & Hkeys & _).
  apply Hkeys; by apply utf8_valid_ascii.
Defined.

(** C5 as stated fails on tampered cursors: the codec has no integrity check,
    so a cursor with one character changed that still decodes to a key pair of
    the prefix families is accepted, as the cursor of another key; and the
    partition-key check is the prefix [CLINIC#] only, so a partition key with
    no patient part is accepted too. *)
Lemma decodeCursor_accepts_tampered_cursor :
  encodeCursor sample_cursor_key
  = "eyJQSyI6IkNMSU5JQyNjbGluaWMtYWJjI1BBVElFTlQjcGF0aWVudC0xMjMiLCJTSyI6Ik5PVEUjMjAyNC0wMS0xNSNub3RlLWlkLTEyMyJ9"
  /\ decodeCursor tampered_cursor
     = Some {| PK := "CLINIC#clinic-abc#PATIENT#patient-123";
               SK := "NOTE#2024-01-15#note-id-127" |}
  /\ decodeCursor tampered_cursor <> None
  /\ decodeCursor (encodeCursor {| PK := "CLINIC#clinic-abc"; SK := "NOTE#" |})
     = Some {| PK := "CLINIC#clinic-abc"; SK := "NOTE#" |}.
Proof.
  split; [vm_compute; reflexivity|].
  split; [vm_compute; reflexivity|].
  split; [vm_compute; discriminate|vm_compute; reflexivity].
Qed.

(** ** Pagination *)

#[local] Instance sk_descending_trans : Transitive sk_descending.
Proof. intros x y z Hxy Hyz. unfold sk_descending in *. by etrans. Qed.

#[local] Instance sk_descending_total : Total sk_descending.
Proof. intros x y. unfold sk_descending. apply (total String.le). Qed.

Lemma StronglySorted_sublist {A} (R : relation A) k l :
  k `sublist_of` l -> StronglySorted R l -> StronglySorted R k.
Proof.
  induction 1 as [|x k l Hsub IH|x k l Hsub IH]; intros Hl.
  - done.
  - apply StronglySorted_inv in Hl as [Hl Hx]. constructor; [by apply IH|].
    eapply Forall_forall. intros y Hy. eapply Forall_forall in Hx; [done|].
    by eapply sublist_subseteq.
  - apply StronglySorted_inv in Hl as [Hl _]. by apply IH.
Qed.

Lemma sorted_entries_items (entries : list (Key * Item.t)) :
  StronglySorted sk_descending entries ->
  Forall (fun e => e.1.2 = Item.SK e.2) entries ->
  items_descending (entries.*2).
Proof.
  unfold items_descending.
  induction 1 as [|e entries Hsorted IH Hhead]; intros Hkeys; csimpl.
  - constructor.
  - apply Forall_cons in Hkeys as [He Hkeys]. constructor; [by apply IH|].
    apply Forall_fmap. eapply Forall_forall. intros e' He'.
    eapply Forall_forall in Hhead; [|done]. eapply Forall_forall in Hkeys; [|done].
    unfold sk_descending in Hhead. simpl. by rewrite <- He, <- Hkeys.
Qed.

(** A query reads at most [Limit] items, and a backward query of a consistent
    table returns them by descending sort key. *)
Lemma QueryCommand_page input t out t' :
  QueryCommand input t = (Return out, t') ->
  (forall n, Query.Limit input = Some n ->
             Z.of_nat (length (Query.Items out)) <= n)
  /\ (consistent t -> Query.ScanIndexForward input = false ->
      items_descending (Query.Items out)).
Proof.
  unfold QueryCommand. destruct (_ && _) eqn:Hok; [|done].
  intros [= <- <-]. simpl. split.
  - intros n Hn. rewrite Hn in *. rewrite length_fmap.
    apply andb_prop in Hok as [Hok _].
    apply andb_prop in Hok as [Hlimit _]. apply Z.leb_le in Hlimit.
    etrans; [apply inj_le, length_filter|].
    rewrite length_take. lia.
  - intros Ht Hback. apply sorted_entries_items.
    + eapply StronglySorted_sublist; [apply sublist_filter|].
      assert (Hscan : StronglySorted sk_descending (scan input (notes t))).
      { unfold scan. rewrite Hback. apply StronglySorted_merge_sort; apply _. }
      rewrite Hback.
      destruct (Query.Limit input), (Query.ExclusiveStartKey input);
        repeat first
          [ done
          | eapply StronglySorted_sublist; [apply sublist_take|]
          | eapply StronglySorted_sublist; [apply sublist_filter|] ].
    + apply Forall_forall. intros [key it] He. simpl.
      assert (Hin : (key, it) ∈ map_to_list (notes t)).
      { apply list_elem_of_filter in He as [_ He].
        assert ((key, it) ∈ scan input (notes t)) as Hscan.
        { destruct (Query.Limit input), (Query.ExclusiveStartKey input);
            repeat first
              [ apply (sublist_subseteq _ _ (sublist_take _ _)) in He
              | apply list_elem_of_filter in He as [_ He] ]; done. }
        unfold scan in Hscan.
        destruct (Query.ScanIndexForward input);
          rewrite merge_sort_Permutation in Hscan;
          by apply list_elem_of_filter in Hscan as [_ Hscan]. }
      apply elem_of_map_to_list in Hin. destruct (Ht _ _ Hin) as (Hkey & _).
      by rewrite Hkey.
Qed.

(** More items than the page size: the last one is dropped, and the cursor is
    made from the key of the last one kept. *)
Lemma page_more limit (items : list Item.t) :
  1 <= limit ->
  Z.of_nat (length items) = limit + 1 ->
  exists kept extra lastKept,
    items = kept ++ [extra]
    /\ last kept = Some lastKept
    /\ Z.of_nat (length kept) = limit
    /\ notesRepository.page limit items
       = {| PaginatedResponse.items := itemToNote <$> kept;
            PaginatedResponse.nextCursor :=
              Some (encodeCursor {| PK := Item.PK lastKept; SK := Item.SK lastKept |});
            PaginatedResponse.hasMore := true |}.
Proof.
  intros Hlimit Hlen.
  destruct (exists_last (l := items)) as (kept & extra & ->).
  { intros ->. simpl in Hlen. lia. }
  rewrite length_app in Hlen. simpl in Hlen.
  destruct (exists_last (l := kept)) as (kept' & lastKept & ->).
  { intros ->. simpl in Hlen. lia. }
  exists (kept' ++ [lastKept]), extra, lastKept.
  split; [done|]. split; [apply last_snoc|]. split; [lia|].
  unfold notesRepository.page.
  assert ((limit <? Z.of_nat (length ((kept' ++ [lastKept]) ++ [extra]))) = true)
    as -> by (apply Z.ltb_lt; rewrite length_app; simpl; lia).
  rewrite removelast_last.
  assert ((0 <? Z.of_nat (length (kept' ++ [lastKept]))) = true)
    as -> by (apply Z.ltb_lt; lia).
  simpl. by rewrite last_snoc.
Qed.

(** No more items than the page size: all are returned, with no cursor. *)
Lemma page_last limit (items : list Item.t) :
  Z.of_nat (length items) <= limit ->
  notesRepository.page limit items
  = {| PaginatedResponse.items := itemToNote <$> items;
       PaginatedResponse.nextCursor := None;
       PaginatedResponse.hasMore := false |}.
Proof.
  intros Hlen. unfold notesRepository.page.
  by assert ((limit <? Z.of_nat (length items)) = false) as -> by (apply Z.ltb_ge; lia).
Qed.

Lemma five_notes_world_consistent : consistent (table five_notes_world).
Proof.
  unfold five_notes_world, add_day_note.
  repeat apply create_consistent. apply consistent_empty.
Qed.

(** The entries of a backward scan: the items of the partition under the keys
    that satisfy the key condition, each once, by descending sort key. *)
Lemma scan_backward input m :
  Query.ScanIndexForward input = false ->
  StronglySorted sk_descending (scan input m)
  /\ NoDup (scan input m).*1
  /\ forall e, e ∈ scan input m ->
       m !! e.1 = Some e.2
       /\ key_matches (Query.pk input) (Query.KeyConditionExpression input) e.1 = true.
Proof.
  intros Hback. unfold scan. rewrite Hback. split; [|split].
  - apply StronglySorted_merge_sort; apply _.
  - rewrite merge_sort_Permutation.
    eapply sublist_NoDup; [apply (NoDup_fst_map_to_list m)|].
    apply fmap_sublist, sublist_filter.
  - intros [key it]. rewrite merge_sort_Permutation.
    intros [Hkey Hin]%list_elem_of_filter. by apply elem_of_map_to_list in Hin.
Qed.

(** Resuming a backward scan after the key of one of its entries gives the
    entries that follow it. *)
Lemma resume_after_entry pk (pre post : list (Key * Item.t)) e k :
  StronglySorted sk_descending (pre ++ e :: post) ->
  NoDup (pre ++ e :: post).*1 ->
  (forall x, x ∈ pre ++ e :: post -> x.1.1 = pk) ->
  SK k = e.1.2 ->
  filter (fun x => after_start false k x = true) (pre ++ e :: post) = post.
Proof.
  intros Hsorted Hnodup Hpk Hk.
  assert (Hpre : forall x, x ∈ pre -> after_start false k x = false).
  { intros x Hx. unfold after_start. rewrite Hk.
    assert (sk_descending x e) as Hle.
    { eapply (StronglySorted_app_1_elem_of _ pre (e :: post)); [done|done|set_solver]. }
    unfold sk_descending, String.le in Hle. by destruct (String.leb _ _). }
  assert (Hpost : forall x, x ∈ post -> after_start false k x = true).
  { intros x Hx. unfold after_start. rewrite Hk.
    destruct (String.leb e.1.2 x.1.2) eqn:Hle; [|done]. exfalso.
    apply StronglySorted_app_1_r in Hsorted.
    apply StronglySorted_inv in Hsorted as [_ Hhead].
    eapply Forall_forall in Hhead; [|done].
    unfold sk_descending in Hhead.
    assert (e.1.2 = x.1.2) as Hsk.
    { apply (anti_symm String.le); [|done]. unfold String.le. by rewrite Hle. }
    assert (e.1 = x.1) as Hkey.
    { assert (e.1.1 = x.1.1) as Hpart.
      { rewrite (Hpk e), (Hpk x); [done|set_solver|set_solver]. }
      destruct e as [[? ?] ?], x as [[? ?] ?]. simpl in *. congruence. }
    rewrite fmap_app, fmap_cons in Hnodup.
    apply NoDup_app in Hnodup as (_ & _ & Hnodup).
    apply NoDup_cons in Hnodup as [Hnotin _]. apply Hnotin.
    rewrite Hkey. by apply list_elem_of_fmap_2. }
  rewrite filter_app, filter_cons_False.
  - assert (filter (fun x => after_start false k x = true) pre = []) as ->.
    { clear -Hpre. induction pre as [|x pre IH]; [done|].
      rewrite filter_cons_False; [apply IH; intros; apply Hpre; set_solver|].
      rewrite Hpre; [done|set_solver]. }
    simpl. clear -Hpost. induction post as [|x post IH]; [done|].
    rewrite filter_cons_True; [|apply Hpost; set_solver].
    f_equal. apply IH. intros. apply Hpost. set_solver.
  - unfold after_start. rewrite Hk.
    assert (String.leb e.1.2 e.1.2 = true) as ->; [|done].
    pose proof (reflexivity (R := String.le) e.1.2) as Hr.
    unfold String.le in Hr. by destruct (String.leb _ _).
Qed.

Lemma live_items_all entries :
  Forall (fun e => Item.deletedAt e.2 = None) entries -> live_items entries = entries.*2.
Proof.
  unfold live_items. induction 1 as [|e entries He _ IH]; [done|].
  rewrite filter_cons_True; [by rewrite !fmap_cons, IH|].
  simpl. by rewrite He.
Qed.

(** The first page: the live items among the first [limit + 1] entries. *)
Lemma list_first_page clinicId patientId limit w :
  1 <= limit ->
  store_up w ->
  run (notesRepository.list clinicId patientId (list_options None limit)) w
  = (Return
       (notesRepository.page limit
          (live_items
             (take (Z.to_nat (limit + 1)) (patient_entries clinicId patientId (table w))))),
     failed w).
Proof.
  intros Hlimit Hup. unfold notesRepository.list. unfold_M.
  rewrite docClient_send_up by done.
  unfold QueryCommand. simpl.
  assert ((1 <=? limit + 1) = true) as -> by (apply Z.leb_le; lia).
  reflexivity.
Qed.

(** The page after the cursor of an entry: the live items among the
    [limit + 1] entries that follow it. *)
Lemma list_next_page clinicId patientId limit w pre e post :
  1 <= limit ->
  store_up w ->
  consistent (table w) ->
  patient_entries clinicId patientId (table w) = pre ++ e :: post ->
  utf8_valid (Item.PK e.2) -> utf8_valid (Item.SK e.2) ->
  run (notesRepository.list clinicId patientId
         (list_options (Some (cursor_of e.2)) limit)) w
  = (Return
       (notesRepository.page limit (live_items (take (Z.to_nat (limit + 1)) post))),
     failed w).
Proof.
  intros Hlimit Hup Hw Hentries Hpk Hsk.
  destruct (scan_backward
    (notesRepository.listQuery clinicId patientId (list_options None 1))
    (notes (table w)) eq_refl) as (Hsorted & Hnodup & Hin).
  fold (patient_entries clinicId patientId (table w)) in Hsorted, Hnodup, Hin.
  rewrite Hentries in Hsorted, Hnodup, Hin.
  assert (Hmem : e ∈ pre ++ e :: post) by (clear; set_solver).
  pose proof (Hin e Hmem) as [He Hmatch].
  destruct (Hw _ _ He) as (Hkey & _). simpl in Hmatch.
  assert (Hstart : decodeCursor (cursor_of e.2)
                   = Some {| PK := Item.PK e.2; SK := Item.SK e.2 |}).
  { rewrite Hkey in Hmatch. unfold key_matches in Hmatch. simpl in Hmatch.
    apply andb_prop in Hmatch as [Hp Hs]. apply String.eqb_eq in Hp.
    apply decodeCursor_encodeCursor; simpl; try done.
    rewrite Hp. apply startsWith_append. }
  unfold notesRepository.list. unfold_M.
  rewrite docClient_send_up by done.
  unfold QueryCommand, notesRepository.listQuery.
  cbn [ListNotesOptions.cursor ListNotesOptions.limit ListNotesOptions.tag
       ListNotesOptions.studyDateFrom ListNotesOptions.studyDateTo list_options
       Query.Limit Query.ExclusiveStartKey Query.pk Query.KeyConditionExpression
       Query.FilterExpression Query.ScanIndexForward].
  unfold cursor_of in *. rewrite truthy_encodeCursor, Hstart.
  assert ((1 <=? limit + 1) = true) as -> by (apply Z.leb_le; lia).
  cbn [PK SK]. rewrite <- Hkey.
  replace (_, _) with e.1 by by destruct e as [[] ?].
  replace (key_matches _ _ e.1) with true. cbn [andb fst snd].
  change (scan _ (notes (table w))) with (patient_entries clinicId patientId (table w)).
  rewrite Hentries.
  rewrite (resume_after_entry (buildPK clinicId patientId)); try done.
  - intros x Hx. destruct (Hin x Hx) as [_ Hm]. unfold key_matches in Hm.
    apply andb_prop in Hm as [Hp _]. by apply String.eqb_eq in Hp.
  - simpl. by rewrite Hkey.
Qed.

(** C6. [list] asks the store for [limit + 1] items in descending sort-key
    order.  When [limit + 1] items come back it drops the last one and returns
    the [limit] others with [hasMore] and a cursor made from the key of the
    last item kept; when at most [limit] come back it returns them all, with
    no cursor.  So paging two at a time through a partition of five live
    notes gives the two most recent with the cursor of the second, then the
    next two with the cursor of the fourth, then the last one with no
    cursor. *)
Theorem list_pages_by_limit_plus_one clinicId patientId options w :
  let limit := ListNotesOptions.limit options in
  let query := notesRepository.listQuery clinicId patientId options in
  1 <= limit ->
  consistent (table w) ->
  store_up w ->
  Query.Limit query = Some (limit + 1)
  /\ Query.ScanIndexForward query = false
  /\ (forall items,
        QueryCommand query (table w) = (Return {| Query.Items := items |}, table w) ->
        Z.of_nat (length items) <= limit + 1
        /\ items_descending items
        /\ run (notesRepository.list clinicId patientId options) w
           = (Return (notesRepository.page limit items), failed w)
        /\ (Z.of_nat (length items) = limit + 1 ->
            exists kept extra lastKept,
              items = kept ++ [extra]
              /\ last kept = Some lastKept
              /\ Z.of_nat (length kept) = limit
              /\ notesRepository.page limit items
                 = {| PaginatedResponse.items := itemToNote <$> kept;
                      PaginatedResponse.nextCursor :=
                        Some (encodeCursor {| PK := Item.PK lastKept;
                                              SK := Item.SK lastKept |});
                      PaginatedResponse.hasMore := true |})
        /\ (Z.of_nat (length items) <= limit ->
            notesRepository.page limit items
            = {| PaginatedResponse.items := itemToNote <$> items;
                 PaginatedResponse.nextCursor := None;
                 PaginatedResponse.hasMore := false |}))
  /\ (forall e1 e2 e3 e4 e5,
        patient_entries clinicId patientId (table w) = [e1; e2; e3; e4; e5] ->
        Forall live_entry [e1; e2; e3; e4; e5] ->
        run (notesRepository.list clinicId patientId (list_options None 2)) w
          = (Return
               {| PaginatedResponse.items := itemToNote <$> [e1.2; e2.2];
                  PaginatedResponse.nextCursor := Some (cursor_of e2.2);
                  PaginatedResponse.hasMore := true |},
             failed w)
        /\ run (notesRepository.list clinicId patientId
                  (list_options (Some (cursor_of e2.2)) 2)) w
           = (Return
                {| PaginatedResponse.items := itemToNote <$> [e3.2; e4.2];
                   PaginatedResponse.nextCursor := Some (cursor_of e4.2);
                   PaginatedResponse.hasMore := true |},
              failed w)
        /\ run (notesRepository.list clinicId patientId
                  (list_options (Some (cursor_of e4.2)) 2)) w
           = (Return
                {| PaginatedResponse.items := itemToNote <$> [e5.2];
                   PaginatedResponse.nextCursor := None;
                   PaginatedResponse.hasMore := false |},
              failed w)).
Proof.
  intros limit query Hlimit Hw Hup.
  split; [done|]. split; [done|]. split.
  - intros items Hq.
    destruct (QueryCommand_page _ _ _ _ Hq) as [Hlen Hsorted]. simpl in *.
    split; [by apply Hlen|]. split; [by apply Hsorted|]. split.
    + unfold notesRepository.list. unfold_M.
      rewrite docClient_send_up by done. fold query. by rewrite Hq.
    + split; [by apply page_more|by apply page_last].
  - intros e1 e2 e3 e4 e5 Hentries Hlive.
    assert (Hall : Forall (fun e => Item.deletedAt e.2 = None) [e1; e2; e3; e4; e5]).
    { eapply Forall_impl; [done|]. by intros e (? & _). }
    apply Forall_cons in Hlive as [_ Hlive].
    apply Forall_cons in Hlive as [(_ & Hpk2 & Hsk2) Hlive].
    apply Forall_cons in Hlive as [_ Hlive].
    apply Forall_cons in Hlive as [(_ & Hpk4 & Hsk4) _].
    split; [|split].
    + rewrite list_first_page by done. rewrite Hentries.
      change (take (Z.to_nat (2 + 1)) [e1; e2; e3; e4; e5]) with [e1; e2; e3].
      rewrite live_items_all; [done|].
      exact (Forall_take _ 3%nat _ Hall).
    + rewrite (list_next_page clinicId patientId 2 w [e1] e2 [e3; e4; e5]) by done.
      change (take (Z.to_nat (2 + 1)) [e3; e4; e5]) with [e3; e4; e5].
      rewrite live_items_all; [done|].
      by do 2 apply Forall_cons in Hall as [_ Hall].
    + rewrite (list_next_page clinicId patientId 2 w [e1; e2; e3] e4 [e5]) by done.
      change (take (Z.to_nat (2 + 1)) [e5]) with [e5].
      rewrite live_items_all; [done|].
      by do 4 apply Forall_cons in Hall as [_ Hall].
Qed.

Lemma five_notes_world_entries :
  patient_entries "clinic-abc" "patient-123" (table five_notes_world)
  = [day_entry "n5" "2024-01-05" "Note 5"; day_entry "n4" "2024-01-04" "Note 4";
     day_entry "n3" "2024-01-03" "Note 3"; day_entry "n2" "2024-01-02" "Note 2";
     day_entry "n1" "2024-01-01" "Note 1"].
Proof. vm_compute. reflexivity. Qed.

Lemma live_entry_day_entry noteId studyDate title :
  forallb (fun c => (code c <? 128)%N) (list_ascii_of_string studyDate) = true ->
  forallb (fun c => (code c <? 128)%N) (list_ascii_of_string noteId) = true ->
  live_entry (day_entry noteId studyDate title).
Proof.
  intros Hd Hn. split; [done|]. split.
  - by apply utf8_valid_ascii.
  - apply utf8_valid_buildSK; by apply utf8_valid_ascii.
Qed.

Lemma list_pages_by_limit_plus_one_witness :
  Query.Limit (notesRepository.listQuery "clinic-abc" "patient-123" (list_options None 2))
    = Some 3
  /\ run (notesRepository.list "clinic-abc" "patient-123" (list_options None 2))
         five_notes_world
     = (Return
          {| PaginatedResponse.items :=
               itemToNote <$> [day_note "n5" "2024-01-05" "Note 5";
                               day_note "n4" "2024-01-04" "Note 4"];
             PaginatedResponse.nextCursor :=
               Some (cursor_of (day_note "n4" "2024-01-04" "Note 4"));
             PaginatedResponse.hasMore := true |},
        failed five_notes_world)
  /\ run (notesRepository.list "clinic-abc" "patient-123"
            (list_options (Some (cursor_of (day_note "n4" "2024-01-04" "Note 4"))) 2))
         five_notes_world
     = (Return
          {| PaginatedResponse.items :=
               itemToNote <$> [day_note "n3" "2024-01-03" "Note 3";
                               day_note "n2" "2024-01-02" "Note 2"];
             PaginatedResponse.nextCursor :=
               Some (cursor_of (day_note "n2" "2024-01-02" "Note 2"));
             PaginatedResponse.hasMore := true |},
        failed five_notes_world)
  /\ run (notesRepository.list "clinic-abc" "patient-123"
            (list_options (Some (cursor_of (day_note "n2" "2024-01-02" "Note 2"))) 2))
         five_notes_world
     = (Return
          {| PaginatedResponse.items :=
               itemToNote <$> [day_note "n1" "2024-01-01" "Note 1"];
             PaginatedResponse.nextCursor := None;
             PaginatedResponse.hasMore := false |},
        failed five_notes_world).
Proof.
  destruct (list_pages_by_limit_plus_one "clinic-abc" "patient-123"
              (list_options None 2) five_notes_world)
    as (Hquery & _ & _ & Hfive).
  - simpl. lia.
  - apply five_notes_world_consistent.
  - exact I.
  - split; [exact Hquery|].
    apply (Hfive _ _ _ _ _ five_notes_world_entries).
    repeat first [apply Forall_nil_2 | apply Forall_cons_2];
      by apply live_entry_day_entry.
Defined.

(** * Further properties *)

(** ** What the repository keeps of its items *)

Lemma all_well_kept_insert t it :
  well_kept it ->
  all_well_kept t ->
  all_well_kept (with_notes t (<[(Item.PK it, Item.SK it) := it]> (notes t))).
Proof.
  intros Hit Ht key it'. simpl. intros Hlookup.
  apply lookup_insert_Some in Hlookup as [[<- <-]|[_ Hlookup]]; [done|].
  by apply Ht.
Qed.

Lemma all_well_kept_table t t' :
  notes t' = notes t -> all_well_kept t -> all_well_kept t'.
Proof. unfold all_well_kept. by intros ->. Qed.

Lemma well_kept_create_item noteId now clinicId patientId userId username input :
  well_kept
    (notesRepository.create_item noteId now clinicId patientId userId username input).
Proof. repeat split; simpl; try done; by eexists. Qed.

Lemma well_kept_revised it now userId username input :
  well_kept it -> well_kept (revised it now userId username input).
Proof.
  intros (Hpk & Hsk & Hv & He & Ht & Ha & Hd & Hdd).
  repeat split; simpl; try done; try lia; try apply Hdd.
  destruct (UpdateNoteInput.attachments input); [by eexists|done].
Qed.

Lemma well_kept_tombstone it now userId :
  now <> EmptyString -> well_kept it -> well_kept (tombstone it now userId).
Proof.
  intros Hnow (Hpk & Hsk & Hv & He & Ht & Ha & Hd & Hdd).
  repeat split; simpl; try done; congruence.
Qed.

Lemma after_call_well_kept c w :
  clock_read c -> all_well_kept (table w) -> all_well_kept (table (after_call c w)).
Proof.
  intros Hclock Hw. destruct c; simpl.
  - destruct (create_outcome noteId now clinicId patientId userId username input w)
      as [(e & _ & ->)|(_ & _ & ->)]; [done|].
    apply (all_well_kept_insert (table w)
      (notesRepository.create_item noteId now clinicId patientId userId username input));
      [apply well_kept_create_item|done].
  - unfold notesRepository.findById. unfold_M.
    destruct (docClient_send_table (GetCommand
      {| Get.Key := (buildPK clinicId patientId, buildSK studyDate noteId) |}) w)
      as [[name ->]| ->]; [done|]. simpl.
    destruct (notes (table w) !! _) as [it|]; [|done].
    by destruct (truthy_opt _).
  - unfold notesRepository.findByIdWithoutStudyDate. unfold_M.
    match goal with |- context [docClient_send ?c w] =>
      destruct (docClient_send_table c w) as [[name ->]| ->]; [done|];
      destruct (c (table w)) as [[out|e] t'] eqn:Hq end; simpl.
    + apply QueryCommand_sound in Hq as [-> _]. by destruct (Query.Items out).
    + unfold QueryCommand in Hq. destruct (_ && _); by simplify_eq.
  - destruct (list_outcome clinicId patientId options w) as [Ht _].
    eapply all_well_kept_table; [|done]. by rewrite Ht.
  - destruct (update_outcome now clinicId patientId noteId studyDate userId username
                input w) as [(e & _ & ->)|(it & Hit & _ & _ & _ & ->)]; [done|].
    destruct (Hw _ _ Hit) as (Hkey & Hkept). rewrite Hkey.
    apply (all_well_kept_insert (table w) (revised it now userId username input));
      [by apply well_kept_revised|done].
  - destruct (softDelete_outcome now clinicId patientId noteId studyDate userId w)
      as [(e & _ & ->)|(it & Hit & _ & _ & ->)]; [done|].
    destruct (Hw _ _ Hit) as (Hkey & Hkept). rewrite Hkey.
    apply (all_well_kept_insert (table w) (tombstone it now userId));
      [by apply well_kept_tombstone|done].
  - unfold notesRepository.hardDelete. unfold_M.
    destruct (docClient_send_table (DeleteCommand
      {| Delete.Key := (buildPK clinicId patientId, buildSK studyDate noteId) |}) w)
      as [[name ->]| ->]; [done|].
    intros key it Hlookup. simpl in Hlookup.
    apply lookup_delete_Some in Hlookup as [_ Hlookup].
    by apply Hw.
Qed.

Lemma after_calls_well_kept calls w :
  Forall clock_read calls ->
  all_well_kept (table w) ->
  all_well_kept (table (after_calls calls w)).
Proof.
  revert w. induction calls as [|c calls IH]; intros w Hclock Hw; [done|].
  apply Forall_cons in Hclock as [Hc Hclock]. simpl.
  apply IH; [done|]. by apply after_call_well_kept.
Qed.

(** X1. Whatever calls of the note repository are made on an empty table, in
    whatever order, and whichever of them the store fails: every note item in
    the table sits under the key built from its own identifiers, has a
    version of at least 1 and the entity type [NOTE], has its tags and
    attachments set, and carries [deletedAt] and [deletedBy] together, the
    former never empty. *)
Theorem repository_keeps_items_well calls script key it :
  Forall clock_read calls ->
  notes (table (after_calls calls (world empty_table script))) !! key = Some it ->
  key = (buildPK (Item.clinicId it) (Item.patientId it),
         buildSK (Item.studyDate it) (Item.noteId it))
  /\ 1 <= Item.version it
  /\ Item.entityType it = "NOTE"
  /\ is_Some (Item.tags it)
  /\ is_Some (Item.attachments it)
  /\ Item.deletedAt it <> Some EmptyString
  /\ (Item.deletedAt it = None <-> Item.deletedBy it = None).
Proof.
  intros Hclock Hit.
  assert (Hkept : all_well_kept (table (after_calls calls (world empty_table script)))).
  { apply after_calls_well_kept; [done|]. intros k i Hk. simpl in Hk.
    by rewrite lookup_empty in Hk. }
  destruct (Hkept _ _ Hit) as (Hkey & Hpk & Hsk & Hrest).
  split; [by rewrite Hkey, Hpk, Hsk|done].
Qed.

Lemma repository_keeps_items_well_witness :
  exists it,
    notes (table (after_calls sample_calls (world empty_table []))) !! sample_key
      = Some it
    /\ Item.version it = 2
    /\ Item.deletedBy it = Some "user-456"
    /\ 1 <= Item.version it.
Proof.
  eexists. split; [vm_compute; reflexivity|]. split; [reflexivity|].
  split; [reflexivity|].
  eapply (repository_keeps_items_well sample_calls [] sample_key).
  - repeat constructor; discriminate.
  - vm_compute. reflexivity.
Defined.

(** ** Reading what was written *)

Lemma findById_up clinicId patientId noteId studyDate w :
  store_up w ->
  run (notesRepository.findById clinicId patientId noteId studyDate) w
  = (Return
       match notes (table w) !! (buildPK clinicId patientId, buildSK studyDate noteId) with
       | Some it => if truthy_opt (Item.deletedAt it) then None else Some (itemToNote it)
       | None => None
       end,
     failed w).
Proof.
  intros Hup. unfold notesRepository.findById. unfold_M.
  rewrite docClient_send_up by done. simpl.
  destruct (notes (table w) !! _) as [it|]; [|done].
  by destruct (truthy_opt _).
Qed.

(** X2. [create] never overwrites: when an item is under the key of the new
    note, the conditional put fails with the store's
    [ConditionalCheckFailedException] and the table is as it was.  When the key
    is free the note is stored with version 1, and [findById] with the same
    identifiers then returns the note [create] returned. *)
Theorem create_stores_or_refuses noteId now clinicId patientId userId username input w :
  let key := (buildPK clinicId patientId,
              buildSK (CreateNoteInput.studyDate input) noteId) in
  store_up w ->
  store_up (failed w) ->
  (forall it,
     notes (table w) !! key = Some it ->
     run (notesRepository.create noteId now clinicId patientId userId username input) w
     = (Throw (StoreError ConditionalCheckFailedException), failed w))
  /\ (notes (table w) !! key = None ->
      exists note w1,
        run (notesRepository.create noteId now clinicId patientId userId username input) w
        = (Return note, w1)
        /\ Note.version note = 1
        /\ Note.deletedAt note = None
        /\ (exists it, notes (table w1) = <[key := it]> (notes (table w))
                       /\ note = itemToNote it)
        /\ run (notesRepository.findById clinicId patientId noteId
                  (CreateNoteInput.studyDate input)) w1
           = (Return (Some note), failed w1)).
Proof.
  intros key Hup Hup2.
  pose proof (create_run noteId now clinicId patientId userId username input w Hup)
    as Hrun. simpl in Hrun. fold key in Hrun.
  split.
  - intros it Hit. by rewrite Hit in Hrun.
  - intros Hfree. rewrite Hfree in Hrun. eexists _, _. split; [exact Hrun|].
    split; [done|]. split; [done|]. split; [by eexists|].
    rewrite findById_up by done. simpl. fold key. by rewrite lookup_insert_eq.
Qed.

Lemma create_stores_or_refuses_witness :
  run (notesRepository.create "note-id" "2024-01-20T10:00:00.000Z" "clinic-abc"
         "patient-123" "user-999" "dr-jones" sample_input) sample_world
  = (Throw (StoreError ConditionalCheckFailedException), failed sample_world).
Proof.
  destruct (create_stores_or_refuses "note-id" "2024-01-20T10:00:00.000Z" "clinic-abc"
              "patient-123" "user-999" "dr-jones" sample_input sample_world I I)
    as [Hrefuse _].
  exact (Hrefuse _ sample_world_lookup).
Defined.

(** X3. [hardDelete] removes the item under the key of the note and nothing
    else: [findById] then returns null, every other note and every rate-limit
    record is as it was.  Deleting a note that is not there succeeds too, and
    changes nothing. *)
Theorem hardDelete_removes_the_note clinicId patientId noteId studyDate w :
  let key := (buildPK clinicId patientId, buildSK studyDate noteId) in
  store_up w ->
  store_up (failed w) ->
  exists w1,
    run (notesRepository.hardDelete clinicId patientId noteId studyDate) w
    = (Return tt, w1)
    /\ notes (table w1) !! key = None
    /\ (forall key', key' <> key -> notes (table w1) !! key' = notes (table w) !! key')
    /\ windows (table w1) = windows (table w)
    /\ (notes (table w) !! key = None -> table w1 = table w)
    /\ run (notesRepository.findById clinicId patientId noteId studyDate) w1
       = (Return None, failed w1).
Proof.
  intros key Hup Hup2. eexists. split.
  { unfold notesRepository.hardDelete. unfold_M.
    rewrite docClient_send_up by done. reflexivity. }
  simpl. fold key. split; [apply lookup_delete_eq|].
  split; [by intros key' Hne; apply lookup_delete_ne|]. split; [done|]. split.
  - intros Hfree. destruct (table w) as [n ws]. simpl in *.
    unfold with_notes. simpl. f_equal. by apply delete_id.
  - rewrite findById_up by done. simpl. fold key. by rewrite lookup_delete_eq.
Qed.

Lemma hardDelete_removes_the_note_witness :
  exists w1,
    run (notesRepository.hardDelete "clinic-abc" "patient-123" "note-id" "2024-01-15")
        sample_world = (Return tt, w1)
    /\ notes (table w1) !! sample_key = None.
Proof.
  destruct (hardDelete_removes_the_note "clinic-abc" "patient-123" "note-id"
              "2024-01-15" sample_world I I) as (w1 & Hrun & Hgone & _).
  exists w1. split; [exact Hrun|exact Hgone].
Defined.

(** X4. A soft-deleted note cannot be updated, whatever version the caller
    expects, the stored one included: [update] throws [NotFoundError], or the
    client's [Error] when the expected version is one the client cannot send,
    and the table is as it was. *)
Theorem update_of_deleted_note_is_not_found
    now clinicId patientId noteId studyDate userId username input w it d :
  let key := (buildPK clinicId patientId, buildSK studyDate noteId) in
  notes (table w) !! key = Some it ->
  Item.deletedAt it = Some d ->
  d <> EmptyString ->
  safe_integer (Item.version it) ->
  store_up w ->
  store_up (failed w) ->
  run (notesRepository.update now clinicId patientId noteId studyDate
         userId username input) (sending (update_numbers input) w)
  = (if marshals (update_numbers input)
     then (Throw (NotFoundError "Note" noteId), failed (failed w))
     else (Throw (StoreError "Error"), w))
  /\ table (failed (failed w)) = table w.
Proof.
  intros key Hit Hdel Hd _ Hup Hup2. split; [|done].
  destruct (marshals (update_numbers input)) eqn:Hsent;
    [|by apply update_unsendable].
  rewrite sending_marshals by done.
  rewrite update_condition_fails; try done.
  - fold key. rewrite Hit. simpl. rewrite Hdel. simpl.
    by rewrite truthy_nonempty.
  - fold key. rewrite Hit. unfold update_condition. simpl. rewrite Hdel.
    rewrite (bool_decide_eq_false_2 (Some d = None)) by done.
    reflexivity.
Qed.

Lemma update_of_deleted_note_is_not_found_witness :
  run (notesRepository.update "2024-01-18T10:00:00.000Z" "clinic-abc" "patient-123"
         "note-id" "2024-01-15" "user-456" "Dr. Test" (only_title "Updated" 1))
      deleted_world
  = (Throw (NotFoundError "Note" "note-id"), failed (failed deleted_world)).
Proof.
  destruct (update_of_deleted_note_is_not_found "2024-01-18T10:00:00.000Z" "clinic-abc"
              "patient-123" "note-id" "2024-01-15" "user-456" "Dr. Test"
              (only_title "Updated" 1) deleted_world
              (tombstone sample_item "2024-01-17T09:00:00.000Z" "user-456")
              "2024-01-17T09:00:00.000Z" deleted_world_lookup eq_refl)
    as [Hrun _]; [discriminate|by vm_compute|exact I|exact I|exact Hrun].
Defined.

(** X5. After a successful [update], [findById] returns the note [update]
    returned: the stored note with the input's title, content and attachments,
    the new update stamps and the next version. *)
Theorem update_then_findById
    now clinicId patientId noteId studyDate userId username input w it :
  let key := (buildPK clinicId patientId, buildSK studyDate noteId) in
  notes (table w) !! key = Some it ->
  Item.deletedAt it = None ->
  Item.version it = UpdateNoteInput.version input ->
  store_up w ->
  store_up (failed w) ->
  exists note w1,
    run (notesRepository.update now clinicId patientId noteId studyDate
           userId username input) w = (Return note, w1)
    /\ run (notesRepository.findById clinicId patientId noteId studyDate) w1
       = (Return (Some note), failed w1)
    /\ Note.version note = Item.version it + 1
    /\ Note.updatedAt note = now
    /\ Note.updatedBy note = userId
    /\ Note.noteId note = Item.noteId it
    /\ Note.createdAt note = Item.createdAt it.
Proof.
  intros key Hit Hlive Hver Hup Hup2. eexists _, _. split.
  { by apply update_succeeds. }
  split; [|done].
  rewrite findById_up by done. simpl. fold key. rewrite lookup_insert_eq. simpl.
  by rewrite Hlive.
Qed.

Lemma update_then_findById_witness :
  exists note w1,
    run (notesRepository.update "2024-01-16T10:00:00.000Z" "clinic-abc" "patient-123"
           "note-id" "2024-01-15" "user-456" "Dr. Test" (only_title "Updated" 1))
        sample_world = (Return note, w1)
    /\ run (notesRepository.findById "clinic-abc" "patient-123" "note-id" "2024-01-15") w1
       = (Return (Some note), failed w1)
    /\ Note.version note = 2.
Proof.
  destruct (update_then_findById "2024-01-16T10:00:00.000Z" "clinic-abc" "patient-123"
              "note-id" "2024-01-15" "user-456" "Dr. Test" (only_title "Updated" 1)
              sample_world sample_item sample_world_lookup eq_refl eq_refl I I)
    as (note & w1 & Hrun & Hfind & Hversion & _).
  exists note, w1. split; [exact Hrun|]. split; [exact Hfind|].
  rewrite Hversion. reflexivity.
Defined.

(** ** Finding a note by its identifier alone *)

(** The query of [findByIdWithoutStudyDate] returns the items of the partition
    under a [NOTE#] sort key that have the identifier and are live. *)
Lemma find_query_items clinicId patientId noteId t :
  let query :=
    {| Query.pk := buildPK clinicId patientId;
       Query.KeyConditionExpression := begins_with "NOTE#";
       Query.FilterExpression := [noteId_equals noteId; attribute_not_exists_deletedAt];
       Query.Limit := None;
       Query.ExclusiveStartKey := None;
       Query.ScanIndexForward := true |} in
  exists items,
    QueryCommand query t = (Return {| Query.Items := items |}, t)
    /\ forall it,
         it ∈ items <->
         exists sk, live_note_with_id t clinicId patientId noteId sk it.
Proof.
  intros query. eexists. split; [reflexivity|]. intros it.
  rewrite list_elem_of_fmap. split.
  - intros ([[pk sk] it'] & -> & He). simpl.
    apply list_elem_of_filter in He as [Hfilter He]. simpl in Hfilter.
    unfold scan in He. simpl in He. rewrite merge_sort_Permutation in He.
    apply list_elem_of_filter in He as [Hkey He]. simpl in Hkey.
    apply elem_of_map_to_list in He.
    unfold key_matches in Hkey. simpl in Hkey.
    apply andb_prop in Hkey as [Hpk Hsk]. apply String.eqb_eq in Hpk as ->.
    apply andb_prop in Hfilter as [Hid Hlive]. apply String.eqb_eq in Hid.
    apply andb_prop in Hlive as [Hlive _]. apply bool_decide_eq_true_1 in Hlive.
    by exists sk.
  - intros (sk & Hlookup & Hsk & Hid & Hlive).
    exists ((buildPK clinicId patientId, sk), it). split; [done|].
    apply list_elem_of_filter. split.
    + simpl. rewrite Hid, String.eqb_refl, Hlive. done.
    + unfold scan. simpl. rewrite merge_sort_Permutation.
      apply list_elem_of_filter. split.
      * unfold key_matches. simpl. by rewrite String.eqb_refl.
      * by apply elem_of_map_to_list.
Qed.

(** What [findByIdWithoutStudyDate] answers when the store is up. *)
Lemma findByIdWithoutStudyDate_answer clinicId patientId noteId w :
  store_up w ->
  let stored := live_note_with_id (table w) clinicId patientId noteId in
  exists result,
    run (notesRepository.findByIdWithoutStudyDate clinicId patientId noteId) w
    = (Return result, failed w)
    /\ (forall note,
          result = Some note -> exists sk it, stored sk it /\ note = itemToNote it)
    /\ (result = None <-> forall sk it, ~ stored sk it)
    /\ (forall sk it,
          stored sk it ->
          (forall sk' it', stored sk' it' -> it' = it) ->
          result = Some (itemToNote it)).
Proof.
  intros Hup stored.
  destruct (find_query_items clinicId patientId noteId (table w))
    as (items & Hq & Hitems). fold stored in Hitems.
  assert (Hrun :
    run (notesRepository.findByIdWithoutStudyDate clinicId patientId noteId) w
    = (Return match items with [] => None | item :: _ => Some (itemToNote item) end,
       failed w)).
  { unfold notesRepository.findByIdWithoutStudyDate. unfold_M.
    rewrite docClient_send_up by done. rewrite Hq. simpl. by destruct items. }
  eexists. split; [exact Hrun|]. split; [|split].
  - intros note Hnote. destruct items as [|item rest]; [done|].
    injection Hnote as <-.
    destruct (proj1 (Hitems item)) as (sk & Hstored); [left|].
    by exists sk, item.
  - split.
    + intros Hnone sk it Hst. destruct items as [|item rest]; [|done].
      assert (it ∈ @nil Item.t) as Hin by (apply Hitems; by exists sk).
      by apply elem_of_nil in Hin.
    + intros Hno. destruct items as [|item rest]; [done|]. exfalso.
      destruct (proj1 (Hitems item)) as (sk & Hst); [left|]. by apply (Hno sk item).
  - intros sk it Hst Honly.
    destruct items as [|item rest].
    + assert (it ∈ @nil Item.t) as Hin by (apply Hitems; by exists sk).
      by apply elem_of_nil in Hin.
    + destruct (proj1 (Hitems item)) as (sk' & Hst'); [left|].
      by rewrite (Honly sk' item Hst').
Qed.

(** X6. In a partition that one query reads whole,
    [findByIdWithoutStudyDate] answers from the live notes of the caller's
    partition: a note it returns has the identifier asked for, is live and is
    stored under a [NOTE#] sort key of that partition; it returns null exactly
    when the partition holds no live note with the identifier; and when that
    live note is the only one it is the note returned, whatever its study
    date.  The call does not write. *)
Theorem findByIdWithoutStudyDate_finds_live_note clinicId patientId noteId w :
  store_up w ->
  one_page (table w) (buildPK clinicId patientId) ->
  let stored := live_note_with_id (table w) clinicId patientId noteId in
  exists result,
    run (notesRepository.findByIdWithoutStudyDate clinicId patientId noteId) w
    = (Return result, failed w)
    /\ table (failed w) = table w
    /\ (forall note,
          result = Some note ->
          Note.noteId note = noteId
          /\ Note.deletedAt note = None
          /\ exists sk it, stored sk it /\ note = itemToNote it)
    /\ (result = None <-> forall sk it, ~ stored sk it)
    /\ (forall sk it,
          stored sk it ->
          (forall sk' it', stored sk' it' -> it' = it) ->
          result = Some (itemToNote it)).
Proof.
  intros Hup _ stored.
  destruct (findByIdWithoutStudyDate_answer clinicId patientId noteId w Hup)
    as (result & Hrun & Hsound & Hnone & Honly).
  exists result. split; [done|]. split; [done|]. split; [|done].
  intros note Hnote. destruct (Hsound note Hnote) as (sk & it & Hst & ->).
  pose proof Hst as (_ & _ & Hid & Hlive). split; [done|]. split; [done|].
  by exists sk, it.
Qed.

Lemma sample_world_one_page :
  one_page (table sample_world) (buildPK "clinic-abc" "patient-123").
Proof. by vm_compute. Qed.

Lemma findByIdWithoutStudyDate_finds_live_note_witness :
  exists result,
    run (notesRepository.findByIdWithoutStudyDate "clinic-abc" "patient-123" "note-id")
        sample_world = (Return result, failed sample_world)
    /\ forall note, result = Some note -> Note.noteId note = "note-id".
Proof.
  destruct (findByIdWithoutStudyDate_finds_live_note "clinic-abc" "patient-123"
              "note-id" sample_world I sample_world_one_page)
    as (result & Hrun & _ & Hsound & _).
  exists result. split; [exact Hrun|]. intros note Hnote.
  by destruct (Hsound note Hnote) as (Hid & _).
Defined.

(** ** Listing: cursor and tag *)

(** X7. A cursor that [decodeCursor] rejects, and the empty cursor, are
    ignored: [list] then sends the query it sends without a cursor and returns
    the first page, with no error. *)
Theorem list_ignores_rejected_cursor clinicId patientId cursor limit from to tag w :
  cursor = EmptyString \/ decodeCursor cursor = None ->
  let options c :=
    {| ListNotesOptions.cursor := c;
       ListNotesOptions.limit := limit;
       ListNotesOptions.studyDateFrom := from;
       ListNotesOptions.studyDateTo := to;
       ListNotesOptions.tag := tag |} in
  notesRepository.listQuery clinicId patientId (options (Some cursor))
  = notesRepository.listQuery clinicId patientId (options None)
  /\ Query.ExclusiveStartKey
       (notesRepository.listQuery clinicId patientId (options (Some cursor))) = None
  /\ run (notesRepository.list clinicId patientId (options (Some cursor))) w
     = run (notesRepository.list clinicId patientId (options None)) w.
Proof.
  intros Hcursor options.
  assert (Hq : notesRepository.listQuery clinicId patientId (options (Some cursor))
               = notesRepository.listQuery clinicId patientId (options None)).
  { unfold notesRepository.listQuery. simpl.
    destruct Hcursor as [-> | ->]; [done|]. by destruct (truthy cursor). }
  split; [done|]. split; [by rewrite Hq|].
  unfold notesRepository.list. by rewrite Hq.
Qed.

Lemma list_ignores_rejected_cursor_witness :
  run (notesRepository.list "clinic-abc" "patient-123"
         (list_options (Some "not-valid-base64!@#$") 2)) five_notes_world
  = run (notesRepository.list "clinic-abc" "patient-123" (list_options None 2))
      five_notes_world.
Proof.
  destruct (list_ignores_rejected_cursor "clinic-abc" "patient-123"
              "not-valid-base64!@#$" 2 None None None five_notes_world)
    as (_ & _ & Hrun).
  - right. vm_compute. reflexivity.
  - exact Hrun.
Defined.

(** X8. With a tag, every note [list] returns carries that tag among its
    tags; the empty tag is no filter: the query is the one sent with no
    tag. *)
Theorem list_filters_by_tag clinicId patientId options w :
  (forall tag page w' note,
     ListNotesOptions.tag options = Some tag ->
     tag <> EmptyString ->
     run (notesRepository.list clinicId patientId options) w = (Return page, w') ->
     note ∈ PaginatedResponse.items page ->
     exists tags, Note.tags note = Some tags /\ tag ∈ tags)
  /\ (ListNotesOptions.tag options = Some EmptyString ->
      Query.FilterExpression (notesRepository.listQuery clinicId patientId options)
      = [attribute_not_exists_deletedAt]).
Proof.
  split.
  - intros tag page w' note Htag Hne Hcall Hnote.
    destruct (list_outcome clinicId patientId options w) as [_ Hpage].
    rewrite Hcall in Hpage. destruct (Hpage page eq_refl) as (out & Hq & ->).
    apply page_items in Hnote as (it & Hit & ->).
    apply QueryCommand_sound in Hq as [_ Hsound].
    destruct (Hsound it Hit) as (key & _ & _ & Hfilter).
    simpl in Hfilter. rewrite Htag, truthy_nonempty in Hfilter by done.
    simpl in Hfilter. apply andb_prop in Hfilter as [_ Hfilter].
    apply andb_prop in Hfilter as [Hfilter _].
    destruct (Item.tags it) as [tags|] eqn:Htags; [|done].
    apply bool_decide_eq_true_1 in Hfilter.
    exists tags. simpl. by rewrite Htags.
  - intros Htag. simpl. by rewrite Htag.
Qed.

(** ** Listing: study-date bounds *)

Lemma ascii_compare_refl a : Ascii.compare a a = Eq.
Proof. apply N.compare_refl. Qed.

Lemma compare_append_prefix p a b :
  String.compare (p +:+ a) (p +:+ b) = String.compare a b.
Proof.
  induction p as [|c p IH]; [done|].
  rewrite !append_cons. simpl. by rewrite ascii_compare_refl.
Qed.

(** Strings of one length are compared before what follows them. *)
Lemma compare_append_same_length a b x y :
  String.length a = String.length b ->
  String.compare (a +:+ x) (b +:+ y)
  = match String.compare a b with
    | Eq => String.compare x y
    | c => c
    end.
Proof.
  revert b. induction a as [|c a IH]; intros [|c' b] Hlen; try done.
  rewrite !append_cons. simpl. injection Hlen as Hlen.
  destruct (Ascii.compare c c'); [by apply IH|done|done].
Qed.

Lemma leb_lower_bound from d rest :
  String.length from = String.length d ->
  String.leb ("NOTE#" +:+ from) ("NOTE#" +:+ d +:+ "#" +:+ rest) = String.leb from d.
Proof.
  intros Hlen. unfold String.leb. rewrite compare_append_prefix.
  rewrite <- (append_nil_r from) at 1.
  rewrite compare_append_same_length by done.
  by destruct (String.compare from d).
Qed.

Lemma leb_upper_bound to d rest :
  String.length d = String.length to ->
  String.leb ("NOTE#" +:+ d +:+ "#" +:+ rest) ("NOTE#" +:+ to +:+ "~") = String.leb d to.
Proof.
  intros Hlen. unfold String.leb. rewrite compare_append_prefix.
  rewrite compare_append_same_length by done.
  by destruct (String.compare d to).
Qed.

Lemma leb_note_prefix rest : String.leb "NOTE#" ("NOTE#" +:+ rest) = true.
Proof.
  unfold String.leb. rewrite <- (append_nil_r "NOTE#") at 1.
  rewrite compare_append_prefix. by destruct rest.
Qed.

(** The key condition of [list] on the sort key of a note, for bounds and a
    study date of one length. *)
Lemma keyCondition_selects from to d noteId :
  (forall s, from = Some s -> s <> EmptyString -> String.length s = String.length d) ->
  (forall s, to = Some s -> s <> EmptyString -> String.length s = String.length d) ->
  sort_key_matches (notesRepository.keyCondition from to) (buildSK d noteId)
  = (if truthy_opt from then String.leb (nullish from EmptyString) d else true)
    && (if truthy_opt to then String.leb d (nullish to EmptyString) else true).
Proof.
  intros Hfrom Hto. unfold notesRepository.keyCondition, buildSK.
  destruct from as [f|], to as [t|]; simpl.
  - destruct (truthy f) eqn:Hf, (truthy t) eqn:Ht; simpl.
    + assert (f <> EmptyString) by (by intros ->).
      assert (t <> EmptyString) by (by intros ->).
      rewrite leb_lower_bound, leb_upper_bound; [done| |]; [symmetry|]; eauto.
    + assert (f <> EmptyString) by (by intros ->).
      rewrite leb_lower_bound by eauto. by rewrite andb_true_r.
    + assert (t <> EmptyString) by (by intros ->).
      rewrite leb_note_prefix, leb_upper_bound; [done|]. symmetry. eauto.
    + apply startsWith_append.
  - destruct (truthy f) eqn:Hf; simpl.
    + assert (f <> EmptyString) by (by intros ->).
      rewrite leb_lower_bound by eauto. by rewrite andb_true_r.
    + apply startsWith_append.
  - destruct (truthy t) eqn:Ht; simpl.
    + assert (t <> EmptyString) by (by intros ->).
      rewrite leb_note_prefix, leb_upper_bound; [done|]. symmetry. eauto.
    + apply startsWith_append.
  - apply startsWith_append.
Qed.

(** X9. The study-date bounds of [list] select by date: for bounds and study
    dates of one length, as the dates [YYYY-MM-DD] are, the key condition holds
    of a note's sort key exactly when its study date is at or after
    [studyDateFrom] and at or before [studyDateTo], each bound counting only
    when it is given and not empty.  So every note [list] returns has its
    study date within the bounds. *)
Theorem list_selects_by_study_date clinicId patientId options w :
  let from := ListNotesOptions.studyDateFrom options in
  let to := ListNotesOptions.studyDateTo options in
  let within d :=
    (if truthy_opt from then String.leb (nullish from EmptyString) d else true)
    && (if truthy_opt to then String.leb d (nullish to EmptyString) else true) in
  let same_length d :=
    (forall s, from = Some s -> s <> EmptyString -> String.length s = String.length d)
    /\ (forall s, to = Some s -> s <> EmptyString -> String.length s = String.length d) in
  (forall d noteId,
     same_length d ->
     key_matches (buildPK clinicId patientId)
       (Query.KeyConditionExpression
          (notesRepository.listQuery clinicId patientId options))
       (buildPK clinicId patientId, buildSK d noteId)
     = within d)
  /\ (forall page w' note,
        consistent (table w) ->
        run (notesRepository.list clinicId patientId options) w = (Return page, w') ->
        note ∈ PaginatedResponse.items page ->
        same_length (Note.studyDate note) ->
        within (Note.studyDate note) = true).
Proof.
  intros from to within same_length. split.
  - intros d noteId [Hfrom Hto]. unfold key_matches. simpl.
    rewrite String.eqb_refl. simpl. by apply keyCondition_selects.
  - intros page w' note Hw Hcall Hnote [Hfrom Hto].
    destruct (list_outcome clinicId patientId options w) as [_ Hpage].
    rewrite Hcall in Hpage. destruct (Hpage page eq_refl) as (out & Hq & ->).
    apply page_items in Hnote as (it & Hit & ->).
    apply QueryCommand_sound in Hq as [_ Hsound].
    destruct (Hsound it Hit) as (key & Hlookup & Hkey & _).
    destruct (Hw _ _ Hlookup) as (-> & _ & Hsk & _).
    unfold key_matches in Hkey. simpl in Hkey.
    apply andb_prop in Hkey as [_ Hkey]. rewrite Hsk in Hkey.
    simpl in Hfrom, Hto.
    by rewrite keyCondition_selects in Hkey.
Qed.

(** ** Paging *)

Lemma page_of_live limit (rest : list (Key * Item.t)) :
  1 <= limit ->
  Forall (fun e => Item.deletedAt e.2 = None) rest ->
  notesRepository.page limit (live_items (take (Z.to_nat (limit + 1)) rest))
  = page_of limit rest.
Proof.
  intros Hlimit Hlive.
  rewrite live_items_all by (by apply Forall_take).
  unfold page_of.
  destruct (Z.ltb_spec limit (Z.of_nat (length rest))) as [Hmore|Hlast].
  - destruct (page_more limit (take (Z.to_nat (limit + 1)) rest).*2 Hlimit)
      as (kept & extra & lastKept & Hitems & Hlast & Hlen & ->).
    { rewrite length_fmap, length_take. lia. }
    assert (kept = (take (Z.to_nat limit) rest).*2) as ->.
    { rewrite <- (take_app_length kept [extra]), <- Hitems.
      rewrite <- fmap_take, take_take. f_equal. f_equal. lia. }
    by rewrite Hlast.
  - rewrite !take_ge by lia. apply page_last. rewrite length_fmap. lia.
Qed.

(** The first page, and the page after the cursor of an entry, in a partition
    whose notes are live. *)
Lemma list_entries_page clinicId patientId limit w :
  1 <= limit ->
  store_up w ->
  consistent (table w) ->
  let entries := patient_entries clinicId patientId (table w) in
  (Forall (fun e => Item.deletedAt e.2 = None) entries ->
   run (notesRepository.list clinicId patientId (list_options None limit)) w
   = (Return (page_of limit entries), failed w))
  /\ (forall pre e post,
        entries = pre ++ e :: post ->
        live_entry e ->
        Forall (fun e => Item.deletedAt e.2 = None) post ->
        run (notesRepository.list clinicId patientId
               (list_options (Some (cursor_of e.2)) limit)) w
        = (Return (page_of limit post), failed w)).
Proof.
  intros Hlimit Hup Hw entries. split.
  - intros Hlive. rewrite list_first_page by done. by rewrite page_of_live.
  - intros pre e post Hentries (_ & Hpk & Hsk) Hlive.
    rewrite (list_next_page clinicId patientId limit w pre e post) by done.
    by rewrite page_of_live.
Qed.

(** X10. Paging resumes where the cursor points.  In a partition whose notes
    are live and that one query reads whole, the first page of [list] holds the [limit] most recent notes, and
    the page asked for with the cursor of an entry holds the [limit] notes that
    follow that entry in descending sort-key order; [hasMore] is true, and a
    cursor for the last note shown is given, exactly when more than [limit]
    notes remained. *)
Theorem list_resumes_after_cursor clinicId patientId limit w :
  1 <= limit ->
  store_up w ->
  consistent (table w) ->
  one_page (table w) (buildPK clinicId patientId) ->
  let entries := patient_entries clinicId patientId (table w) in
  (Forall (fun e => Item.deletedAt e.2 = None) entries ->
   run (notesRepository.list clinicId patientId (list_options None limit)) w
   = (Return (page_of limit entries), failed w))
  /\ (forall pre e post,
        entries = pre ++ e :: post ->
        live_entry e ->
        Forall (fun e => Item.deletedAt e.2 = None) post ->
        run (notesRepository.list clinicId patientId
               (list_options (Some (cursor_of e.2)) limit)) w
        = (Return (page_of limit post), failed w)).
Proof.
  intros Hlimit Hup Hw _ entries.
  destruct (list_entries_page clinicId patientId limit w Hlimit Hup Hw)
    as [Hfirst Hnext].
  split; [exact Hfirst|].
  intros pre e post Hentries He Hlive. rewrite (Hnext pre e post) by done.
  reflexivity. 
Qed.

Lemma five_notes_world_one_page :
  one_page (table five_notes_world) (buildPK "clinic-abc" "patient-123").
Proof. by vm_compute. Qed.

Lemma list_resumes_after_cursor_witness :
  run (notesRepository.list "clinic-abc" "patient-123"
         (list_options (Some (cursor_of (day_note "n3" "2024-01-03" "Note 3"))) 1))
      five_notes_world
  = (Return
       {| PaginatedResponse.items := [itemToNote (day_note "n2" "2024-01-02" "Note 2")];
          PaginatedResponse.nextCursor :=
            Some (cursor_of (day_note "n2" "2024-01-02" "Note 2"));
          PaginatedResponse.hasMore := true |},
     failed five_notes_world).
Proof.
  destruct (list_resumes_after_cursor "clinic-abc" "patient-123" 1 five_notes_world)
    as [_ Hnext];
    [lia|exact I|apply five_notes_world_consistent|exact five_notes_world_one_page|].
  apply (Hnext [day_entry "n5" "2024-01-05" "Note 5"; day_entry "n4" "2024-01-04" "Note 4"]
               (day_entry "n3" "2024-01-03" "Note 3")
               [day_entry "n2" "2024-01-02" "Note 2"; day_entry "n1" "2024-01-01" "Note 1"]).
  - apply five_notes_world_entries.
  - by apply live_entry_day_entry.
  - by repeat constructor.
Defined.

(** X11. The store applies [Limit] before the filter, and [list] takes fewer
    items than [limit + 1] for the end of the listing.  So, in a partition that
    one query reads whole, when a soft-deleted note is among the first
    [limit + 1] entries of the partition, the first
    page has only the live ones of them, [hasMore] is false and there is no
    cursor, whatever entries follow: the notes after them are not listed. *)
Theorem list_stops_at_deleted_notes clinicId patientId limit w read rest :
  1 <= limit ->
  store_up w ->
  one_page (table w) (buildPK clinicId patientId) ->
  patient_entries clinicId patientId (table w) = read ++ rest ->
  Z.of_nat (length read) = limit + 1 ->
  Exists (fun e => Item.deletedAt e.2 <> None) read ->
  run (notesRepository.list clinicId patientId (list_options None limit)) w
  = (Return
       {| PaginatedResponse.items := itemToNote <$> live_items read;
          PaginatedResponse.nextCursor := None;
          PaginatedResponse.hasMore := false |},
     failed w)
  /\ Z.of_nat (length (live_items read)) <= limit.
Proof.
  intros Hlimit Hup _ Hentries Hlen Hdeleted.
  assert (Hshort : Z.of_nat (length (live_items read)) <= limit).
  { unfold live_items. rewrite length_fmap.
    assert (length (filter (fun e : Key * Item.t =>
              all_hold (Some e.2) [attribute_not_exists_deletedAt] = true) read)
            < length read)%nat; [|lia].
    clear -Hdeleted. induction Hdeleted as [e read He|e read _ IH].
    - rewrite filter_cons_False.
      + pose proof (length_filter (fun e : Key * Item.t =>
          all_hold (Some e.2) [attribute_not_exists_deletedAt] = true) read).
        cbn [length]. lia.
      + simpl. rewrite bool_decide_eq_false_2 by done. done.
    - rewrite filter_cons. destruct (decide _); cbn [length]; lia. }
  split; [|done].
  rewrite list_first_page by done. rewrite Hentries.
  rewrite take_app_length' by lia.
  by rewrite page_last.
Qed.

Lemma five_notes_one_deleted_one_page :
  one_page (table five_notes_one_deleted) (buildPK "clinic-abc" "patient-123").
Proof. by vm_compute. Qed.

Lemma list_stops_at_deleted_notes_witness :
  run (notesRepository.list "clinic-abc" "patient-123" (list_options None 1))
      five_notes_one_deleted
  = (Return
       {| PaginatedResponse.items := [itemToNote (day_note "n5" "2024-01-05" "Note 5")];
          PaginatedResponse.nextCursor := None;
          PaginatedResponse.hasMore := false |},
     failed five_notes_one_deleted).
Proof.
  destruct (list_stops_at_deleted_notes "clinic-abc" "patient-123" 1
              five_notes_one_deleted
              [day_entry "n5" "2024-01-05" "Note 5";
               ((buildPK "clinic-abc" "patient-123", buildSK "2024-01-04" "n4"),
                tombstone (day_note "n4" "2024-01-04" "Note 4")
                  "2024-02-02T08:00:00.000Z" "user-123")]
              [day_entry "n3" "2024-01-03" "Note 3"; day_entry "n2" "2024-01-02" "Note 2";
               day_entry "n1" "2024-01-01" "Note 1"]) as [Hrun _].
  - lia.
  - exact I.
  - exact five_notes_one_deleted_one_page.
  - vm_compute. reflexivity.
  - reflexivity.
  - apply Exists_cons_tl, Exists_cons_hd. discriminate.
  - exact Hrun.
Defined.

(** Following the cursors from the cursor of an entry on. *)
Lemma follow_cursors_from fuel clinicId patientId limit :
  1 <= limit ->
  forall w pre e post,
    faults w = [] ->
    consistent (table w) ->
    patient_entries clinicId patientId (table w) = pre ++ e :: post ->
    Forall live_entry (pre ++ e :: post) ->
    (length post < fuel)%nat ->
    exists pages,
      follow_cursors fuel clinicId patientId limit (Some (cursor_of e.2)) w = Some pages
      /\ concat pages = itemToNote <$> post.*2
      /\ Forall (fun p => Z.of_nat (length p) <= limit) pages.
Proof.
  intros Hlimit. induction fuel as [|fuel IH]; intros w pre e post Hf Hw Hentries Hlive Hfuel;
    [lia|].
  assert (Hup : store_up w) by (unfold store_up; by rewrite Hf).
  assert (Hpost : Forall (fun e : Key * Item.t => Item.deletedAt e.2 = None) post).
  { apply Forall_app in Hlive as [_ Hlive]. apply Forall_cons in Hlive as [_ Hlive].
    eapply Forall_impl; [done|]. by intros x (? & _). }
  assert (He : live_entry e).
  { apply Forall_app in Hlive as [_ Hlive]. by apply Forall_cons in Hlive as [? _]. }
  destruct (list_entries_page clinicId patientId limit w Hlimit Hup Hw) as [_ Hnext].
  cbn [follow_cursors]. rewrite (Hnext pre e post Hentries He Hpost).
  unfold page_of. cbn [PaginatedResponse.nextCursor PaginatedResponse.items].
  set (n := Z.to_nat limit).
  assert (Hshown : Z.of_nat (length (itemToNote <$> (take n post).*2)) <= limit).
  { rewrite !length_fmap, length_take. lia. }
  destruct (Z.ltb_spec limit (Z.of_nat (length post))) as [Hmore|Hlast].
  - destruct (lookup_lt_is_Some_2 post (n - 1)) as [e' He']; [lia|].
    assert (Htake : take n post = take (n - 1) post ++ [e']).
    { replace n with (S (n - 1)) at 1 by lia. by apply take_S_r. }
    assert (Hsplit : post = take (n - 1) post ++ e' :: drop n post).
    { replace n with (S (n - 1)) at 2 by lia. by rewrite take_drop_middle. }
    assert (Hend : last (take n post).*2 = Some e'.2).
    { rewrite Htake, fmap_app. apply last_snoc. }
    rewrite Hend. cbn [fmap option_fmap option_map].
    destruct (IH (failed w) (pre ++ e :: take (n - 1) post) e' (drop n post))
      as (pages & -> & Hconcat & Hpages).
    + simpl. by rewrite Hf.
    + done.
    + simpl. rewrite Hentries. rewrite <- app_assoc. simpl. by rewrite <- Hsplit.
    + rewrite <- app_assoc. simpl. by rewrite <- Hsplit.
    + rewrite length_drop. lia.
    + eexists. split; [reflexivity|]. split.
      * simpl. rewrite Hconcat, <- fmap_app. rewrite <- (fmap_app snd).
        by rewrite take_drop.
      * by constructor.
  - eexists. split; [reflexivity|]. split.
    + simpl. rewrite app_nil_r. by rewrite take_ge by lia.
    + by constructor.
Qed.

(** X12. A caller that follows the cursors sees every note once.  When all the
    notes of a partition are live, one query reads the partition whole and
    the store answers, starting [list] with
    no cursor and calling it again with each [nextCursor] until none is given
    ends within as many calls as there are notes, plus one; the pages, put
    end to end, are the notes of the partition in descending sort-key order,
    each once, and no page has more than [limit] notes. *)
Theorem following_cursors_lists_every_note clinicId patientId limit w :
  1 <= limit ->
  faults w = [] ->
  consistent (table w) ->
  one_page (table w) (buildPK clinicId patientId) ->
  let entries := patient_entries clinicId patientId (table w) in
  Forall live_entry entries ->
  exists pages,
    follow_cursors (S (length entries)) clinicId patientId limit None w = Some pages
    /\ concat pages = itemToNote <$> entries.*2
    /\ Forall (fun p => Z.of_nat (length p) <= limit) pages.
Proof.
  intros Hlimit Hf Hw _ entries Hlive.
  assert (Hup : store_up w) by (unfold store_up; by rewrite Hf).
  assert (Hall : Forall (fun e : Key * Item.t => Item.deletedAt e.2 = None) entries).
  { eapply Forall_impl; [done|]. by intros x (? & _). }
  destruct (list_entries_page clinicId patientId limit w Hlimit Hup Hw) as [Hfirst _].
  cbn [follow_cursors]. rewrite (Hfirst Hall).
  unfold page_of. cbn [PaginatedResponse.nextCursor PaginatedResponse.items].
  fold entries. set (n := Z.to_nat limit).
  assert (Hshown : Z.of_nat (length (itemToNote <$> (take n entries).*2)) <= limit).
  { rewrite !length_fmap, length_take. lia. }
  destruct (Z.ltb_spec limit (Z.of_nat (length entries))) as [Hmore|Hlast].
  - destruct (lookup_lt_is_Some_2 entries (n - 1)) as [e' He']; [lia|].
    assert (Htake : take n entries = take (n - 1) entries ++ [e']).
    { replace n with (S (n - 1)) at 1 by lia. by apply take_S_r. }
    assert (Hsplit : entries = take (n - 1) entries ++ e' :: drop n entries).
    { replace n with (S (n - 1)) at 2 by lia. by rewrite take_drop_middle. }
    assert (Hend : last (take n entries).*2 = Some e'.2).
    { rewrite Htake, fmap_app. apply last_snoc. }
    rewrite Hend. cbn [fmap option_fmap option_map].
    destruct (follow_cursors_from (length entries) clinicId patientId limit Hlimit
                (failed w) (take (n - 1) entries) e' (drop n entries))
      as (pages & -> & Hconcat & Hpages).
    + simpl. by rewrite Hf.
    + done.
    + simpl. fold entries. done.
    + by rewrite <- Hsplit.
    + rewrite length_drop. lia.
    + eexists. split; [reflexivity|]. split.
      * simpl. rewrite Hconcat, <- fmap_app. rewrite <- (fmap_app snd).
        by rewrite take_drop.
      * by constructor.
  - eexists. split; [reflexivity|]. split.
    + simpl. rewrite app_nil_r. by rewrite take_ge by lia.
    + by constructor.
Qed.

Lemma following_cursors_lists_every_note_witness :
  exists pages,
    follow_cursors 6 "clinic-abc" "patient-123" 2 None five_notes_world = Some pages
    /\ concat pages
       = itemToNote <$> [day_note "n5" "2024-01-05" "Note 5";
                         day_note "n4" "2024-01-04" "Note 4";
                         day_note "n3" "2024-01-03" "Note 3";
                         day_note "n2" "2024-01-02" "Note 2";
                         day_note "n1" "2024-01-01" "Note 1"].
Proof.
  destruct (following_cursors_lists_every_note "clinic-abc" "patient-123" 2
              five_notes_world) as (pages & Hrun & Hconcat & _).
  - lia.
  - reflexivity.
  - apply five_notes_world_consistent.
  - exact five_notes_world_one_page.
  - rewrite five_notes_world_entries.
    repeat first [apply Forall_nil_2 | apply Forall_cons_2];
      by apply live_entry_day_entry.
  - exists pages. rewrite five_notes_world_entries in Hrun, Hconcat.
    split; [exact Hrun|exact Hconcat].
Defined.

(** ** Rate limiter, continued *)

Lemma checkRateLimit_up now1 now2 now3 identifier config w :
  let key := window_key identifier config now1 in
  let windowStart := rateLimiter.floorWindow now2 (RateLimitConfig.windowSeconds config) in
  store_up w ->
  run (rateLimiter.checkRateLimit now1 now2 now3 identifier config) w
  = (Return
       {| RateLimitResult.allowed :=
            counter (table w) key <? RateLimitConfig.maxRequests config;
          RateLimitResult.current := counter (table w) key;
          RateLimitResult.limit := RateLimitConfig.maxRequests config;
          RateLimitResult.retryAfter :=
            Z.max 1 (windowStart + RateLimitConfig.windowSeconds config - now3 / 1000) |},
     failed w).
Proof.
  intros key windowStart Hup. unfold rateLimiter.checkRateLimit. unfold_M.
  rewrite docClient_send_up by done. simpl. unfold counter, key, window_key.
  by destruct (windows (table w) !! _).
Qed.

Lemma checkRateLimit_fault now1 now2 now3 identifier config w name script :
  faults w = Some name :: script ->
  run (rateLimiter.checkRateLimit now1 now2 now3 identifier config) w
  = (Return
       {| RateLimitResult.allowed := true;
          RateLimitResult.current := 0;
          RateLimitResult.limit := RateLimitConfig.maxRequests config;
          RateLimitResult.retryAfter := RateLimitConfig.windowSeconds config |},
     logged (failed w) LogLevel.warn
       "Rate limit check failed, allowing request (fail-open)").
Proof.
  intros Hfaults. unfold rateLimiter.checkRateLimit. unfold_M.
  by rewrite (docClient_send_fault _ w name script).
Qed.

(** X13. For a policy with a positive window, [checkRateLimit] reads the
    counter of the current window and writes nothing; it reports the count so far and allows exactly when the next
    [incrementRateLimit] in that window would: the one compares the count with
    [<], the other the incremented count with [<=]. *)
Theorem checkRateLimit_foretells_increment
    now1 now2 now3 now1' now2' now3' identifier config w :
  0 < RateLimitConfig.windowSeconds config ->
  store_up w ->
  store_up (failed w) ->
  window_key identifier config now1' = window_key identifier config now1 ->
  exists check increment w',
    run (rateLimiter.checkRateLimit now1 now2 now3 identifier config) w
    = (Return check, failed w)
    /\ table (failed w) = table w
    /\ RateLimitResult.current check
       = counter (table w) (window_key identifier config now1)
    /\ run (rateLimiter.incrementRateLimit now1' now2' now3' identifier config) (failed w)
       = (Return increment, w')
    /\ RateLimitResult.current increment = RateLimitResult.current check + 1
    /\ RateLimitResult.allowed increment = RateLimitResult.allowed check.
Proof.
  intros _ Hup Hup2 Hkey. eexists _, _, _.
  split; [by apply checkRateLimit_up|]. split; [done|]. split; [done|].
  split; [by apply incrementRateLimit_up|]. simpl. rewrite Hkey.
  split; [done|].
  destruct (Z.leb_spec (counter (table w) (window_key identifier config now1) + 1)
              (RateLimitConfig.maxRequests config)),
           (Z.ltb_spec (counter (table w) (window_key identifier config now1))
              (RateLimitConfig.maxRequests config)); done || lia.
Qed.

Lemma checkRateLimit_foretells_increment_witness :
  exists check increment w',
    run (rateLimiter.checkRateLimit 1700000011000 1700000011000 1700000011000
           "IP#203.0.113.7" RATE_LIMITS.login) ten_logins
    = (Return check, failed ten_logins)
    /\ RateLimitResult.current check = 10
    /\ RateLimitResult.allowed check = false
    /\ run (rateLimiter.incrementRateLimit 1700000012000 1700000012000 1700000012000
              "IP#203.0.113.7" RATE_LIMITS.login) (failed ten_logins)
       = (Return increment, w')
    /\ RateLimitResult.allowed increment = false.
Proof.
  destruct (checkRateLimit_foretells_increment
              1700000011000 1700000011000 1700000011000
              1700000012000 1700000012000 1700000012000
              "IP#203.0.113.7" RATE_LIMITS.login ten_logins eq_refl I I)
    as (check & increment & w' & Hcheck & _ & Hcurrent & Hincrement & _ & Hallowed).
  { vm_compute. reflexivity. }
  exists check, increment, w'.
  assert (Hc : check
    = {| RateLimitResult.allowed := false;
         RateLimitResult.current := 10;
         RateLimitResult.limit := 10;
         RateLimitResult.retryAfter := 29 |}).
  { assert (Return check
      = (run (rateLimiter.checkRateLimit 1700000011000 1700000011000 1700000011000
                "IP#203.0.113.7" RATE_LIMITS.login) ten_logins).1) as Heq
      by (by rewrite Hcheck).
    vm_compute in Heq. by injection Heq. }
  split; [exact Hcheck|]. split; [by rewrite Hc|]. split; [by rewrite Hc|].
  split; [exact Hincrement|]. rewrite Hallowed. by rewrite Hc.
Defined.

Lemma incrementRateLimit_fault now1 now2 now3 identifier config w name script :
  faults w = Some name :: script ->
  run (rateLimiter.incrementRateLimit now1 now2 now3 identifier config) w
  = (Return
       {| RateLimitResult.allowed := true;
          RateLimitResult.current := 0;
          RateLimitResult.limit := RateLimitConfig.maxRequests config;
          RateLimitResult.retryAfter := RateLimitConfig.windowSeconds config |},
     logged (failed w) LogLevel.warn
       "Rate limit increment failed, allowing request (fail-open)").
Proof.
  intros Hfaults. unfold rateLimiter.incrementRateLimit. unfold_M.
  by rewrite (docClient_send_fault _ w name script).
Qed.

(** X14. For a policy with a positive window, [enforceRateLimit] counts the
    request and throws
    [TooManyRequestsError], with a [retryAfter] of at least one second, exactly
    when the count then exceeds [maxRequests]; the refused request stays
    counted.  It logs the refusal at level [warn] and a pass at level [debug].
    When the store fails the increment, the request passes.
    [enforceRateLimitByIp] counts under the address, and under [IP#unknown]
    when there is none. *)
Theorem enforceRateLimit_refuses_over_limit now1 now2 now3 identifier config w :
  let key := window_key identifier config now1 in
  let count := counter (table w) key + 1 in
  let retryAfter :=
    Z.max 1 (rateLimiter.floorWindow now2 (RateLimitConfig.windowSeconds config)
             + RateLimitConfig.windowSeconds config - now3 / 1000) in
  (0 < RateLimitConfig.windowSeconds config ->
   store_up w ->
   exists w',
     run (rateLimiter.enforceRateLimit now1 now2 now3 identifier config) w
     = (if count <=? RateLimitConfig.maxRequests config
        then Return tt
        else Throw (TooManyRequestsError
                      ("Rate limit exceeded for " +:+ RateLimitConfig.name config
                         +:+ ". Please try again later.") retryAfter),
        w')
     /\ counter (table w') key = count
     /\ notes (table w') = notes (table w)
     /\ logs w'
        = logs w ++ [if count <=? RateLimitConfig.maxRequests config
                     then (LogLevel.debug, "Rate limit check passed")
                     else (LogLevel.warn, "Rate limit exceeded")]
     /\ 1 <= retryAfter)
  /\ (forall name script,
        faults w = Some name :: script ->
        exists w',
          run (rateLimiter.enforceRateLimit now1 now2 now3 identifier config) w
          = (Return tt, w')
          /\ table w' = table w)
  /\ (forall sourceIp,
        enforceRateLimitByIp now1 now2 now3 sourceIp config
        = rateLimiter.enforceRateLimit now1 now2 now3
            ("IP#" +:+ match sourceIp with Some ip => ip | None => "unknown" end)
            config).
Proof.
  intros key count retryAfter. split; [|split].
  - intros _ Hup. unfold rateLimiter.enforceRateLimit. unfold_M.
    pose proof (incrementRateLimit_up now1 now2 now3 identifier config w Hup) as Hinc.
    unfold run in Hinc. simpl in Hinc. rewrite Hinc. fold key count retryAfter.
    cbn [RateLimitResult.allowed RateLimitResult.retryAfter].
    destruct (count <=? RateLimitConfig.maxRequests config); simpl;
      (eexists; split; [reflexivity|]); simpl;
      (split; [unfold counter; simpl; by rewrite lookup_insert_eq|]);
      (split; [done|]); (split; [done|]); unfold retryAfter; lia.
  - intros name script Hfaults. unfold rateLimiter.enforceRateLimit. unfold_M.
    pose proof (incrementRateLimit_fault now1 now2 now3 identifier config w name
                  script Hfaults) as Hinc.
    unfold run in Hinc. rewrite Hinc. simpl. by eexists.
  - intros [ip|]; reflexivity.
Qed.

Lemma enforceRateLimit_refuses_over_limit_witness :
  exists w',
    run (rateLimiter.enforceRateLimit 1700000011000 1700000011000 1700000011000
           "IP#203.0.113.7" RATE_LIMITS.login) ten_logins
    = (Throw (TooManyRequestsError
                "Rate limit exceeded for login. Please try again later." 29), w')
    /\ counter (table w')
         (window_key "IP#203.0.113.7" RATE_LIMITS.login 1700000011000) = 11.
Proof.
  destruct (enforceRateLimit_refuses_over_limit 1700000011000 1700000011000
              1700000011000 "IP#203.0.113.7" RATE_LIMITS.login ten_logins)
    as [Hup _].
  destruct (Hup eq_refl I) as (w' & Hrun & Hcount & _).
  exists w'. split; [|].
  - rewrite Hrun. f_equal.
  - rewrite Hcount. vm_compute. reflexivity.
Defined.

(** X15. The [retryAfter] the rate limiter reports is never below one second;
    and with a positive window and a clock that does not run backwards between
    the readings of a call it is never above the window length, whether the
    store answered or failed. *)
Theorem retryAfter_within_window now1 now2 now3 identifier config w :
  0 < RateLimitConfig.windowSeconds config ->
  now2 <= now3 ->
  forall result w',
    run (rateLimiter.incrementRateLimit now1 now2 now3 identifier config) w
      = (Return result, w')
    \/ run (rateLimiter.checkRateLimit now1 now2 now3 identifier config) w
       = (Return result, w') ->
    1 <= RateLimitResult.retryAfter result <= RateLimitConfig.windowSeconds config.
Proof.
  intros Hws Hclock result w' Hrun.
  assert (Hbound :
    1 <= Z.max 1 (rateLimiter.floorWindow now2 (RateLimitConfig.windowSeconds config)
                  + RateLimitConfig.windowSeconds config - now3 / 1000)
      <= RateLimitConfig.windowSeconds config).
  { destruct (floorWindow_bounds now2 _ Hws) as (_ & _ & Hle & _).
    pose proof (Z.div_le_mono now2 now3 1000 ltac:(lia) Hclock). lia. }
  destruct (faults w) as [|[name|] script] eqn:Hfaults.
  - assert (Hup : store_up w) by (unfold store_up; by rewrite Hfaults).
    destruct Hrun as [Hrun|Hrun].
    + rewrite incrementRateLimit_up in Hrun by done. by injection Hrun as <- _.
    + rewrite checkRateLimit_up in Hrun by done. by injection Hrun as <- _.
  - destruct Hrun as [Hrun|Hrun].
    + rewrite (incrementRateLimit_fault _ _ _ _ _ _ name script) in Hrun by done.
      injection Hrun as <- _. simpl. lia.
    + rewrite (checkRateLimit_fault _ _ _ _ _ _ name script) in Hrun by done.
      injection Hrun as <- _. simpl. lia.
  - assert (Hup : store_up w) by (unfold store_up; by rewrite Hfaults).
    destruct Hrun as [Hrun|Hrun].
    + rewrite incrementRateLimit_up in Hrun by done. by injection Hrun as <- _.
    + rewrite checkRateLimit_up in Hrun by done. by injection Hrun as <- _.
Qed.

Lemma retryAfter_within_window_witness :
  exists result w',
    run (rateLimiter.incrementRateLimit 1700000011000 1700000011000 1700000011000
           "IP#203.0.113.7" RATE_LIMITS.login) ten_logins = (Return result, w')
    /\ 1 <= RateLimitResult.retryAfter result <= 60.
Proof.
  eexists _, _. split; [exact (incrementRateLimit_up _ _ _ _ _ ten_logins I)|].
  eapply (retryAfter_within_window 1700000011000 1700000011000 1700000011000
            "IP#203.0.113.7" RATE_LIMITS.login ten_logins);
    [simpl; lia|lia|].
  left. exact (incrementRateLimit_up _ _ _ _ _ ten_logins I).
Defined.

(** X16. A request is counted against one counter: an increment leaves the
    notes and every counter under another key as they were.  The key tells the
    policy, the identifier and the window apart: for policy names without [#],
    as the configured ones are, two keys are equal only for the same policy
    name, the same identifier and the same window start. *)
Theorem increment_counts_against_one_key now1 now2 now3 identifier config w :
  let w' := (run (rateLimiter.incrementRateLimit now1 now2 now3 identifier config) w).2 in
  notes (table w') = notes (table w)
  /\ (forall key,
        key <> window_key identifier config now1 ->
        windows (table w') !! key = windows (table w) !! key)
  /\ (forall identifier' config' now',
        hash_free (RateLimitConfig.name config) = true ->
        hash_free (RateLimitConfig.name config') = true ->
        window_key identifier' config' now' = window_key identifier config now1 ->
        RateLimitConfig.name config' = RateLimitConfig.name config
        /\ identifier' = identifier
        /\ rateLimiter.floorWindow now' (RateLimitConfig.windowSeconds config')
           = rateLimiter.floorWindow now1 (RateLimitConfig.windowSeconds config)).
Proof.
  intros w'. split; [|split].
  - unfold w'. destruct (faults w) as [|[name|] script] eqn:Hfaults.
    + rewrite incrementRateLimit_up by (unfold store_up; by rewrite Hfaults). done.
    + by rewrite (incrementRateLimit_fault _ _ _ _ _ _ name script).
    + rewrite incrementRateLimit_up by (unfold store_up; by rewrite Hfaults). done.
  - intros key Hkey. unfold w'.
    destruct (faults w) as [|[name|] script] eqn:Hfaults.
    + rewrite incrementRateLimit_up by (unfold store_up; by rewrite Hfaults).
      simpl. by rewrite lookup_insert_ne.
    + by rewrite (incrementRateLimit_fault _ _ _ _ _ _ name script).
    + rewrite incrementRateLimit_up by (unfold store_up; by rewrite Hfaults).
      simpl. by rewrite lookup_insert_ne.
  - intros identifier' config' now' Hn Hn'. unfold window_key.
    unfold rateLimiter.buildRateLimitPK, rateLimiter.buildRateLimitSK.
    intros [= Hpk Hsk].
    apply append_inj_l in Hpk.
    change ("#" +:+ ?p) with (String "#" p) in Hpk.
    destruct (hash_free_split _ _ _ _ Hn' Hn Hpk) as [Hname Hid].
    apply append_inj_l in Hsk. apply (inj pretty) in Hsk. done.
Qed.

(** ** Key scheme, continued *)

Lemma eqb_hash c : Ascii.eqb c "#" = negb (negb (code c =? 35)%N).
Proof. by destruct c as [[] [] [] [] [] [] [] []]. Qed.

Lemma split_cons c r :
  split "#" (String c r)
  = if (code c =? 35)%N then EmptyString :: split "#" r
    else match split "#" r with
         | part :: parts => String c part :: parts
         | [] => [String c EmptyString]
         end.
Proof. simpl. rewrite eqb_hash. by destruct (code c =? 35)%N. Qed.

Lemma split_nonempty s : split "#" s <> [].
Proof.
  induction s as [|c r IH]; [done|]. rewrite split_cons.
  destruct (code c =? 35)%N; [done|]. by destruct (split "#" r).
Qed.

(** Splitting loses nothing: the pieces have no [#] and joined with [#] give
    the string back. *)
Lemma split_join s :
  join_hash (split "#" s) = s /\ Forall (fun p => hash_free p = true) (split "#" s).
Proof.
  induction s as [|c r [IHj IHf]]; [by repeat constructor|].
  rewrite split_cons. destruct (code c =? 35)%N eqn:Hc.
  - pose proof (split_nonempty r). split.
    + apply N.eqb_eq in Hc. assert (c = "#"%char) as ->.
      { rewrite <- (ascii_N_embedding c). unfold code in Hc. by rewrite Hc. }
      simpl. destruct (split "#" r) eqn:Hr; [done|]. by rewrite IHj.
    + by constructor.
  - destruct (split "#" r) as [|part parts] eqn:Hr; [by destruct (split_nonempty r)|].
    apply Forall_cons in IHf as [Hpart Hparts]. split.
    + simpl in *. destruct parts; [by rewrite IHj|]. rewrite append_cons. by rewrite IHj.
    + constructor; [|done]. simpl. by rewrite Hc.
Qed.

Lemma split_hash_free s : hash_free s = true -> split "#" s = [s].
Proof.
  induction s as [|c r IH]; [done|]. simpl hash_free.
  intros [Hc Hr]%andb_prop. rewrite split_cons.
  apply negb_true_iff in Hc. rewrite Hc. by rewrite IH.
Qed.

Lemma split_append s r :
  hash_free s = true -> split "#" (s +:+ String "#" r) = s :: split "#" r.
Proof.
  induction s as [|c s IH]; [done|]. simpl hash_free.
  intros [Hc Hs]%andb_prop. rewrite append_cons, split_cons.
  apply negb_true_iff in Hc. rewrite Hc. by rewrite IH.
Qed.

Lemma length_split_append a b :
  (length (split "#" (a +:+ b)) + 1 = length (split "#" a) + length (split "#" b))%nat.
Proof.
  induction a as [|c a IH].
  - rewrite append_nil_l. simpl. lia.
  - rewrite append_cons, !split_cons. destruct (code c =? 35)%N; simpl; [lia|].
    pose proof (split_nonempty a). pose proof (split_nonempty (a +:+ b)).
    destruct (split "#" a), (split "#" (a +:+ b)); simpl in *; try done; lia.
Qed.

Lemma length_split_one s : length (split "#" s) = 1%nat <-> hash_free s = true.
Proof.
  split; [|by intros ->%split_hash_free].
  induction s as [|c r IH]; [done|]. rewrite split_cons. simpl hash_free.
  pose proof (split_nonempty r).
  destruct (code c =? 35)%N; simpl.
  - destruct (split "#" r); [done|]. simpl. lia.
  - destruct (split "#" r) as [|p ps] eqn:Hr; [done|]. simpl in *.
    intros Hlen. apply IH. done.
Qed.

Lemma length_split_pos s : (1 <= length (split "#" s))%nat.
Proof. pose proof (split_nonempty s). destruct (split "#" s); [done|simpl; lia]. Qed.

(** X17. [parseSK] undoes [buildSK] when neither the study date nor the note
    identifier holds a [#], and throws [Invalid SK format] on the key
    otherwise.  Every sort key it accepts is the key [buildSK] makes of the
    parts it returns, and these hold no [#]. *)
Theorem parseSK_undoes_buildSK :
  (forall studyDate noteId,
     parseSK (buildSK studyDate noteId)
     = if hash_free studyDate && hash_free noteId
       then inr {| ParsedSK.studyDate := studyDate; ParsedSK.noteId := noteId |}
       else inl (Error ("Invalid SK format: " +:+ buildSK studyDate noteId)))
  /\ (forall sk parsed,
        parseSK sk = inr parsed ->
        sk = buildSK (ParsedSK.studyDate parsed) (ParsedSK.noteId parsed)
        /\ hash_free (ParsedSK.studyDate parsed) = true
        /\ hash_free (ParsedSK.noteId parsed) = true).
Proof.
  split.
  - intros d n. unfold parseSK.
    destruct (hash_free d && hash_free n) eqn:Hfree.
    + apply andb_prop in Hfree as [Hd Hn]. unfold buildSK.
      change ("NOTE#" +:+ ?r) with ("NOTE" +:+ String "#" r).
      rewrite split_append by done.
      change ("#" +:+ ?r) with (String "#" r).
      rewrite split_append by done. by rewrite split_hash_free.
    + assert (length (split "#" (buildSK d n)) <> 3%nat) as Hlen.
      { unfold buildSK.
        pose proof (length_split_append "NOTE#" (d +:+ "#" +:+ n)) as H1.
        pose proof (length_split_append d ("#" +:+ n)) as H2.
        pose proof (length_split_append "#" n) as H3.
        change (length (split "#" "NOTE#")) with 2%nat in H1.
        change (length (split "#" "#")) with 2%nat in H3.
        pose proof (length_split_pos d). pose proof (length_split_pos n).
        intros Hthree.
        assert (length (split "#" d) = 1%nat) as Hd by lia.
        assert (length (split "#" n) = 1%nat) as Hn by lia.
        apply length_split_one in Hd, Hn. by rewrite Hd, Hn in Hfree. }
      apply Nat.eqb_neq in Hlen. by rewrite Hlen.
  - intros sk parsed. unfold parseSK.
    destruct (split_join sk) as [Hjoin Hparts].
    destruct (split "#" sk) as [|a [|b [|c [|? ?]]]]; try done. simpl.
    case_bool_decide as Ha; [|done]. injection Ha as ->. simpl.
    intros [= <-]. simpl.
    apply Forall_cons in Hparts as [_ Hparts].
    apply Forall_cons in Hparts as [Hb Hparts].
    apply Forall_cons in Hparts as [Hc _].
    split; [|done]. by rewrite <- Hjoin.
Qed.

(** X18. [parsePK] undoes [buildPK] when neither the clinic nor the patient
    identifier holds a [#], and throws [Invalid PK format] on the key
    otherwise: the partition key of such identifiers cannot be read back.
    Every partition key it accepts is the key [buildPK] makes of the parts it
    returns. *)
Theorem parsePK_undoes_buildPK :
  (forall clinicId patientId,
     parsePK (buildPK clinicId patientId)
     = if hash_free clinicId && hash_free patientId
       then inr {| ParsedPK.clinicId := clinicId; ParsedPK.patientId := patientId |}
       else inl (Error ("Invalid PK format: " +:+ buildPK clinicId patientId)))
  /\ (forall pk parsed,
        parsePK pk = inr parsed ->
        pk = buildPK (ParsedPK.clinicId parsed) (ParsedPK.patientId parsed)
        /\ hash_free (ParsedPK.clinicId parsed) = true
        /\ hash_free (ParsedPK.patientId parsed) = true).
Proof.
  split.
  - intros c p. unfold parsePK.
    destruct (hash_free c && hash_free p) eqn:Hfree.
    + apply andb_prop in Hfree as [Hc Hp]. unfold buildPK.
      change ("CLINIC#" +:+ ?r) with ("CLINIC" +:+ String "#" r).
      rewrite split_append by done.
      change ("#PATIENT#" +:+ ?r) with (String "#" ("PATIENT" +:+ String "#" r)).
      rewrite split_append by done.
      rewrite split_append by done. by rewrite split_hash_free.
    + assert (length (split "#" (buildPK c p)) <> 4%nat) as Hlen.
      { unfold buildPK.
        pose proof (length_split_append "CLINIC#" (c +:+ "#PATIENT#" +:+ p)) as H1.
        pose proof (length_split_append c ("#PATIENT#" +:+ p)) as H2.
        pose proof (length_split_append "#PATIENT#" p) as H3.
        change (length (split "#" "CLINIC#")) with 2%nat in H1.
        change (length (split "#" "#PATIENT#")) with 3%nat in H3.
        pose proof (length_split_pos c). pose proof (length_split_pos p).
        intros Hfour.
        assert (length (split "#" c) = 1%nat) as Hc by lia.
        assert (length (split "#" p) = 1%nat) as Hp by lia.
        apply length_split_one in Hc, Hp. by rewrite Hc, Hp in Hfree. }
      apply Nat.eqb_neq in Hlen. by rewrite Hlen.
  - intros pk parsed. unfold parsePK.
    destruct (split_join pk) as [Hjoin Hparts].
    destruct (split "#" pk) as [|a [|b [|c [|d [|? ?]]]]]; try done. simpl.
    case_bool_decide as Ha; [|done]. injection Ha as ->.
    case_bool_decide as Hc; [|done]. injection Hc as ->. simpl.
    intros [= <-]. simpl.
    apply Forall_cons in Hparts as [_ Hparts].
    apply Forall_cons in Hparts as [Hb Hparts].
    apply Forall_cons in Hparts as [_ Hparts].
    apply Forall_cons in Hparts as [Hd _].
    split; [|done]. by rewrite <- Hjoin.
Qed.

Lemma sanitize_byte_safe c :
  forallb is_safe (list_ascii_of_string (sanitize_byte c)) = true.
Proof.
  unfold sanitize_byte. destruct (code c <? 128)%N.
  - destruct (is_safe c) eqn:Hc; simpl; [by rewrite Hc|done].
  - destruct (code c <? 192)%N; [done|]. by destruct (code c <? 240)%N.
Qed.

Lemma list_ascii_of_string_append s1 s2 :
  list_ascii_of_string (s1 +:+ s2) = list_ascii_of_string s1 ++ list_ascii_of_string s2.
Proof. induction s1 as [|c s1 IH]; [done|]. rewrite append_cons. simpl. by rewrite IH. Qed.

Lemma sanitize_safe fileName :
  forallb is_safe (list_ascii_of_string (sanitize fileName)) = true.
Proof.
  induction fileName as [|c r IH]; [done|]. simpl.
  rewrite list_ascii_of_string_append, forallb_app, sanitize_byte_safe. done.
Qed.

Lemma is_safe_ascii c : is_safe c = true -> (code c <? 128)%N = true.
Proof.
  unfold is_safe. intros H. apply N.ltb_lt.
  repeat match type of H with
         | (_ || _)%bool = true => apply orb_prop in H as [H|H]
         | (_ && _)%bool = true => apply andb_prop in H as [? H]
         end;
    repeat match goal with
           | H : (_ <=? _)%N = true |- _ => apply N.leb_le in H
           | H : (_ =? _)%N = true |- _ => apply N.eqb_eq in H
           end; lia.
Qed.

Lemma sanitize_fixes_safe fileName :
  forallb is_safe (list_ascii_of_string fileName) = true -> sanitize fileName = fileName.
Proof.
  induction fileName as [|c r IH]; [done|]. simpl.
  intros [Hc Hr]%andb_prop. unfold sanitize_byte.
  rewrite (is_safe_ascii c Hc), Hc. by rewrite append_cons, append_nil_l, IH.
Qed.

(** X19. The object key [buildS3Key] makes ends in the file name with every
    character outside [[a-zA-Z0-9._-]] replaced: the name part holds characters
    of that class only, so no [/] and no character that is not ASCII; a name
    made of such characters is kept as it is, and sanitising twice changes
    nothing more. *)
Theorem buildS3Key_sanitizes_file_name clinicId patientId noteId attachmentId fileName :
  exists name,
    buildS3Key clinicId patientId noteId attachmentId fileName
    = "clinic/" +:+ clinicId +:+ "/patient/" +:+ patientId +:+ "/note/" +:+ noteId
        +:+ "/" +:+ attachmentId +:+ "/" +:+ name
    /\ forallb is_safe (list_ascii_of_string name) = true
    /\ ~ In "/"%char (list_ascii_of_string name)
    /\ (forallb is_safe (list_ascii_of_string fileName) = true -> name = fileName)
    /\ buildS3Key clinicId patientId noteId attachmentId name
       = buildS3Key clinicId patientId noteId attachmentId fileName.
Proof.
  exists (sanitize fileName). split; [done|].
  split; [apply sanitize_safe|]. split; [|split].
  - intros Hin. pose proof (sanitize_safe fileName) as Hsafe.
    rewrite forallb_forall in Hsafe.
    assert (is_safe "/" = true) as Hslash; [|done].
    by apply Hsafe.
  - apply sanitize_fixes_safe.
  - unfold buildS3Key. by rewrite (sanitize_fixes_safe _ (sanitize_safe fileName)).
Qed.

(** ** Scopes *)

Lemma elem_of_push_unless_included s x scopes :
  s ∈ push_unless_included x scopes <-> s = x \/ s ∈ scopes.
Proof.
  unfold push_unless_included, includes. case_bool_decide as Hin.
  - split; [by right|]. by intros [->|?].
  - rewrite elem_of_app, list_elem_of_singleton. tauto.
Qed.

Lemma scope_of_value str s : scope_of str = Some s <-> str = Scope.value s.
Proof.
  unfold scope_of, Scope.values. cbn [List.find Scope.value]. split.
  - destruct (String.eqb "notes:read" str) eqn:H1;
      [apply String.eqb_eq in H1; by intros [= <-]|].
    destruct (String.eqb "notes:write" str) eqn:H2;
      [apply String.eqb_eq in H2; by intros [= <-]|].
    destruct (String.eqb "notes:delete" str) eqn:H3;
      [apply String.eqb_eq in H3; by intros [= <-]|].
    destruct (String.eqb "attachments:write" str) eqn:H4;
      [apply String.eqb_eq in H4; by intros [= <-]|].
    done.
  - intros ->. by destruct s.
Qed.

Lemma elem_of_declared_scopes s (strings : list string) :
  s ∈ omap scope_of strings <-> Scope.value s ∈ strings.
Proof.
  rewrite list_elem_of_omap. split.
  - intros (str & Hin & Hs). apply scope_of_value in Hs. by subst.
  - intros Hin. exists (Scope.value s). split; [done|]. by apply scope_of_value.
Qed.

Lemma includes_true {A} `{EqDecision A} (l : list A) x : includes l x = true <-> x ∈ l.
Proof. unfold includes. by rewrite bool_decide_eq_true. Qed.

(** The scopes of a set of claims, scope by scope. *)
Lemma parseScopes_elem claims :
  let groups := nullish (JWTClaims.cognito_groups claims) [] in
  let words :=
    List.filter truthy (split " " (nullish (JWTClaims.scope claims) EmptyString)) in
  let named scope := Scope.value scope ∈ groups ++ words in
  let clinical :=
    "admin" ∈ groups \/ "clinician" ∈ groups \/ "doctor" ∈ groups \/ "nurse" ∈ groups in
  (Scope.NOTES_READ ∈ parseScopes claims
   <-> named Scope.NOTES_READ \/ clinical \/ "receptionist" ∈ groups)
  /\ (Scope.NOTES_WRITE ∈ parseScopes claims <-> named Scope.NOTES_WRITE \/ clinical)
  /\ (Scope.ATTACHMENTS_WRITE ∈ parseScopes claims
      <-> named Scope.ATTACHMENTS_WRITE \/ clinical)
  /\ (Scope.NOTES_DELETE ∈ parseScopes claims
      <-> named Scope.NOTES_DELETE \/ "admin" ∈ groups).
Proof.
  intros groups words named clinical. unfold parseScopes.
  fold groups. fold words.
  assert (Hclinical :
    includes groups "admin" || includes groups "clinician"
    || includes groups "doctor" || includes groups "nurse" = true <-> clinical).
  { rewrite !orb_true_iff, !includes_true. unfold clinical. tauto. }
  destruct (includes groups "admin" || includes groups "clinician"
            || includes groups "doctor" || includes groups "nurse") eqn:Hc;
    destruct (includes groups "admin") eqn:Ha;
    destruct (includes groups "receptionist") eqn:Hr;
    rewrite ?elem_of_push_unless_included, !elem_of_declared_scopes;
    try apply includes_true in Ha; try apply includes_true in Hr;
    try (apply not_true_iff_false in Ha; rewrite includes_true in Ha);
    try (apply not_true_iff_false in Hr; rewrite includes_true in Hr);
    unfold named; intuition (try discriminate; try done).
Qed.

(** X20. The scopes [parseScopes] grants.  A scope is granted when its string
    is among the groups or the words of the scope claim, and by role: read,
    write and attachment upload to the groups admin, clinician, doctor and
    nurse; read to the group receptionist; delete to the group admin alone.
    Nothing else grants a scope. *)
Theorem parseScopes_grants_by_role claims :
  let groups := nullish (JWTClaims.cognito_groups claims) [] in
  let words :=
    List.filter truthy (split " " (nullish (JWTClaims.scope claims) EmptyString)) in
  let named scope := Scope.value scope ∈ groups ++ words in
  let clinical :=
    "admin" ∈ groups \/ "clinician" ∈ groups \/ "doctor" ∈ groups \/ "nurse" ∈ groups in
  (Scope.NOTES_READ ∈ parseScopes claims
   <-> named Scope.NOTES_READ \/ clinical \/ "receptionist" ∈ groups)
  /\ (Scope.NOTES_WRITE ∈ parseScopes claims <-> named Scope.NOTES_WRITE \/ clinical)
  /\ (Scope.ATTACHMENTS_WRITE ∈ parseScopes claims
      <-> named Scope.ATTACHMENTS_WRITE \/ clinical)
  /\ (Scope.NOTES_DELETE ∈ parseScopes claims
      <-> named Scope.NOTES_DELETE \/ "admin" ∈ groups).
Proof. apply parseScopes_elem. Qed.

Lemma run_requireScopes_one auth scope s :
  run_app (requireScopes auth [scope]) s
  = if includes (AuthContext.scopes auth) scope then (Done tt, s)
    else (Fail (ForbiddenError ("Missing required permission: " +:+ Scope.value scope)),
          store_logged s LogLevel.warn "Missing required scope").
Proof.
  unfold run_app. simpl. by destruct (includes _ _).
Qed.

(** X21. [requireScopes] returns when the caller holds every scope asked for,
    and leaves the store as it was.  Otherwise it throws [ForbiddenError]
    naming the first scope that is missing, after one entry in the log at
    level [warn]; it makes no call to the store.  [hasScope] is the same test
    for one scope. *)
Theorem requireScopes_names_first_missing auth s :
  (forall required,
     Forall (fun scope => scope ∈ AuthContext.scopes auth) required ->
     run_app (requireScopes auth required) s = (Done tt, s))
  /\ (forall held missing rest,
        Forall (fun scope => scope ∈ AuthContext.scopes auth) held ->
        missing ∉ AuthContext.scopes auth ->
        run_app (requireScopes auth (held ++ missing :: rest)) s
        = (Fail (ForbiddenError
                   ("Missing required permission: " +:+ Scope.value missing)),
           store_logged s LogLevel.warn "Missing required scope"))
  /\ (forall scope,
        hasScope auth scope = true
        <-> run_app (requireScopes auth [scope]) s = (Done tt, s)).
Proof.
  assert (Hheld : forall held rest,
    Forall (fun scope => scope ∈ AuthContext.scopes auth) held ->
    run_app (requireScopes auth (held ++ rest)) s = run_app (requireScopes auth rest) s).
  { intros held rest. induction 1 as [|scope held Hscope _ IH]; [done|].
    simpl. apply includes_true in Hscope. unfold run_app in *. simpl.
    by rewrite Hscope. }
  split; [|split].
  - intros required Hall. rewrite <- (app_nil_r required). by rewrite Hheld.
  - intros held missing rest Hall Hmissing. rewrite Hheld by done.
    assert (includes (AuthContext.scopes auth) missing = false) as Hfalse.
    { apply not_true_is_false. by rewrite includes_true. }
    unfold run_app. simpl. by rewrite Hfalse.
  - intros scope. rewrite run_requireScopes_one. unfold hasScope.
    destruct (includes _ _); [done|]. split; [done|]. by intros [= ].
Qed.

(** ** Note service *)

Ltac unfold_App :=
  unfold run_app, mbind, App_bind, app_bind, mret, App_ret, app_ret, fail, lift.

Lemma run_app_bind {A B} (m : App A) (k : A -> App B) s :
  run_app (m ≫= k) s
  = match run_app m s with
    | (Done a, s') => run_app (k a) s'
    | (Fail e, s') => (Fail e, s')
    end.
Proof. reflexivity. Qed.

Lemma run_app_lift {A} (m : M A) s :
  run_app (lift m) s
  = match run m (below s) with
    | (Return a, w) => (Done a, {| below := w; patients := patients s |})
    | (Throw e, w) => (Fail (Below e), {| below := w; patients := patients s |})
    end.
Proof. reflexivity. Qed.

Lemma run_assertPatientAccess auth patientId s :
  store_up (below s) ->
  run_app (assertPatientAccess auth patientId) s
  = match patients s !! (buildPatientPK (AuthContext.clinicId auth) patientId,
                         buildPatientSK) with
    | Some _ => (Done tt, store_read s)
    | None =>
        (Fail (ForbiddenError "Patient not found or access denied"),
         store_logged (store_read s) LogLevel.warn "Patient access denied")
    end.
Proof.
  intros Hup. unfold assertPatientAccess, patientsRepository.findById.
  unfold_App. unfold docClient_send_patients, store_up in *.
  destruct (faults (below s)) as [|[name|] script] eqn:Hf; try done;
    destruct (patients s !! _); unfold store_read, store_logged, failed, logged;
    simpl; by rewrite Hf.
Qed.

(** What the first steps of a call of the note service come to: the scope
    test, the patient test and the entry in the log. *)
Lemma run_gate {A} auth scope patientId message (k : App A) s :
  store_up (below s) ->
  run_app (requireScopes auth [scope];; assertPatientAccess auth patientId;;
           lift (logger.info message);; k) s
  = if includes (AuthContext.scopes auth) scope then
      match patients s !! (buildPatientPK (AuthContext.clinicId auth) patientId,
                           buildPatientSK) with
      | Some _ => run_app k (store_logged (store_read s) LogLevel.info message)
      | None =>
          (Fail (ForbiddenError "Patient not found or access denied"),
           store_logged (store_read s) LogLevel.warn "Patient access denied")
      end
    else (Fail (ForbiddenError ("Missing required permission: " +:+ Scope.value scope)),
          store_logged s LogLevel.warn "Missing required scope").
Proof.
  intros Hup. rewrite run_app_bind, run_requireScopes_one.
  destruct (includes _ _); [|done].
  rewrite run_app_bind, run_assertPatientAccess by done.
  by destruct (patients s !! _).
Qed.

(** X22. Every call of the note service is refused before it touches a note
    when the caller lacks the scope of the call, [notes:write] to create and
    update, [notes:read] to get, [notes:delete] to delete, or when the
    caller's clinic has no record of the patient.  The refusal is a
    [ForbiddenError]; the scope test makes no call to the store, the patient
    test one read, and the table is as it was. *)
Theorem note_service_refuses_without_scope_or_patient auth patientId s :
  let missing scope :=
    ForbiddenError ("Missing required permission: " +:+ Scope.value scope) in
  let after_scope_test := store_logged s LogLevel.warn "Missing required scope" in
  let no_patient := ForbiddenError "Patient not found or access denied" in
  let after_patient_test :=
    store_logged (store_read s) LogLevel.warn "Patient access denied" in
  let unknown :=
    patients s !! (buildPatientPK (AuthContext.clinicId auth) patientId, buildPatientSK)
    = None in
  store_up (below s) ->
  (forall noteId now input,
     (Scope.NOTES_WRITE ∉ AuthContext.scopes auth ->
      run_app (notesService.createNote noteId now auth patientId input) s
      = (Fail (missing Scope.NOTES_WRITE), after_scope_test))
     /\ (Scope.NOTES_WRITE ∈ AuthContext.scopes auth -> unknown ->
         run_app (notesService.createNote noteId now auth patientId input) s
         = (Fail no_patient, after_patient_test)))
  /\ (forall noteId,
        (Scope.NOTES_READ ∉ AuthContext.scopes auth ->
         run_app (notesService.getNote auth patientId noteId) s
         = (Fail (missing Scope.NOTES_READ), after_scope_test))
        /\ (Scope.NOTES_READ ∈ AuthContext.scopes auth -> unknown ->
            run_app (notesService.getNote auth patientId noteId) s
            = (Fail no_patient, after_patient_test)))
  /\ (forall now noteId input,
        (Scope.NOTES_WRITE ∉ AuthContext.scopes auth ->
         run_app (notesService.updateNote now auth patientId noteId input) s
         = (Fail (missing Scope.NOTES_WRITE), after_scope_test))
        /\ (Scope.NOTES_WRITE ∈ AuthContext.scopes auth -> unknown ->
            run_app (notesService.updateNote now auth patientId noteId input) s
            = (Fail no_patient, after_patient_test)))
  /\ (forall now noteId,
        (Scope.NOTES_DELETE ∉ AuthContext.scopes auth ->
         run_app (notesService.deleteNote now auth patientId noteId) s
         = (Fail (missing Scope.NOTES_DELETE), after_scope_test))
        /\ (Scope.NOTES_DELETE ∈ AuthContext.scopes auth -> unknown ->
            run_app (notesService.deleteNote now auth patientId noteId) s
            = (Fail no_patient, after_patient_test)))
  /\ table (below after_scope_test) = table (below s)
  /\ faults (below after_scope_test) = faults (below s)
  /\ patients after_scope_test = patients s
  /\ table (below after_patient_test) = table (below s)
  /\ patients after_patient_test = patients s.
Proof.
  intros missing after_scope_test no_patient after_patient_test unknown Hup.
  assert (Hout : forall scope, scope ∉ AuthContext.scopes auth ->
                               includes (AuthContext.scopes auth) scope = false).
  { intros scope Hscope. apply not_true_is_false. by rewrite includes_true. }
  assert (Hin : forall scope, scope ∈ AuthContext.scopes auth ->
                              includes (AuthContext.scopes auth) scope = true).
  { intros scope Hscope. by apply includes_true. }
  unfold unknown.
  repeat split; try done; intros;
    unfold notesService.createNote, notesService.getNote, notesService.updateNote,
      notesService.deleteNote;
    rewrite run_gate by done;
    first [ by rewrite Hout by done
          | rewrite Hin by done;
            match goal with H : _ !! _ = None |- _ => by rewrite H end ].
Qed.

Lemma sample_store_patient :
  is_Some (patients sample_store
             !! (buildPatientPK "clinic-abc" "patient-123", buildPatientSK)).
Proof. vm_compute. by eexists. Qed.

Lemma note_service_refuses_without_scope_or_patient_witness :
  run_app (notesService.deleteNote "2024-01-17T09:00:00.000Z" receptionist
             "patient-123" "note-id") sample_store
  = (Fail (ForbiddenError "Missing required permission: notes:delete"),
     store_logged sample_store LogLevel.warn "Missing required scope")
  /\ run_app (notesService.getNote receptionist "patient-999" "note-id") sample_store
     = (Fail (ForbiddenError "Patient not found or access denied"),
        store_logged (store_read sample_store) LogLevel.warn "Patient access denied").
Proof.
  split.
  - destruct (note_service_refuses_without_scope_or_patient receptionist "patient-123"
                sample_store I) as (_ & _ & _ & Hdelete & _).
    destruct (Hdelete "2024-01-17T09:00:00.000Z" "note-id") as [Hscope _].
    apply Hscope. vm_compute. by intros ?%list_elem_of_singleton.
  - destruct (note_service_refuses_without_scope_or_patient receptionist "patient-999"
                sample_store I) as (_ & Hget & _).
    destruct (Hget "note-id") as [_ Hpatient].
    apply Hpatient; [|by vm_compute]. vm_compute. by left.
Defined.

(** What [getNote] comes to once the caller is let in. *)
Lemma run_getNote auth patientId noteId s :
  store_up (below s) ->
  store_up (failed (below s)) ->
  Scope.NOTES_READ ∈ AuthContext.scopes auth ->
  is_Some (patients s !! (buildPatientPK (AuthContext.clinicId auth) patientId,
                          buildPatientSK)) ->
  let stored :=
    live_note_with_id (table (below s)) (AuthContext.clinicId auth) patientId noteId in
  exists result,
    run_app (notesService.getNote auth patientId noteId) s
    = (match result with
       | None => Fail (Below (NotFoundError "Note" noteId))
       | Some note => Done (toNoteDTO note)
       end,
       store_read (store_logged (store_read s) LogLevel.info "Getting note"))
    /\ (forall note,
          result = Some note -> exists sk it, stored sk it /\ note = itemToNote it)
    /\ (result = None <-> forall sk it, ~ stored sk it)
    /\ (forall sk it,
          stored sk it ->
          (forall sk' it', stored sk' it' -> it' = it) ->
          result = Some (itemToNote it)).
Proof.
  intros Hup Hup2 Hscope [patient Hpatient] stored.
  destruct (findByIdWithoutStudyDate_answer (AuthContext.clinicId auth) patientId noteId
              (below (store_logged (store_read s) LogLevel.info "Getting note")) Hup2)
    as (result & Hrun & Hrest).
  exists result. split; [|exact Hrest].
  unfold notesService.getNote. rewrite run_gate by done.
  apply includes_true in Hscope. rewrite Hscope, Hpatient.
  rewrite run_app_bind, run_app_lift, Hrun. by destruct result.
Qed.

(** X23. [getNote] answers a caller who holds [notes:read] and whose clinic has
    the patient from the live notes of the partition of the caller's clinic
    and that patient, when one query reads that partition whole: the note it returns is one of them with the identifier
    asked for; it throws [NotFoundError] exactly when there is none, so for a
    soft-deleted note; and it leaves the table as it was. *)
Theorem getNote_answers_from_callers_partition auth patientId noteId s :
  store_up (below s) ->
  store_up (failed (below s)) ->
  Scope.NOTES_READ ∈ AuthContext.scopes auth ->
  is_Some (patients s !! (buildPatientPK (AuthContext.clinicId auth) patientId,
                          buildPatientSK)) ->
  one_page (table (below s)) (buildPK (AuthContext.clinicId auth) patientId) ->
  let stored :=
    live_note_with_id (table (below s)) (AuthContext.clinicId auth) patientId noteId in
  exists outcome s',
    run_app (notesService.getNote auth patientId noteId) s = (outcome, s')
    /\ table (below s') = table (below s)
    /\ patients s' = patients s
    /\ (forall dto,
          outcome = Done dto ->
          exists sk it, stored sk it /\ dto = toNoteDTO (itemToNote it))
    /\ (outcome = Fail (Below (NotFoundError "Note" noteId))
        <-> forall sk it, ~ stored sk it)
    /\ (forall sk it,
          stored sk it ->
          (forall sk' it', stored sk' it' -> it' = it) ->
          outcome = Done (toNoteDTO (itemToNote it))).
Proof.
  intros Hup Hup2 Hscope Hpatient _ stored.
  destruct (run_getNote auth patientId noteId s Hup Hup2 Hscope Hpatient)
    as (result & Hrun & Hsound & Hnone & Honly).
  eexists _, _. split; [exact Hrun|]. split; [done|]. split; [done|].
  split; [|split].
  - intros dto Hdto. destruct result as [note|]; [|done].
    injection Hdto as <-. destruct (Hsound note eq_refl) as (sk & it & Hst & ->).
    by exists sk, it.
  - split.
    + intros Hfail. apply Hnone. by destruct result.
    + intros Hno. apply Hnone in Hno. by rewrite Hno.
  - intros sk it Hst Hunique. by rewrite (Honly sk it Hst Hunique).
Qed.

Lemma softDelete_succeeds now clinicId patientId noteId studyDate userId w it :
  let key := (buildPK clinicId patientId, buildSK studyDate noteId) in
  notes (table w) !! key = Some it ->
  Item.deletedAt it = None ->
  store_up w ->
  run (notesRepository.softDelete now clinicId patientId noteId studyDate userId) w
  = (Return tt,
     logged
       (answered w
          (with_notes (table w) (<[key := tombstone it now userId]> (notes (table w)))))
       LogLevel.info "Note soft deleted").
Proof.
  intros key Hit Hlive Hup.
  unfold notesRepository.softDelete. unfold_M.
  rewrite docClient_send_up by done.
  unfold UpdateCommand; simpl. fold key. rewrite Hit. simpl.
  rewrite Hlive. simpl. done.
Qed.

(** The sort key of a stored note is built from its own study date. *)
Lemma stored_under_own_key t clinicId patientId noteId sk it :
  consistent t ->
  live_note_with_id t clinicId patientId noteId sk it ->
  sk = buildSK (Item.studyDate it) noteId.
Proof.
  intros Ht (Hlookup & _ & Hid & _).
  destruct (Ht _ _ Hlookup) as (Hkey & _ & Hsk & _).
  injection Hkey as _ ->. by rewrite Hsk, Hid.
Qed.

Lemma store_up_nil w : faults w = [] -> store_up w.
Proof. unfold store_up. by intros ->. Qed.

(** With nothing left in the script of failures, the store answers every
    call. *)
Ltac store_answers :=
  apply store_up_nil; simpl;
  repeat match goal with H : faults _ = [] |- _ => rewrite H end;
  reflexivity.

(** X24. [deleteNote] soft-deletes the note it finds by identifier, once.  For
    a caller who holds [notes:delete] and whose clinic has the patient, when
    the partition holds one live note with the identifier and one query reads
    it whole: the call returns,
    the note becomes its tombstone stamped with the caller's user identifier,
    nothing else in the table changes, and afterwards a second [deleteNote]
    and [getNote] both throw [NotFoundError]. *)
Theorem deleteNote_soft_deletes_once now auth patientId noteId s sk it :
  let stored t := live_note_with_id t (AuthContext.clinicId auth) patientId noteId in
  faults (below s) = [] ->
  consistent (table (below s)) ->
  Scope.NOTES_DELETE ∈ AuthContext.scopes auth ->
  is_Some (patients s !! (buildPatientPK (AuthContext.clinicId auth) patientId,
                          buildPatientSK)) ->
  one_page (table (below s)) (buildPK (AuthContext.clinicId auth) patientId) ->
  stored (table (below s)) sk it ->
  (forall sk' it', stored (table (below s)) sk' it' -> it' = it) ->
  exists s1,
    run_app (notesService.deleteNote now auth patientId noteId) s = (Done tt, s1)
    /\ notes (table (below s1))
       = <[(buildPK (AuthContext.clinicId auth) patientId, sk)
           := tombstone it now (AuthContext.userId auth)]> (notes (table (below s)))
    /\ windows (table (below s1)) = windows (table (below s))
    /\ patients s1 = patients s
    /\ (forall now', exists s2,
          run_app (notesService.deleteNote now' auth patientId noteId) s1
          = (Fail (Below (NotFoundError "Note" noteId)), s2)
          /\ table (below s2) = table (below s1))
    /\ (Scope.NOTES_READ ∈ AuthContext.scopes auth -> exists s2,
          run_app (notesService.getNote auth patientId noteId) s1
          = (Fail (Below (NotFoundError "Note" noteId)), s2)).
Proof.
  intros stored Hf Hw Hscope Hpatient _ Hit Hunique.
  pose proof (stored_under_own_key _ _ _ _ _ _ Hw Hit) as Hsk.
  pose proof Hit as (Hlookup & _ & _ & Hlive).
  set (s0 := store_logged (store_read s) LogLevel.info "Deleting note").
  destruct (findByIdWithoutStudyDate_answer (AuthContext.clinicId auth) patientId noteId
              (below s0)) as (result & Hfind & _ & _ & Honly);
    [store_answers|].
  rewrite (Honly sk it Hit Hunique) in Hfind.
  assert (Hrun :
    run_app (notesService.deleteNote now auth patientId noteId) s
    = (Done tt,
       {| below :=
            logged
              (answered (failed (below s0))
                 (with_notes (table (below s))
                    (<[(buildPK (AuthContext.clinicId auth) patientId, sk)
                       := tombstone it now (AuthContext.userId auth)]>
                       (notes (table (below s))))))
              LogLevel.info "Note soft deleted";
          patients := patients s |})).
  { unfold notesService.deleteNote. rewrite run_gate by store_answers.
    destruct Hpatient as [patient Hpatient].
    apply includes_true in Hscope. rewrite Hscope, Hpatient.
    fold s0. rewrite run_app_bind, run_app_lift, Hfind.
    cbn [Note.studyDate itemToNote]. rewrite run_app_lift.
    rewrite (softDelete_succeeds now _ _ _ _ _ _ it); try done.
    - by rewrite <- Hsk.
    - simpl. by rewrite <- Hsk.
    - store_answers. }
  match type of Hrun with _ = (_, ?x) => set (s1 := x) in * end.
  exists s1. split; [exact Hrun|]. split; [done|]. split; [done|]. split; [done|].
  assert (Hf1 : faults (below s1) = []) by (simpl; by rewrite Hf).
  assert (Hgone : forall sk' it', ~ stored (table (below s1)) sk' it').
  { intros sk' it' (Hl & Hp & Hid & Hl'). simpl in Hl.
    apply lookup_insert_Some in Hl as [[Heq <-]|[Hne Hl]]; [done|].
    assert (Hold : stored (table (below s)) sk' it') by done.
    assert (it' = it) as -> by (by apply (Hunique sk')).
    apply Hne. f_equal. rewrite Hsk. symmetry.
    by apply (stored_under_own_key (table (below s)) (AuthContext.clinicId auth)
                patientId noteId sk' it Hw). }
  assert (Hpatient1 : is_Some (patients s1
    !! (buildPatientPK (AuthContext.clinicId auth) patientId, buildPatientSK)))
    by done.
  split.
  - intros now'. 
    set (s2 := store_logged (store_read s1) LogLevel.info "Deleting note").
    destruct (findByIdWithoutStudyDate_answer (AuthContext.clinicId auth) patientId
                noteId (below s2)) as (result' & Hfind' & _ & Hnone & _);
      [store_answers|].
    rewrite (proj2 Hnone) in Hfind' by exact Hgone.
    eexists. unfold notesService.deleteNote. rewrite run_gate by store_answers.
    destruct Hpatient1 as [patient Hp1].
    apply includes_true in Hscope. rewrite Hscope, Hp1.
    fold s2. rewrite run_app_bind, run_app_lift, Hfind'. done.
  - intros Hread.
    destruct (run_getNote auth patientId noteId s1) as (result' & Hget & _ & Hnone & _);
      try done; try store_answers.
    rewrite (proj2 Hnone) in Hget by exact Hgone. by eexists.
Qed.

Lemma sample_store_notes :
  notes (table (below sample_store)) = <[sample_key := sample_item]> ∅.
Proof. reflexivity. Qed.

Lemma sample_store_faults : faults (below sample_store) = [].
Proof. reflexivity. Qed.

Lemma sample_store_consistent : consistent (table (below sample_store)).
Proof. exact sample_world_consistent. Qed.

Lemma sample_store_one_page :
  one_page (table (below sample_store)) (buildPK "clinic-abc" "patient-123").
Proof. exact sample_world_one_page. Qed.

Lemma sample_store_note :
  live_note_with_id (table (below sample_store)) "clinic-abc" "patient-123" "note-id"
    (buildSK "2024-01-15" "note-id") sample_item
  /\ forall sk' it',
       live_note_with_id (table (below sample_store)) "clinic-abc" "patient-123"
         "note-id" sk' it' -> it' = sample_item.
Proof.
  split.
  - split; [|done]. rewrite sample_store_notes. apply lookup_insert_eq.
  - intros sk' it' (Hl & _). rewrite sample_store_notes in Hl.
    apply lookup_insert_Some in Hl as [[_ <-]|[_ Hl]]; [done|].
    by rewrite lookup_empty in Hl.
Qed.

Lemma getNote_answers_from_callers_partition_witness :
  exists s',
    run_app (notesService.getNote receptionist "patient-123" "note-id") sample_store
    = (Done (toNoteDTO (itemToNote sample_item)), s').
Proof.
  destruct sample_store_note as [Hnote Hunique].
  destruct (getNote_answers_from_callers_partition receptionist "patient-123" "note-id"
              sample_store I I) as (outcome & s' & Hrun & _ & _ & _ & _ & Honly).
  - change (AuthContext.scopes receptionist) with [Scope.NOTES_READ]. set_solver.
  - exact sample_store_patient.
  - exact sample_store_one_page.
  - exists s'. rewrite Hrun. f_equal. exact (Honly _ _ Hnote Hunique).
Defined.

Lemma admin_scopes :
  AuthContext.scopes admin
  = [Scope.NOTES_READ; Scope.NOTES_WRITE; Scope.ATTACHMENTS_WRITE; Scope.NOTES_DELETE].
Proof. reflexivity. Qed.

Lemma deleteNote_soft_deletes_once_witness :
  exists s1,
    run_app (notesService.deleteNote "2024-01-17T09:00:00.000Z" admin "patient-123"
               "note-id") sample_store = (Done tt, s1)
    /\ notes (table (below s1))
       = <[sample_key := tombstone sample_item "2024-01-17T09:00:00.000Z" "user-123"]>
           (notes (table (below sample_store))).
Proof.
  destruct sample_store_note as [Hnote Hunique].
  destruct (deleteNote_soft_deletes_once "2024-01-17T09:00:00.000Z" admin "patient-123"
              "note-id" sample_store (buildSK "2024-01-15" "note-id") sample_item
              sample_store_faults sample_store_consistent)
    as (s1 & Hrun & Hnotes & _).
  - rewrite admin_scopes. set_solver.
  - exact sample_store_patient.
  - exact sample_store_one_page.
  - exact Hnote.
  - exact Hunique.
  - exists s1. split; [exact Hrun|exact Hnotes].
Defined.

(** X25. [updateNote] updates the note it finds by identifier, under the
    study date the note is stored with.  For a caller who holds [notes:write]
    and whose clinic has the patient, when the partition holds one live note
    with the identifier, one query reads it whole, and the numbers of the
    call, the stored version and the next one are safe integers: with the
    stored version the call returns the revised
    note, stamped with the caller, and stores it; with another version it
    throws [ConflictError] naming both versions and the table is as it was. *)
Theorem updateNote_updates_the_found_note now auth patientId noteId input s sk it :
  let stored :=
    live_note_with_id (table (below s)) (AuthContext.clinicId auth) patientId noteId in
  let key := (buildPK (AuthContext.clinicId auth) patientId, sk) in
  faults (below s) = [] ->
  consistent (table (below s)) ->
  Scope.NOTES_WRITE ∈ AuthContext.scopes auth ->
  is_Some (patients s !! (buildPatientPK (AuthContext.clinicId auth) patientId,
                          buildPatientSK)) ->
  one_page (table (below s)) (buildPK (AuthContext.clinicId auth) patientId) ->
  marshals (update_numbers input) = true ->
  safe_integer (Item.version it) ->
  safe_integer (Item.version it + 1) ->
  stored sk it ->
  (forall sk' it', stored sk' it' -> it' = it) ->
  exists s1,
    run_app (notesService.updateNote now auth patientId noteId input) s
    = (if Item.version it =? UpdateNoteInput.version input
       then Done (toNoteDTO
                    (itemToNote
                       (revised it now (AuthContext.userId auth)
                          (AuthContext.username auth) input)))
       else Fail (Below (ConflictError
                           (version_conflict (UpdateNoteInput.version input)
                              (Item.version it)))),
       s1)
    /\ notes (table (below s1))
       = (if Item.version it =? UpdateNoteInput.version input
          then <[key := revised it now (AuthContext.userId auth)
                          (AuthContext.username auth) input]>
                 (notes (table (below s)))
          else notes (table (below s)))
    /\ patients s1 = patients s.
Proof.
  intros stored key Hf Hw Hscope [patient Hpatient] _ _ _ _ Hit Hunique.
  pose proof (stored_under_own_key _ _ _ _ _ _ Hw Hit) as Hsk.
  pose proof Hit as (Hlookup & _ & _ & Hlive).
  set (s0 := store_logged (store_read s) LogLevel.info "Updating note").
  destruct (findByIdWithoutStudyDate_answer (AuthContext.clinicId auth) patientId noteId
              (below s0)) as (result & Hfind & _ & _ & Honly); [store_answers|].
  rewrite (Honly sk it Hit Hunique) in Hfind.
  unfold notesService.updateNote. rewrite run_gate by store_answers.
  apply includes_true in Hscope. rewrite Hscope, Hpatient.
  fold s0. rewrite run_app_bind, run_app_lift, Hfind.
  cbn [Note.studyDate itemToNote]. rewrite run_app_bind, run_app_lift.
  destruct (Z.eqb_spec (Item.version it) (UpdateNoteInput.version input)) as [Hv|Hv].
  - rewrite (update_succeeds now _ _ _ _ _ _ _ _ it); try done;
      [|simpl; by rewrite <- Hsk|store_answers].
    eexists. split; [reflexivity|]. simpl. by rewrite <- Hsk.
  - rewrite update_condition_fails; [| |store_answers|store_answers].
    + simpl. rewrite <- Hsk, Hlookup, Hlive. simpl.
      eexists. split; [reflexivity|done].
    + simpl. rewrite <- Hsk, Hlookup. unfold update_condition. simpl.
      apply Z.eqb_neq in Hv. rewrite Hv. by rewrite !andb_false_r.
Qed.

Lemma updateNote_updates_the_found_note_witness :
  exists s1,
    run_app (notesService.updateNote "2024-01-16T10:00:00.000Z" clinician "patient-123"
               "note-id" (only_title "Updated" 3)) sample_store
    = (Fail (Below (ConflictError "Version conflict: expected 3, current is 1")), s1).
Proof.
  destruct sample_store_note as [Hnote Hunique].
  destruct (updateNote_updates_the_found_note "2024-01-16T10:00:00.000Z" clinician
              "patient-123" "note-id" (only_title "Updated" 3) sample_store
              (buildSK "2024-01-15" "note-id") sample_item
              sample_store_faults sample_store_consistent)
    as (s1 & Hrun & _).
  - change (AuthContext.scopes clinician)
      with [Scope.NOTES_READ; Scope.NOTES_WRITE; Scope.ATTACHMENTS_WRITE]. set_solver.
  - exact sample_store_patient.
  - exact sample_store_one_page.
  - reflexivity.
  - by vm_compute.
  - by vm_compute.
  - exact Hnote.
  - exact Hunique.
  - exists s1. exact Hrun.
Defined.

(** X26. [createNote] files the note under the caller's clinic.  For a caller
    who holds [notes:write] and whose clinic has the patient, when the key of
    the new note is free: the call returns the note with version 1, created by
    the caller, and stores it in the partition of the caller's clinic and the
    patient; and when the partition had no live note with the identifier and
    one query reads it whole with the new note in it, [getNote] then returns
    the same note. *)
Theorem createNote_files_under_callers_clinic noteId now auth patientId input s :
  let clinicId := AuthContext.clinicId auth in
  let key := (buildPK clinicId patientId,
              buildSK (CreateNoteInput.studyDate input) noteId) in
  let item :=
    notesRepository.create_item noteId now clinicId patientId (AuthContext.userId auth)
      (AuthContext.username auth) input in
  faults (below s) = [] ->
  Scope.NOTES_WRITE ∈ AuthContext.scopes auth ->
  is_Some (patients s !! (buildPatientPK clinicId patientId, buildPatientSK)) ->
  notes (table (below s)) !! key = None ->
  exists s1,
    run_app (notesService.createNote noteId now auth patientId input) s
    = (Done (toNoteDTO (itemToNote item)), s1)
    /\ notes (table (below s1)) = <[key := item]> (notes (table (below s)))
    /\ patients s1 = patients s
    /\ NoteDTO.version (toNoteDTO (itemToNote item)) = 1
    /\ NoteDTO.createdBy (toNoteDTO (itemToNote item)) = AuthContext.userId auth
    /\ Item.clinicId item = clinicId
    /\ (Scope.NOTES_READ ∈ AuthContext.scopes auth ->
        (forall sk it,
           ~ live_note_with_id (table (below s)) clinicId patientId noteId sk it) ->
        one_page (table (below s1)) (buildPK clinicId patientId) ->
        exists s2,
          run_app (notesService.getNote auth patientId noteId) s1
          = (Done (toNoteDTO (itemToNote item)), s2)).
Proof.
  intros clinicId key item Hf Hscope Hpatient Hfree.
  set (s0 := store_logged (store_read s) LogLevel.info "Creating note").
  assert (Hrun :
    run_app (notesService.createNote noteId now auth patientId input) s
    = (Done (toNoteDTO (itemToNote item)),
       {| below :=
            logged
              (answered (below s0)
                 (with_notes (table (below s)) (<[key := item]> (notes (table (below s))))))
              LogLevel.info "Note created";
          patients := patients s |})).
  { unfold notesService.createNote. rewrite run_gate by store_answers.
    destruct Hpatient as [patient Hpatient].
    apply includes_true in Hscope. rewrite Hscope. fold clinicId. rewrite Hpatient.
    fold s0. rewrite run_app_bind, run_app_lift.
    rewrite create_run by store_answers. simpl. fold clinicId key. by rewrite Hfree. }
  match type of Hrun with _ = (_, ?x) => set (s1 := x) in * end.
  exists s1. split; [exact Hrun|]. do 5 (split; [done|]).
  intros Hread Hnone _.
  destruct (run_getNote auth patientId noteId s1) as (result & Hget & _ & _ & Honly);
    try done; try store_answers.
  rewrite (Honly (buildSK (CreateNoteInput.studyDate input) noteId) item) in Hget.
  - by eexists.
  - split; [|split; [apply startsWith_append|done]].
    simpl. fold clinicId key. apply lookup_insert_eq.
  - intros sk' it' (Hl & Hp & Hid & Hlive). simpl in Hl. fold clinicId in Hl.
    apply lookup_insert_Some in Hl as [[_ <-]|[_ Hl]]; [done|].
    by destruct (Hnone sk' it').
Qed.

Lemma createNote_files_under_callers_clinic_witness :
  exists dto s1,
    run_app (notesService.createNote "note-2" "2024-01-20T10:00:00.000Z" clinician
               "patient-123" sample_input) sample_store = (Done dto, s1)
    /\ NoteDTO.version dto = 1
    /\ NoteDTO.createdBy dto = "user-123".
Proof.
  destruct (createNote_files_under_callers_clinic "note-2" "2024-01-20T10:00:00.000Z"
              clinician "patient-123" sample_input sample_store sample_store_faults)
    as (s1 & Hrun & _ & _ & Hversion & Hby & _).
  - change (AuthContext.scopes clinician)
      with [Scope.NOTES_READ; Scope.NOTES_WRITE; Scope.ATTACHMENTS_WRITE]. set_solver.
  - exact sample_store_patient.
  - rewrite sample_store_notes. by vm_compute.
  - eexists _, s1. split; [exact Hrun|]. split; [exact Hversion|exact Hby].
Defined.

(** X27. Who may do what, from the claims to the service.  For a caller whose
    scopes are those [parseScopes] reads from the claims: [deleteNote] is
    refused unless the caller is in the group admin or is given
    [notes:delete] by name; [createNote] and [updateNote] are refused unless the
    caller is in one of the groups admin, clinician, doctor and nurse or is
    given [notes:write] by name; [getNote] is refused unless the caller is in
    one of these groups or in the group receptionist or is given [notes:read]
    by name.  A refused call leaves the table as it was. *)
Theorem roles_decide_what_the_service_allows claims auth patientId s :
  AuthContext.scopes auth = parseScopes claims ->
  let groups := nullish (JWTClaims.cognito_groups claims) [] in
  let words :=
    List.filter truthy (split " " (nullish (JWTClaims.scope claims) EmptyString)) in
  let named scope := Scope.value scope ∈ groups ++ words in
  let clinical :=
    "admin" ∈ groups \/ "clinician" ∈ groups \/ "doctor" ∈ groups \/ "nurse" ∈ groups in
  let missing scope :=
    ForbiddenError ("Missing required permission: " +:+ Scope.value scope) in
  let refused := store_logged s LogLevel.warn "Missing required scope" in
  (~ (named Scope.NOTES_DELETE \/ "admin" ∈ groups) ->
   forall now noteId,
     run_app (notesService.deleteNote now auth patientId noteId) s
     = (Fail (missing Scope.NOTES_DELETE), refused))
  /\ (~ (named Scope.NOTES_WRITE \/ clinical) ->
      forall noteId now input update,
        run_app (notesService.createNote noteId now auth patientId input) s
        = (Fail (missing Scope.NOTES_WRITE), refused)
        /\ run_app (notesService.updateNote now auth patientId noteId update) s
           = (Fail (missing Scope.NOTES_WRITE), refused))
  /\ (~ (named Scope.NOTES_READ \/ clinical \/ "receptionist" ∈ groups) ->
      forall noteId,
        run_app (notesService.getNote auth patientId noteId) s
        = (Fail (missing Scope.NOTES_READ), refused))
  /\ ("admin" ∈ groups ->
      run_app (requireScopes auth
                 [Scope.NOTES_READ; Scope.NOTES_WRITE; Scope.NOTES_DELETE;
                  Scope.ATTACHMENTS_WRITE]) s = (Done tt, s))
  /\ table (below refused) = table (below s).
Proof.
  intros Hscopes groups words named clinical missing refused.
  destruct (parseScopes_elem claims) as (Hread & Hwrite & Hattach & Hdelete).
  fold groups words in Hread, Hwrite, Hattach, Hdelete.
  assert (Hno : forall scope, scope ∉ parseScopes claims ->
                              includes (AuthContext.scopes auth) scope = false).
  { intros scope Hscope. rewrite Hscopes. apply not_true_is_false.
    by rewrite includes_true. }
  split; [|split; [|split; [|split]]].
  - intros Hnot now noteId. unfold notesService.deleteNote.
    rewrite run_app_bind, run_requireScopes_one, Hno; [done|].
    by rewrite Hdelete.
  - intros Hnot noteId now input update.
    unfold notesService.createNote, notesService.updateNote.
    rewrite !run_app_bind, !run_requireScopes_one, Hno; [done|].
    by rewrite Hwrite.
  - intros Hnot noteId. unfold notesService.getNote.
    rewrite run_app_bind, run_requireScopes_one, Hno; [done|].
    by rewrite Hread.
  - intros Hadmin. unfold run_app. simpl. rewrite Hscopes.
    assert (Hyes : forall scope, scope ∈ parseScopes claims ->
                                 includes (parseScopes claims) scope = true).
    { intros scope Hscope. by apply includes_true. }
    rewrite !Hyes; [done| | | |].
    + apply Hattach. right. by left.
    + apply Hdelete. by right.
    + apply Hwrite. right. by left.
    + apply Hread. right. left. by left.
  - done.
Qed.

Lemma roles_decide_what_the_service_allows_witness :
  run_app (notesService.deleteNote "2024-01-17T09:00:00.000Z" clinician "patient-123"
             "note-id") sample_store
  = (Fail (ForbiddenError "Missing required permission: notes:delete"),
     store_logged sample_store LogLevel.warn "Missing required scope").
Proof.
  destruct (roles_decide_what_the_service_allows (claims_of ["clinician"] None)
              clinician "patient-123" sample_store eq_refl) as (Hdelete & _).
  apply Hdelete. simpl. intros [Hnamed|Hadmin].
  - by apply list_elem_of_singleton in Hnamed.
  - by apply list_elem_of_singleton in Hadmin.
Defined.

(** ** Patient records *)

Lemma create_patient_run now patient s :
  let item := patientsRepository.create_item now patient in
  let key := (buildPatientPK (NewPatient.clinicId patient) (NewPatient.patientId patient),
              buildPatientSK) in
  store_up (below s) ->
  run_app (patientsRepository.create now patient) s
  = match patients s !! key with
    | None =>
        (Done (patientsRepository.toPatient item),
         {| below := failed (below s); patients := <[key := item]> (patients s) |})
    | Some _ => (Fail (Below (StoreError ConditionalCheckFailedException)), store_read s)
    end.
Proof.
  intros item key Hup. unfold patientsRepository.create. unfold_App.
  unfold docClient_send_patients, store_up, store_read, failed in *. simpl. fold key.
  destruct (faults (below s)) as [|[name|] script] eqn:Hf; try done;
    by destruct (patients s !! key).
Qed.

(** X28. A patient record, from [create] to the access test.  When the
    clinic has no record of the patient, [create] stores the record under the
    key of the clinic and the patient and returns it, with the status
    [active] when none is given; the notes are untouched.  From then on
    [findById] returns this patient, and [assertPatientAccess] lets a caller of
    that clinic through, while a caller of another clinic who asks for the
    same patient identifier is refused as before.  When the clinic has a
    record already, [create] fails with the store's
    [ConditionalCheckFailedException] and the record stays as it was. *)
Theorem create_patient_then_access now patient s :
  let clinicId := NewPatient.clinicId patient in
  let patientId := NewPatient.patientId patient in
  let key c := (buildPatientPK c patientId, buildPatientSK) in
  let item := patientsRepository.create_item now patient in
  faults (below s) = [] ->
  (patients s !! key clinicId = None ->
   exists s1,
     run_app (patientsRepository.create now patient) s
     = (Done (patientsRepository.toPatient item), s1)
     /\ patients s1 = <[key clinicId := item]> (patients s)
     /\ table (below s1) = table (below s)
     /\ Patient.status (patientsRepository.toPatient item)
        = (if truthy (NewPatient.status patient) then NewPatient.status patient
           else "active")
     /\ run_app (patientsRepository.findById clinicId patientId) s1
        = (Done (Some (patientsRepository.toPatient item)), store_read s1)
     /\ (forall auth,
           AuthContext.clinicId auth = clinicId ->
           run_app (assertPatientAccess auth patientId) s1 = (Done tt, store_read s1))
     /\ (forall auth,
           AuthContext.clinicId auth <> clinicId ->
           patients s !! key (AuthContext.clinicId auth) = None ->
           run_app (assertPatientAccess auth patientId) s1
           = (Fail (ForbiddenError "Patient not found or access denied"),
              store_logged (store_read s1) LogLevel.warn "Patient access denied")))
  /\ (is_Some (patients s !! key clinicId) ->
      run_app (patientsRepository.create now patient) s
      = (Fail (Below (StoreError ConditionalCheckFailedException)), store_read s)).
Proof.
  intros clinicId patientId key item Hf. split.
  - intros Hfree.
    eexists. rewrite create_patient_run by store_answers.
    fold clinicId patientId (key clinicId) item. rewrite Hfree.
    split; [reflexivity|]. do 3 (split; [done|]).
    assert (Hup : store_up (failed (below s))) by store_answers.
    split; [|split].
    + unfold patientsRepository.findById. unfold_App.
      unfold docClient_send_patients, store_read, failed. simpl.
      rewrite Hf. simpl. fold (key clinicId). by rewrite lookup_insert_eq.
    + intros auth Hclinic. rewrite run_assertPatientAccess by exact Hup.
      rewrite Hclinic. simpl. fold (key clinicId). by rewrite lookup_insert_eq.
    + intros auth Hclinic Hnone. rewrite run_assertPatientAccess by exact Hup.
      simpl. fold (key (AuthContext.clinicId auth)).
      rewrite lookup_insert_ne, Hnone; [done|].
      intros Heq. apply Hclinic. symmetry.
      apply (f_equal fst) in Heq.
      exact (buildPK_inj_clinic clinicId (AuthContext.clinicId auth) patientId Heq).
  - intros [old Hold]. rewrite create_patient_run by store_answers.
    fold clinicId patientId (key clinicId). by rewrite Hold.
Qed.

Lemma create_patient_then_access_witness :
  exists s1,
    run_app (patientsRepository.create "2024-01-10T09:00:00.000Z" sample_patient)
      {| below := sample_world; patients := ∅ |}
    = (Done (patientsRepository.toPatient
               (patientsRepository.create_item "2024-01-10T09:00:00.000Z" sample_patient)),
       s1)
    /\ run_app (assertPatientAccess admin "patient-123") s1 = (Done tt, store_read s1).
Proof.
  destruct (create_patient_then_access "2024-01-10T09:00:00.000Z" sample_patient
              {| below := sample_world; patients := ∅ |} eq_refl) as [Hfree _].
  destruct (Hfree (lookup_empty _)) as (s1 & Hrun & _ & _ & _ & _ & Haccess & _).
  exists s1. split; [exact Hrun|]. exact (Haccess admin eq_refl).
Defined.

(** ** Attachments *)

(** The scope test and the patient test at the head of a call. *)
Lemma run_checks {A} auth scope patientId (k : App A) s :
  store_up (below s) ->
  run_app (requireScopes auth [scope];; assertPatientAccess auth patientId;; k) s
  = if includes (AuthContext.scopes auth) scope then
      match patients s !! (buildPatientPK (AuthContext.clinicId auth) patientId,
                           buildPatientSK) with
      | Some _ => run_app k (store_read s)
      | None =>
          (Fail (ForbiddenError "Patient not found or access denied"),
           store_logged (store_read s) LogLevel.warn "Patient access denied")
      end
    else (Fail (ForbiddenError ("Missing required permission: " +:+ Scope.value scope)),
          store_logged s LogLevel.warn "Missing required scope").
Proof.
  intros Hup. rewrite run_app_bind, run_requireScopes_one.
  destruct (includes _ _); [|done].
  rewrite run_app_bind, run_assertPatientAccess by done.
  by destruct (patients s !! _).
Qed.

(** X29. When an upload URL is given.  [generatePresignedUploadUrl] returns
    exactly when the caller holds [attachments:write], the caller's clinic has
    the patient, the size is at most 100 MB, the content type is one of the
    allowed ones and the signer answers; the URL is the signer's, for a put
    of the object whose key [buildS3Key] makes of the caller's clinic, the
    patient, the note, the attachment and the file name, and that key is
    returned with it.  A larger size and then another content type are
    refused with [ValidationError] after the scope and the patient tests,
    before anything is signed or logged.  The notes are never read: the
    note need not exist. *)
Theorem upload_url_only_for_allowed_files
    getSignedUrl bucket attachmentId auth patientId noteId input s :
  let call :=
    generatePresignedUploadUrl getSignedUrl bucket attachmentId auth patientId noteId
      input in
  let size := PresignUploadInput.sizeBytes input in
  let type := PresignUploadInput.contentType input in
  let key :=
    buildS3Key (AuthContext.clinicId auth) patientId noteId attachmentId
      (PresignUploadInput.fileName input) in
  let command :=
    PutObjectCommand (BUCKET_NAME bucket) key type size
      [ ("clinic-id", AuthContext.clinicId auth); ("patient-id", patientId);
        ("note-id", noteId); ("attachment-id", attachmentId);
        ("uploaded-by", AuthContext.userId auth) ] in
  let options :=
    {| SignOptions.expiresIn := 900;
       SignOptions.signableHeaders := Some ["host"; "content-type"; "content-length"] |} in
  let ready :=
    store_logged (store_read s) LogLevel.info "Generating presigned upload URL" in
  let allowed :=
    Scope.ATTACHMENTS_WRITE ∈ AuthContext.scopes auth
    /\ is_Some (patients s !! (buildPatientPK (AuthContext.clinicId auth) patientId,
                               buildPatientSK)) in
  store_up (below s) ->
  (forall response s',
     run_app call s = (Done response, s') <->
     allowed /\ size <= 104857600 /\ type ∈ ALLOWED_CONTENT_TYPES
     /\ exists url,
          run_app (getSignedUrl command options) ready = (Done url, s')
          /\ response = {| PresignUploadResponse.uploadUrl := url;
                           PresignUploadResponse.s3Key := key;
                           PresignUploadResponse.attachmentId := attachmentId;
                           PresignUploadResponse.expiresIn := 900 |})
  /\ (allowed -> 104857600 < size ->
      run_app call s
      = (Fail (ValidationError "File size exceeds maximum allowed (104857600 bytes)"),
         store_read s))
  /\ (allowed -> size <= 104857600 -> type ∉ ALLOWED_CONTENT_TYPES ->
      run_app call s
      = (Fail (ValidationError
                 ("Content type not allowed: " +:+ type +:+ ". Allowed types: "
                  +:+ join_with ", " ALLOWED_CONTENT_TYPES)),
         store_read s)).
Proof.
  intros call size type key command options ready allowed Hup.
  assert (Hrun :
    run_app call s
    = if includes (AuthContext.scopes auth) Scope.ATTACHMENTS_WRITE then
        match patients s !! (buildPatientPK (AuthContext.clinicId auth) patientId,
                             buildPatientSK) with
        | Some _ =>
            if (104857600 <? size)%Z then
              (Fail (ValidationError "File size exceeds maximum allowed (104857600 bytes)"),
               store_read s)
            else if includes ALLOWED_CONTENT_TYPES type then
              match run_app (getSignedUrl command options) ready with
              | (Done url, s') =>
                  (Done {| PresignUploadResponse.uploadUrl := url;
                           PresignUploadResponse.s3Key := key;
                           PresignUploadResponse.attachmentId := attachmentId;
                           PresignUploadResponse.expiresIn := 900 |}, s')
              | (Fail e, s') => (Fail e, s')
              end
            else
              (Fail (ValidationError
                       ("Content type not allowed: " +:+ type +:+ ". Allowed types: "
                        +:+ join_with ", " ALLOWED_CONTENT_TYPES)),
               store_read s)
        | None =>
            (Fail (ForbiddenError "Patient not found or access denied"),
             store_logged (store_read s) LogLevel.warn "Patient access denied")
        end
      else (Fail (ForbiddenError "Missing required permission: attachments:write"),
            store_logged s LogLevel.warn "Missing required scope")).
  { unfold call, generatePresignedUploadUrl. rewrite run_checks by done.
    destruct (includes (AuthContext.scopes auth) _); [|done].
    destruct (patients s !! _); [|done].
    change (MAX_FILE_SIZE <? PresignUploadInput.sizeBytes input)
      with (104857600 <? size).
    destruct (104857600 <? size); [done|].
    fold type. destruct (includes ALLOWED_CONTENT_TYPES type); [|done].
    cbn [negb]. rewrite run_app_bind, run_app_lift. unfold_M.
    cbv beta iota. rewrite run_app_bind. fold key command.
    change (store_logged (store_read s) LogLevel.info "Generating presigned upload URL")
      with ready.
    reflexivity. }
  split; [|split].
  - intros response s'. rewrite Hrun. unfold allowed. split.
    + destruct (includes (AuthContext.scopes auth) _) eqn:Hscope; [|done].
      apply includes_true in Hscope.
      destruct (patients s !! _) as [patient|] eqn:Hpatient; [|done].
      destruct (Z.ltb_spec 104857600 size); [done|].
      destruct (includes ALLOWED_CONTENT_TYPES type) eqn:Htype; [|done].
      apply includes_true in Htype.
      destruct (run_app (getSignedUrl command options) ready) as [[url|e] s''] eqn:Hsign;
        [|done].
      intros [= <- <-]. split; [split; [done|by eexists]|].
      split; [lia|]. split; [done|]. by exists url.
    + intros ([Hscope [patient Hpatient]] & Hsize & Htype & url & Hsign & ->).
      apply includes_true in Hscope, Htype. rewrite Hscope, Hpatient, Htype.
      destruct (Z.ltb_spec 104857600 size); [lia|]. by rewrite Hsign.
  - intros [Hscope [patient Hpatient]] Hsize. rewrite Hrun.
    apply includes_true in Hscope. rewrite Hscope, Hpatient.
    by destruct (Z.ltb_spec 104857600 size); [|lia].
  - intros [Hscope [patient Hpatient]] Hsize Htype. rewrite Hrun.
    apply includes_true in Hscope. rewrite Hscope, Hpatient.
    destruct (Z.ltb_spec 104857600 size); [lia|].
    destruct (includes ALLOWED_CONTENT_TYPES type) eqn:Hin; [|done].
    by apply includes_true in Hin.
Qed.

Lemma upload_url_only_for_allowed_files_witness :
  exists response s',
    run_app (generatePresignedUploadUrl sample_signer None "attachment-1" admin
               "patient-123" "note-404" sample_upload) sample_store
    = (Done response, s')
    /\ PresignUploadResponse.s3Key response
       = "clinic/clinic-abc/patient/patient-123/note/note-404/attachment-1/sleep_study.pdf".
Proof.
  destruct (upload_url_only_for_allowed_files sample_signer None "attachment-1" admin
              "patient-123" "note-404" sample_upload sample_store
              (store_up_nil _ sample_store_faults)) as [Hgiven _].
  eexists _, _. split.
  - apply Hgiven. split; [split|].
    + rewrite admin_scopes. clear. set_solver.
    + exact sample_store_patient.
    + split; [done|]. split; [clear; set_solver|]. eexists. split; reflexivity.
  - reflexivity.
Defined.

Lemma find_first {A} (f : A -> bool) before a after :
  (forall b, b ∈ before -> f b = false) -> f a = true ->
  List.find f (before ++ a :: after) = Some a.
Proof.
  intros Hbefore Ha. induction before as [|b before IH]; simpl.
  - by rewrite Ha.
  - rewrite (Hbefore b) by left. apply IH. intros b' Hb'. apply Hbefore. by right.
Qed.

Lemma find_nothing {A} (f : A -> bool) l :
  (forall a, a ∈ l -> f a = false) -> List.find f l = None.
Proof.
  intros Hl. induction l as [|a l IH]; [done|]. simpl.
  rewrite (Hl a) by left. apply IH. intros b Hb. apply Hl. by right.
Qed.

Lemma upper_hex_digit_unreserved n : (n < 16)%N -> is_unreserved (upper_hex_digit n) = true.
Proof.
  intros Hn.
  assert (Hcases : In n (List.map N.of_nat (List.seq 0 16))).
  { apply List.in_map_iff. exists (N.to_nat n). split; [lia|]. apply List.in_seq. lia. }
  simpl in Hcases. by repeat destruct Hcases as [<-|Hcases].
Qed.

Lemma percent_encode_chars c :
  Forall (fun x => is_unreserved x = true \/ x = "%"%char)
    (list_ascii_of_string (percent_encode c)).
Proof.
  assert (Hc : (code c < 256)%N) by apply N_ascii_bounded.
  unfold percent_encode. cbn [list_ascii_of_string].
  constructor; [by right|].
  constructor; [left; apply upper_hex_digit_unreserved|].
  { apply N.Div0.div_lt_upper_bound. lia. }
  constructor; [left; apply upper_hex_digit_unreserved|constructor].
  by apply N.mod_lt.
Qed.

Lemma encodeURIComponent_chars name :
  Forall (fun x => is_unreserved x = true \/ x = "%"%char)
    (list_ascii_of_string (encodeURIComponent name)).
Proof.
  induction name as [|c r IH]; [constructor|].
  cbn [encodeURIComponent]. rewrite list_ascii_of_string_append.
  apply Forall_app. split; [|exact IH].
  destruct (is_unreserved c) eqn:Hc; [|apply percent_encode_chars].
  cbn [list_ascii_of_string]. constructor; [by left|constructor].
Qed.
(** What [createNote] comes to when the caller is let through and the key is
    free. *)
Lemma run_createNote noteId now auth patientId input s :
  let clinicId := AuthContext.clinicId auth in
  let key := (buildPK clinicId patientId,
              buildSK (CreateNoteInput.studyDate input) noteId) in
  let item :=
    notesRepository.create_item noteId now clinicId patientId (AuthContext.userId auth)
      (AuthContext.username auth) input in
  faults (below s) = [] ->
  Scope.NOTES_WRITE ∈ AuthContext.scopes auth ->
  is_Some (patients s !! (buildPatientPK clinicId patientId, buildPatientSK)) ->
  notes (table (below s)) !! key = None ->
  exists s1,
    run_app (notesService.createNote noteId now auth patientId input) s
    = (Done (toNoteDTO (itemToNote item)), s1)
    /\ notes (table (below s1)) = <[key := item]> (notes (table (below s)))
    /\ patients s1 = patients s
    /\ faults (below s1) = [].
Proof.
  intros clinicId key item Hf Hscope [patient Hpatient] Hfree.
  eexists. split; [|split; [|split]].
  - unfold notesService.createNote. rewrite run_gate by store_answers.
    apply includes_true in Hscope. rewrite Hscope. fold clinicId. rewrite Hpatient.
    rewrite run_app_bind, run_app_lift.
    rewrite create_run by store_answers. simpl. fold clinicId key. by rewrite Hfree.
  - done.
  - done.
  - simpl. by rewrite Hf.
Qed.

(** What [generatePresignedDownloadUrl] comes to when the caller is let
    through. *)
Lemma run_generatePresignedDownloadUrl
    (getSignedUrl : Signer) bucket auth patientId noteId attachmentId s :
  let clinicId := AuthContext.clinicId auth in
  let stored := live_note_with_id (table (below s)) clinicId patientId noteId in
  let call :=
    generatePresignedDownloadUrl getSignedUrl bucket auth patientId noteId attachmentId in
  let read := store_read (store_read s) in
  let command a :=
    GetObjectCommand (BUCKET_NAME bucket) (s3Key a)
      ("attachment; filename=" +:+ quote +:+ encodeURIComponent (fileName a) +:+ quote)
      (contentType a) in
  let options :=
    {| SignOptions.expiresIn := 900; SignOptions.signableHeaders := None |} in
  let signed a :=
    match run_app (getSignedUrl (command a) options)
            (store_logged read LogLevel.info "Generating presigned download URL") with
    | (Done url, s') =>
        (Done {| PresignDownloadResponse.downloadUrl := url;
                 PresignDownloadResponse.fileName := fileName a;
                 PresignDownloadResponse.contentType := contentType a;
                 PresignDownloadResponse.expiresIn := 900 |}, s')
    | (Fail e, s') => (Fail e, s')
    end in
  faults (below s) = [] ->
  Scope.NOTES_READ ∈ AuthContext.scopes auth ->
  is_Some (patients s !! (buildPatientPK clinicId patientId, buildPatientSK)) ->
  ((forall sk it, ~ stored sk it) ->
   run_app call s = (Fail (Below (NotFoundError "Note" noteId)), read))
  /\ (forall sk it,
        stored sk it ->
        (forall sk' it', stored sk' it' -> it' = it) ->
        let attachments := nullish (Item.attachments it) [] in
        ((forall a, a ∈ attachments -> id a <> attachmentId) ->
         run_app call s = (Fail (Below (NotFoundError "Attachment" attachmentId)), read))
        /\ (forall before a after,
              attachments = before ++ a :: after ->
              (forall b, b ∈ before -> id b <> attachmentId) ->
              id a = attachmentId ->
              run_app call s = signed a)).
Proof.
  intros clinicId stored call read command options signed Hf Hscope [patient Hpatient].
  destruct (findByIdWithoutStudyDate_answer clinicId patientId noteId
              (below (store_read s))) as (result & Hrun & _ & Hnone & Honly);
    [store_answers|].
  assert (Hcall :
    run_app call s
    = match result with
      | None => (Fail (Below (NotFoundError "Note" noteId)), read)
      | Some note =>
          match List.find (fun a => String.eqb (id a) attachmentId)
                  (Note.attachments note) with
          | None => (Fail (Below (NotFoundError "Attachment" attachmentId)), read)
          | Some a => signed a
          end
      end).
  { unfold call, generatePresignedDownloadUrl. rewrite run_checks by store_answers.
    apply includes_true in Hscope. rewrite Hscope. fold clinicId. rewrite Hpatient.
    rewrite run_app_bind, run_app_lift, Hrun.
    destruct result as [note|]; [|done].
    destruct (List.find _ _) as [a|]; [|done].
    rewrite run_app_bind, run_app_lift. unfold_M. cbv beta iota.
    by rewrite run_app_bind. }
  split.
  - intros Hno. apply Hnone in Hno. by rewrite Hcall, Hno.
  - intros sk it Hit Hunique attachments.
    rewrite Hcall, (Honly sk it Hit Hunique).
    change (Note.attachments (itemToNote it)) with attachments.
    split.
    + intros Hothers. rewrite find_nothing; [done|].
      intros a Ha. apply String.eqb_neq. by apply Hothers.
    + intros before a after -> Hbefore Ha. rewrite find_first; [done| |].
      * intros b Hb. apply String.eqb_neq. by apply Hbefore.
      * by apply String.eqb_eq.
Qed.

(** X30. Which object a download URL is for.  For a caller who holds
    [notes:read] and whose clinic has the patient, when one query reads the
    patient's partition whole, [generatePresignedDownloadUrl] throws [NotFoundError] for the note when the partition has no live note
    with the identifier, so for a soft-deleted one, and for the attachment
    when the note lists none with the identifier asked for.  Otherwise the
    URL is the signer's, for a get of the object under the key stored with
    the first attachment of that identifier; the key is signed as it is
    stored.  So after [createNote] with one attachment in the input, the
    caller is given a URL for the key that input names, whatever it is.  The
    file name in the disposition header is written with unreserved characters
    and [%] only, so it holds no double quote and no line break. *)
Theorem download_url_signs_stored_key
    (getSignedUrl : Signer) bucket auth patientId noteId attachmentId s :
  let clinicId := AuthContext.clinicId auth in
  let stored s0 := live_note_with_id (table (below s0)) clinicId patientId noteId in
  let call := generatePresignedDownloadUrl getSignedUrl bucket auth patientId noteId in
  let read s0 := store_read (store_read s0) in
  let command a :=
    GetObjectCommand (BUCKET_NAME bucket) (s3Key a)
      ("attachment; filename=" +:+ quote +:+ encodeURIComponent (fileName a) +:+ quote)
      (contentType a) in
  let options :=
    {| SignOptions.expiresIn := 900; SignOptions.signableHeaders := None |} in
  let signed s0 a :=
    match run_app (getSignedUrl (command a) options)
            (store_logged (read s0) LogLevel.info "Generating presigned download URL") with
    | (Done url, s') =>
        (Done {| PresignDownloadResponse.downloadUrl := url;
                 PresignDownloadResponse.fileName := fileName a;
                 PresignDownloadResponse.contentType := contentType a;
                 PresignDownloadResponse.expiresIn := 900 |}, s')
    | (Fail e, s') => (Fail e, s')
    end in
  faults (below s) = [] ->
  Scope.NOTES_READ ∈ AuthContext.scopes auth ->
  is_Some (patients s !! (buildPatientPK clinicId patientId, buildPatientSK)) ->
  one_page (table (below s)) (buildPK clinicId patientId) ->
  ((forall sk it, ~ stored s sk it) ->
   run_app (call attachmentId) s = (Fail (Below (NotFoundError "Note" noteId)), read s))
  /\ (forall sk it,
        stored s sk it ->
        (forall sk' it', stored s sk' it' -> it' = it) ->
        let attachments := nullish (Item.attachments it) [] in
        ((forall a, a ∈ attachments -> id a <> attachmentId) ->
         run_app (call attachmentId) s
         = (Fail (Below (NotFoundError "Attachment" attachmentId)), read s))
        /\ (forall before a after,
              attachments = before ++ a :: after ->
              (forall b, b ∈ before -> id b <> attachmentId) ->
              id a = attachmentId ->
              run_app (call attachmentId) s = signed s a))
  /\ (forall now input a,
        let key :=
          (buildPK clinicId patientId,
           buildSK (CreateNoteInput.studyDate input) noteId) in
        let item :=
          notesRepository.create_item noteId now clinicId patientId
            (AuthContext.userId auth) (AuthContext.username auth) input in
        Scope.NOTES_WRITE ∈ AuthContext.scopes auth ->
        CreateNoteInput.attachments input = Some [a] ->
        notes (table (below s)) !! key = None ->
        (forall sk it, ~ stored s sk it) ->
        one_page (with_notes (table (below s)) (<[key := item]> (notes (table (below s)))))
          (buildPK clinicId patientId) ->
        exists dto s1,
          run_app (notesService.createNote noteId now auth patientId input) s
          = (Done dto, s1)
          /\ run_app (call (id a)) s1 = signed s1 a)
  /\ (forall name c,
        In c (list_ascii_of_string (encodeURIComponent name)) ->
        (is_unreserved c = true \/ c = "%"%char)
        /\ c <> chr 34 /\ c <> chr 13 /\ c <> chr 10).
Proof.
  intros clinicId stored call read command options signed Hf Hscope Hpatient _.
  destruct (run_generatePresignedDownloadUrl getSignedUrl bucket auth patientId noteId
              attachmentId s Hf Hscope Hpatient) as [Hnote Hfound].
  split; [exact Hnote|]. split; [exact Hfound|]. split.
  - intros now input a key0 item0 Hwrite Hinput Hfree Hnew _.
    subst key0 item0.
    destruct (run_createNote noteId now auth patientId input s Hf Hwrite Hpatient Hfree)
      as (s1 & Hcreate & Hnotes & Hpatients & Hf1).
    fold clinicId in Hnotes.
    set (item := notesRepository.create_item noteId now clinicId patientId
                   (AuthContext.userId auth) (AuthContext.username auth) input) in *.
    set (sk := buildSK (CreateNoteInput.studyDate input) noteId) in *.
    eexists _, s1. split; [exact Hcreate|].
    assert (Hpatient1 :
      is_Some (patients s1 !! (buildPatientPK clinicId patientId, buildPatientSK)))
      by (by rewrite Hpatients).
    destruct (run_generatePresignedDownloadUrl getSignedUrl bucket auth patientId noteId
                (id a) s1 Hf1 Hscope Hpatient1) as [_ Hfound1].
    destruct (Hfound1 sk item) as [_ Hsigned].
    + split; [|split; [apply startsWith_append|done]].
      rewrite Hnotes. apply lookup_insert_eq.
    + intros sk' it' (Hl & Hp & Hid & Hlive). rewrite Hnotes in Hl.
      apply lookup_insert_Some in Hl as [[_ <-]|[_ Hl]]; [done|].
      by destruct (Hnew sk' it').
    + apply (Hsigned [] a []); [|by intros b Hb%elem_of_nil|done].
      unfold item. simpl. by rewrite Hinput.
  - intros name c Hc.
    pose proof (encodeURIComponent_chars name) as Hall.
    rewrite List.Forall_forall in Hall. specialize (Hall c Hc).
    split; [exact Hall|].
    destruct Hall as [Hsafe| ->]; [|done].
    repeat split; intros ->; done.
Qed.

Lemma sample_store_no_other_note noteId :
  noteId <> "note-id" ->
  forall sk it,
    ~ live_note_with_id (table (below sample_store)) "clinic-abc" "patient-123" noteId
        sk it.
Proof.
  intros Hne sk it (Hl & _ & Hid & _). rewrite sample_store_notes in Hl.
  apply lookup_insert_Some in Hl as [[_ <-]|[_ Hl]]; [by apply Hne|].
  by rewrite lookup_empty in Hl.
Qed.

Lemma download_url_signs_stored_key_witness :
  exists dto s1 s2,
    run_app (notesService.createNote "note-2" "2024-01-20T10:00:00.000Z" admin
               "patient-123" sample_input_with_attachment) sample_store
    = (Done dto, s1)
    /\ run_app (generatePresignedDownloadUrl sample_signer None admin "patient-123"
                  "note-2" "attachment-9") s1
       = (Done {| PresignDownloadResponse.downloadUrl :=
                    "https://snoremd-attachments/clinic/clinic-xyz/patient/patient-777/note/note-1/attachment-1/scan.pdf";
                  PresignDownloadResponse.fileName := fileName sample_attachment;
                  PresignDownloadResponse.contentType := "application/pdf";
                  PresignDownloadResponse.expiresIn := 900 |}, s2).
Proof.
  destruct (download_url_signs_stored_key sample_signer None admin "patient-123" "note-2"
              "attachment-9" sample_store sample_store_faults) as (_ & _ & Hnew & _).
  - rewrite admin_scopes. clear. set_solver.
  - exact sample_store_patient.
  - exact sample_store_one_page.
  - destruct (Hnew "2024-01-20T10:00:00.000Z" sample_input_with_attachment
                sample_attachment) as (dto & s1 & Hcreate & Hget).
    + rewrite admin_scopes. clear. set_solver.
    + reflexivity.
    + rewrite sample_store_notes. by vm_compute.
    + by apply sample_store_no_other_note.
    + by vm_compute.
    + exists dto, s1. eexists. split; [exact Hcreate|]. exact Hget.
Defined.
